(** * Student Finance Tracker: validators, search and state

    A shallow embedding of the validators, the search and the store of
    the application (validators.js, search.js, state.js and the saving of
    storage.js) together with the part of the JavaScript host they rely
    on: regular expressions, strings, numbers, loosely typed values, the
    ordering of object keys, the [Date] object and the local storage.

    Conventions of the embedding.
    - A JavaScript string is a [string]; one [ascii] stands for one code
      unit, so the model covers the Latin-1 range, with the case mapping
      of that range.
    - A JavaScript number is a rational ([Q]); a decimal that is no
      double stands for the double nearest to it.  [None] in an
      [option Q] stands for [NaN]; the infinities are outside the model.
      Sums, quotients and products are those of IEEE 754 doubles: the
      operands and the result are rounded to the nearest double
      ([round], [Number_add] and the like).  The validators only compare
      parsed decimals against the constants [0] and [999999.99]; rounding
      to the nearest double is monotone, so those comparisons agree with
      the ones on the decimals.
    - A call that may throw returns a [completion].
    - A regular expression object carries its mutable [lastIndex]; every
      operation that may change it returns the updated object. *)

From Stdlib Require Import String Ascii List ZArith QArith Bool Arith Lia.
From Stdlib Require Import Qround Qpower Lqa.
From Stdlib Require Import Permutation Sorted DecimalString.
Import ListNotations.

Local Open Scope nat_scope.
Local Open Scope string_scope.
Local Open Scope list_scope.

(* ================================================================= *)
(** ** Completions: normal results and thrown errors *)

Inductive error : Type :=
| SyntaxError
| TypeError.

Inductive completion (A : Type) : Type :=
| Normal (a : A)
| Throw (e : error).

Arguments Normal {A} a.
Arguments Throw {A} e.

Definition bind {A B : Type} (c : completion A) (k : A -> completion B)
  : completion B :=
  match c with
  | Normal a => k a
  | Throw e => Throw e
  end.

Notation "'let!' x ':=' c 'in' k" := (bind c (fun x => k))
  (at level 10, x name, c at level 100, k at level 200).

(** [try { body } catch (error) { handler }] *)
Definition try_catch {A : Type} (body : completion A) (handler : error -> completion A)
  : completion A :=
  match body with
  | Normal a => Normal a
  | Throw e => handler e
  end.

(* ================================================================= *)
(** ** Characters and strings *)

Definition code (c : ascii) : nat := nat_of_ascii c.

Definition between (lo hi : nat) (c : ascii) : bool :=
  (lo <=? code c)%nat && (code c <=? hi)%nat.

Definition isDigit (c : ascii) : bool := between 48 57 c.
Definition isUpper (c : ascii) : bool := between 65 90 c.
Definition isLower (c : ascii) : bool := between 97 122 c.

(** The characters of the class [\w]. *)
Definition isWordChar (c : ascii) : bool :=
  isDigit c || isUpper c || isLower c || (code c =? 95)%nat.

(** Line terminators (LF and CR in this range). *)
Definition isLineTerminator (c : ascii) : bool :=
  (code c =? 10)%nat || (code c =? 13)%nat.

(** White space and line terminators: the class [\s], also what [trim]
    strips.  TAB, LF, VT, FF, CR, SPACE and NBSP. *)
Definition isWhiteSpace (c : ascii) : bool :=
  between 9 13 c || (code c =? 32)%nat || (code c =? 160)%nat.

(** The case mapping of the range: the letters of ASCII and the
    accented letters 192 to 222 and 224 to 254, but for the signs of
    multiplication (215) and division (247).  The capitals of 181 and
    255 lie outside the range and the sharp s (223) has none: the three
    stay as they are, as [toLowerCase] and the canonical form of a
    pattern character leave them. *)
Definition isUpperLatin (c : ascii) : bool :=
  isUpper c || between 192 214 c || between 216 222 c.

Definition isLowerLatin (c : ascii) : bool :=
  isLower c || between 224 246 c || between 248 254 c.

Definition toUpperChar (c : ascii) : ascii :=
  if isLowerLatin c then ascii_of_nat (code c - 32) else c.

Definition toLowerChar (c : ascii) : ascii :=
  if isUpperLatin c then ascii_of_nat (code c + 32) else c.

Definition chars (s : string) : list ascii := list_ascii_of_string s.
Definition str (l : list ascii) : string := string_of_list_ascii l.

(** [String.prototype.toLowerCase] *)
Definition toLowerCase (s : string) : string := str (map toLowerChar (chars s)).

Fixpoint trimStart (l : list ascii) : list ascii :=
  match l with
  | c :: l' => if isWhiteSpace c then trimStart l' else l
  | [] => []
  end.

(** [String.prototype.trim] *)
Definition trim (s : string) : string :=
  str (rev (trimStart (rev (trimStart (chars s))))).

(** [S.substring(from, to)] for [from <= to]. *)
Definition slice (l : list ascii) (from to : nat) : list ascii :=
  firstn (to - from) (skipn from l).

(** The relational operator [<] on two strings: code unit order. *)
Fixpoint str_ltb (a b : list ascii) : bool :=
  match a, b with
  | [], [] => false
  | [], _ :: _ => true
  | _ :: _, [] => false
  | x :: a', y :: b' =>
      if (code x <? code y)%nat then true
      else if (code y <? code x)%nat then false
      else str_ltb a' b'
  end.

(* ================================================================= *)
(** ** Regular expressions

    The pattern language of the host, as an abstract syntax tree, and the
    backtracking matcher of the language definition: a matcher takes a
    match state and a continuation, and alternatives are tried in order. *)

Inductive cls : Type :=
| CDigit                       (* \d *)
| CWord                        (* \w *)
| CSpace                       (* \s *)
| COne (c : ascii)             (* a single character *)
| CRange (lo hi : ascii)       (* a-z *)
| CNon (k : cls).              (* \D, \W, \S inside a class *)

Inductive regex : Type :=
| Eps
| Lit (c : ascii)
| Any                                            (* .  *)
| Cset (neg : bool) (cs : list cls)              (* [...], [^...], \d, \S, ... *)
| Cat (r1 r2 : regex)
| Alt (r1 r2 : regex)                            (* r1|r2 *)
| Rep (min : nat) (max : option nat) (greedy : bool) (r : regex)
| Grp (i : nat) (r : regex)                      (* i-th capturing group *)
| Ref (i : nat)                                  (* back-reference \i *)
| Look (neg : bool) (r : regex)                  (* (?=r) and (?!r) *)
| Bol                                            (* ^ *)
| Eol                                            (* $ *)
| Wb                                             (* \b *)
| NWb.                                           (* \B *)

(** A match state: the end index reached and the captures so far, each a
    pair of a start and an end index into the input. *)
Record mstate : Type := MState {
  endIndex : nat;
  captures : list (nat * (nat * nat))
}.

Fixpoint lookup_cap (i : nat) (caps : list (nat * (nat * nat))) : option (nat * nat) :=
  match caps with
  | [] => None
  | (j, se) :: caps' => if (i =? j)%nat then Some se else lookup_cap i caps'
  end.

Definition clear_caps (gs : list nat) (caps : list (nat * (nat * nat)))
  : list (nat * (nat * nat)) :=
  filter (fun p => negb (existsb (Nat.eqb (fst p)) gs)) caps.

(** The capturing groups of a pattern. *)
Fixpoint groups (r : regex) : list nat :=
  match r with
  | Cat r1 r2 | Alt r1 r2 => groups r1 ++ groups r2
  | Rep _ _ _ r' | Look _ r' => groups r'
  | Grp i r' => i :: groups r'
  | _ => []
  end.

Section Matcher.

Variable input : list ascii.
Variable ignoreCase : bool.

(** Canonicalize *)
Definition canon (c : ascii) : ascii :=
  if ignoreCase then toUpperChar c else c.

Definition char_eqb (a b : ascii) : bool := (code (canon a) =? code (canon b))%nat.

Fixpoint in_cls (k : cls) (c : ascii) : bool :=
  match k with
  | CNon k' => negb (in_cls k' c)
  | CDigit => isDigit c
  | CWord => isWordChar c
  | CSpace => isWhiteSpace c
  | COne a => char_eqb a c
  | CRange lo hi =>
      between (code lo) (code hi) c
      || (ignoreCase && (between (code lo) (code hi) (toUpperChar c)
                         || between (code lo) (code hi) (toLowerChar c)))
  end.

Definition in_cset (neg : bool) (cs : list cls) (c : ascii) : bool :=
  xorb neg (existsb (fun k => in_cls k c) cs).

Definition char_at (i : nat) : option ascii := nth_error input i.

Definition wordAt (i : nat) : bool :=
  match char_at i with
  | Some c => isWordChar c
  | None => false
  end.

(** IsWordChar(e - 1) differs from IsWordChar(e). *)
Definition at_boundary (e : nat) : bool :=
  let a := match e with O => false | S e' => wordAt e' end in
  xorb a (wordAt e).

Definition step_char (p : ascii -> bool) (x : mstate) (k : mstate -> option mstate)
  : option mstate :=
  match char_at (endIndex x) with
  | Some c => if p c then k (MState (S (endIndex x)) (captures x)) else None
  | None => None
  end.

(** Does the input continue at [e] with the text [w] (up to case when
    the flag is set)? *)
Fixpoint matches_at (w : list ascii) (e : nat) : bool :=
  match w with
  | [] => true
  | c :: w' =>
      match char_at e with
      | Some d => char_eqb c d && matches_at w' (S e)
      | None => false
      end
  end.

Definition orelse (a : option mstate) (b : unit -> option mstate) : option mstate :=
  match a with
  | Some z => Some z
  | None => b tt
  end.

(** The matcher of a pattern.  [Rep] follows RepeatMatcher: an
    iteration that is not required and consumes nothing fails, and the
    captures of the repeated groups are cleared before each iteration.
    Its fuel bounds the number of iterations, each of which either
    counts down [min] or advances in the input. *)
Fixpoint m (r : regex) (x : mstate) (k : mstate -> option mstate) {struct r}
  : option mstate :=
  match r with
  | Eps => k x
  | Lit c => step_char (char_eqb c) x k
  | Any => step_char (fun c => negb (isLineTerminator c)) x k
  | Cset neg cs => step_char (in_cset neg cs) x k
  | Cat r1 r2 => m r1 x (fun y => m r2 y k)
  | Alt r1 r2 => orelse (m r1 x k) (fun _ => m r2 x k)
  | Rep min max greedy r' =>
      (fix repeat (fuel min : nat) (max : option nat) (x : mstate) {struct fuel}
         : option mstate :=
         match fuel with
         | O => None
         | S fuel' =>
             match max with
             | Some O => k x
             | _ =>
                 let d := fun y : mstate =>
                   if (min =? 0)%nat && (endIndex y =? endIndex x)%nat then None
                   else repeat fuel' (Nat.pred min) (option_map Nat.pred max) y in
                 let xr := MState (endIndex x) (clear_caps (groups r') (captures x)) in
                 if negb (min =? 0)%nat then m r' xr d
                 else if greedy then orelse (m r' xr d) (fun _ => k x)
                 else orelse (k x) (fun _ => m r' xr d)
             end
         end) (min + length input + 2)%nat min max x
  | Grp i r' =>
      m r' x (fun y => k (MState (endIndex y)
                                 ((i, (endIndex x, endIndex y)) :: captures y)))
  | Ref i =>
      match lookup_cap i (captures x) with
      | None => k x
      | Some (s, e) =>
          if matches_at (slice input s e) (endIndex x)
          then k (MState (endIndex x + (e - s)) (captures x))
          else None
      end
  | Look neg r' =>
      match m r' x (fun y => Some y), neg with
      | Some y, false => k (MState (endIndex x) (captures y))
      | None, true => k x
      | _, _ => None
      end
  | Bol => if (endIndex x =? 0)%nat then k x else None
  | Eol => if (endIndex x =? length input)%nat then k x else None
  | Wb => if at_boundary (endIndex x) then k x else None
  | NWb => if at_boundary (endIndex x) then None else k x
  end.

(** Try the pattern at index [i] only. *)
Definition match_at (r : regex) (i : nat) : option mstate :=
  m r (MState i []) (fun y => Some y).

(** The first index from [i] on, over [fuel] candidates, at which the
    pattern matches: the scan of RegExpBuiltinExec. *)
Fixpoint scan (r : regex) (fuel i : nat) : option (nat * mstate) :=
  match fuel with
  | O => None
  | S fuel' =>
      match match_at r i with
      | Some y => Some (i, y)
      | None => scan r fuel' (S i)
      end
  end.

End Matcher.

(** *** Regular expression objects *)

Record RegExp : Type := mkRegExp {
  source : regex;
  ignoreCase : bool;
  global : bool;
  lastIndex : nat
}.

Definition set_lastIndex (R : RegExp) (i : nat) : RegExp :=
  mkRegExp (source R) (ignoreCase R) (global R) i.

(** The result of a successful [exec]: where the match starts and ends,
    and the matched text. *)
Record match_result : Type := mkMatch {
  index : nat;
  stop : nat;
  matched : string
}.

(** RegExpBuiltinExec.  A pattern without the global flag always starts
    at index 0 and leaves [lastIndex] alone; a global one starts at
    [lastIndex] and moves it to the end of the match, or back to 0 when
    nothing matches. *)
Definition exec (R : RegExp) (S : string) : option match_result * RegExp :=
  let input := chars S in
  let start := if global R then lastIndex R else 0%nat in
  match scan input (ignoreCase R) (source R) (Datatypes.S (length input) - start) start with
  | Some (i, y) =>
      (Some (mkMatch i (endIndex y) (str (slice input i (endIndex y)))),
       if global R then set_lastIndex R (endIndex y) else R)
  | None => (None, if global R then set_lastIndex R 0 else R)
  end.

(** [R.test(S)] *)
Definition test (R : RegExp) (S : string) : bool * RegExp :=
  match exec R S with
  | (Some _, R') => (true, R')
  | (None, R') => (false, R')
  end.

(** The loop of [RegExp.prototype[Symbol.replace]] for a global pattern:
    collect every match; after an empty match step [lastIndex] by one. *)
Fixpoint collect (fuel : nat) (R : RegExp) (S : string) : list match_result * RegExp :=
  match fuel with
  | O => ([], R)
  | Datatypes.S fuel' =>
      match exec R S with
      | (None, R') => ([], R')
      | (Some r, R') =>
          let R'' := if (index r =? stop r)%nat
                     then set_lastIndex R' (Datatypes.S (lastIndex R')) else R' in
          let (rs, Rn) := collect fuel' R'' S in
          (r :: rs, Rn)
      end
  end.

(** Assemble the result: the text between matches is copied from the
    subject as it is, each match is replaced by [f] of the matched text. *)
Fixpoint splice (input : list ascii) (f : string -> string)
         (next : nat) (rs : list match_result) : string :=
  match rs with
  | [] => str (skipn next input)
  | r :: rs' =>
      if (next <=? index r)%nat
      then str (slice input next (index r)) ++ f (matched r)
           ++ splice input f (stop r) rs'
      else splice input f next rs'
  end.

(** [S.replace(R, f)] with a replacer function of the matched text. *)
Definition replace (S : string) (R : RegExp) (f : string -> string) : string * RegExp :=
  if global R then
    let (rs, R') := collect (String.length S + 2) (set_lastIndex R 0) S in
    (splice (chars S) f 0 rs, R')
  else
    match exec R S with
    | (Some r, R') => (splice (chars S) f 0 [r], R')
    | (None, R') => (S, R')
    end.

(** A regular expression literal [/r/] or [/r/i] of the source text. *)
Definition literal (r : regex) (i : bool) : RegExp := mkRegExp r i false 0.

(** *** A pattern compiler

    A model of the host's [new RegExp(pattern, flags)] for the usual
    pattern syntax: alternation, quantifiers (greedy and lazy), groups,
    back-references [\1]..[\9], lookahead, classes and the escapes
    [\d \w \s \b] and their complements.  Of the flags it knows [g] and
    [i].  A pattern it cannot read is a [SyntaxError]. *)

Definition presult : Type := option (regex * list ascii * nat).

Fixpoint read_nat (acc : nat) (l : list ascii) : nat * list ascii :=
  match l with
  | c :: l' => if isDigit c then read_nat (10 * acc + (code c - 48)) l' else (acc, l)
  | [] => (acc, [])
  end.

(** A braced quantifier [{n}], [{n,}] or [{n,m}] at the head of [l]. *)
Definition read_braces (l : list ascii) : option (nat * option nat * list ascii) :=
  match l with
  | "{"%char :: (d :: _) as l1 =>
      if isDigit d then
        let (n, l2) := read_nat 0 l1 in
        match l2 with
        | "}"%char :: l3 => Some (n, Some n, l3)
        | ","%char :: "}"%char :: l3 => Some (n, None, l3)
        | ","%char :: (d' :: _) as l3 =>
            if isDigit d' then
              let (k, l4) := read_nat 0 l3 in
              match l4 with
              | "}"%char :: l5 => Some (n, Some k, l5)
              | _ => None
              end
            else None
        | _ => None
        end
      else None
  | _ => None
  end.

(** The quantifier, if any, that follows an atom. *)
Definition read_quantifier (r : regex) (g : nat) (l : list ascii) : presult :=
  let lazy (l' : list ascii) : bool * list ascii :=
    match l' with
    | "?"%char :: l'' => (false, l'')
    | _ => (true, l')
    end in
  match l with
  | "*"%char :: l' => let (gr, l'') := lazy l' in Some (Rep 0 None gr r, l'', g)
  | "+"%char :: l' => let (gr, l'') := lazy l' in Some (Rep 1 None gr r, l'', g)
  | "?"%char :: l' => let (gr, l'') := lazy l' in Some (Rep 0 (Some 1) gr r, l'', g)
  | _ =>
      match read_braces l with
      | Some (n, mx, l') =>
          let ordered := match mx with Some k => (n <=? k)%nat | None => true end in
          if ordered
          then let (gr, l'') := lazy l' in Some (Rep n mx gr r, l'', g)
          else None
      | None => Some (r, l, g)
      end
  end.

Definition class_escape (c : ascii) : cls :=
  match c with
  | "d"%char => CDigit
  | "D"%char => CNon CDigit
  | "w"%char => CWord
  | "W"%char => CNon CWord
  | "s"%char => CSpace
  | "S"%char => CNon CSpace
  | "t"%char => COne (ascii_of_nat 9)
  | "n"%char => COne (ascii_of_nat 10)
  | "v"%char => COne (ascii_of_nat 11)
  | "f"%char => COne (ascii_of_nat 12)
  | "r"%char => COne (ascii_of_nat 13)
  | _ => COne c
  end.

Definition single (k : cls) : option ascii :=
  match k with
  | COne c => Some c
  | _ => None
  end.

(** The items of a class up to the closing bracket. *)
Fixpoint read_class (fuel : nat) (l : list ascii) : option (list cls * list ascii) :=
  match fuel with
  | O => None
  | S fuel' =>
      let item : option (cls * list ascii) :=
        match l with
        | "\"%char :: "b"%char :: l' => Some (COne (ascii_of_nat 8), l')
        | "\"%char :: c :: l' => Some (class_escape c, l')
        | c :: l' => Some (COne c, l')
        | [] => None
        end in
      match l with
      | [] => None
      | "]"%char :: l' => Some ([], l')
      | _ =>
          match item with
          | None => None
          | Some (a, l1) =>
              let range : option (cls * list ascii) :=
                match l1 with
                | "-"%char :: "]"%char :: _ => Some (a, l1)
                | "-"%char :: l2 =>
                    match l2 with
                    | [] => None
                    | _ =>
                        let item2 :=
                          match l2 with
                          | "\"%char :: "b"%char :: l' => Some (COne (ascii_of_nat 8), l')
                          | "\"%char :: c :: l' => Some (class_escape c, l')
                          | c :: l' => Some (COne c, l')
                          | [] => None
                          end in
                        match item2 with
                        | Some (b, l3) =>
                            match single a, single b with
                            | Some lo, Some hi =>
                                if (code lo <=? code hi)%nat
                                then Some (CRange lo hi, l3) else None
                            | _, _ => Some (a, l1)
                            end
                        | None => None
                        end
                    end
                | _ => Some (a, l1)
                end in
              match range with
              | None => None
              | Some (k, l4) =>
                  match read_class fuel' l4 with
                  | Some (ks, l5) => Some (k :: ks, l5)
                  | None => None
                  end
              end
          end
      end
  end.

Definition atom_escape (c : ascii) : regex :=
  match c with
  | "d"%char => Cset false [CDigit]
  | "D"%char => Cset true [CDigit]
  | "w"%char => Cset false [CWord]
  | "W"%char => Cset true [CWord]
  | "s"%char => Cset false [CSpace]
  | "S"%char => Cset true [CSpace]
  | "t"%char => Lit (ascii_of_nat 9)
  | "n"%char => Lit (ascii_of_nat 10)
  | "v"%char => Lit (ascii_of_nat 11)
  | "f"%char => Lit (ascii_of_nat 12)
  | "r"%char => Lit (ascii_of_nat 13)
  | _ => if between 49 57 c then Ref (code c - 48) else Lit c
  end.

(** Disjunction, Alternative and Term of the pattern grammar.  [g] counts
    the capturing groups opened so far. *)
Fixpoint read_disjunction (fuel g : nat) (l : list ascii) {struct fuel} : presult :=
  match fuel with
  | O => None
  | S fuel' =>
      match read_alternative fuel' g l with
      | Some (r1, "|"%char :: l1, g1) =>
          match read_disjunction fuel' g1 l1 with
          | Some (r2, l2, g2) => Some (Alt r1 r2, l2, g2)
          | None => None
          end
      | other => other
      end
  end
with read_alternative (fuel g : nat) (l : list ascii) {struct fuel} : presult :=
  match fuel with
  | O => None
  | S fuel' =>
      match l with
      | [] => Some (Eps, l, g)
      | "|"%char :: _ => Some (Eps, l, g)
      | ")"%char :: _ => Some (Eps, l, g)
      | _ =>
          match read_term fuel' g l with
          | Some (r1, l1, g1) =>
              match read_alternative fuel' g1 l1 with
              | Some (Eps, l2, g2) => Some (r1, l2, g2)
              | Some (r2, l2, g2) => Some (Cat r1 r2, l2, g2)
              | None => None
              end
          | None => None
          end
      end
  end
with read_term (fuel g : nat) (l : list ascii) {struct fuel} : presult :=
  match fuel with
  | O => None
  | S fuel' =>
      let closing (wrap : regex -> regex) (p : presult) : presult :=
        match p with
        | Some (r, ")"%char :: l', g') => Some (wrap r, l', g')
        | _ => None
        end in
      let quantified (p : presult) : presult :=
        match p with
        | Some (r, l', g') => read_quantifier r g' l'
        | None => None
        end in
      match l with
      | [] => None
      | "^"%char :: l' => Some (Bol, l', g)
      | "$"%char :: l' => Some (Eol, l', g)
      | "\"%char :: "b"%char :: l' => Some (Wb, l', g)
      | "\"%char :: "B"%char :: l' => Some (NWb, l', g)
      | "\"%char :: c :: l' => read_quantifier (atom_escape c) g l'
      | "\"%char :: [] => None
      | "."%char :: l' => read_quantifier Any g l'
      | "("%char :: "?"%char :: ":"%char :: l' =>
          quantified (closing (fun r => r) (read_disjunction fuel' g l'))
      | "("%char :: "?"%char :: "="%char :: l' =>
          quantified (closing (Look false) (read_disjunction fuel' g l'))
      | "("%char :: "?"%char :: "!"%char :: l' =>
          quantified (closing (Look true) (read_disjunction fuel' g l'))
      | "("%char :: "?"%char :: _ => None
      | "("%char :: l' =>
          quantified (closing (Grp (S g)) (read_disjunction fuel' (S g) l'))
      | "["%char :: "^"%char :: l' =>
          match read_class (S (length l')) l' with
          | Some (ks, l1) => read_quantifier (Cset true ks) g l1
          | None => None
          end
      | "["%char :: l' =>
          match read_class (S (length l')) l' with
          | Some (ks, l1) => read_quantifier (Cset false ks) g l1
          | None => None
          end
      | "*"%char :: _ => None
      | "+"%char :: _ => None
      | "?"%char :: _ => None
      | "{"%char :: l' =>
          match read_braces l with
          | Some _ => None
          | None => read_quantifier (Lit "{"%char) g l'
          end
      | c :: l' => read_quantifier (Lit c) g l'
      end
  end.

(** The whole pattern: a disjunction that uses up the text. *)
Definition read_pattern (S : string) : option regex :=
  match read_disjunction (3 * String.length S + 3) 0 (chars S) with
  | Some (r, [], _) => Some r
  | _ => None
  end.

(** The flags: [g] and [i], each at most once. *)
Fixpoint read_flags (l : list ascii) (g i : bool) : option (bool * bool) :=
  match l with
  | [] => Some (g, i)
  | "g"%char :: l' => if g then None else read_flags l' true i
  | "i"%char :: l' => if i then None else read_flags l' g true
  | _ => None
  end.

Definition RegExp_new_model (pattern flags : string) : completion RegExp :=
  match read_flags (chars flags) false false, read_pattern pattern with
  | Some (g, i), Some r => Normal (mkRegExp r i g 0)
  | _, _ => Throw SyntaxError
  end.

(* ================================================================= *)
(** ** Numbers and dates of the host *)

Abbreviation number := Q (only parsing).

(** *** The arithmetic of doubles

    A number of the program is an IEEE 754 double.  A rational of the
    model stands for the double nearest to it: [round] takes a rational
    to that double (to the nearest, ties to the even one, with 53 bits
    and the least exponent -1074), and an arithmetic operator rounds its
    operands, applies the exact operation and rounds the result.  On
    doubles this is the operation of the host, as long as the result is
    finite. *)

(** The integer nearest to [x], the even one of two equally near. *)
Definition nearest_even (x : Q) : Z :=
  let f := Qfloor x in
  match Qcompare (x - inject_Z f)%Q (1 # 2)%Q with
  | Lt => f
  | Eq => if Z.even f then f else (f + 1)%Z
  | Gt => (f + 1)%Z
  end.

(** The integer part of the binary logarithm of a positive [x]. *)
Definition floor_log2 (x : Q) : Z :=
  let d := (Z.log2 (Qnum x) - Z.log2 (Zpos (Qden x)))%Z in
  if Qle_bool (2 ^ d)%Q x then d else (d - 1)%Z.

(** The exponent of the last bit of the double nearest to a positive
    [x]. *)
Definition exponent (x : Q) : Z := Z.max (-1074) (floor_log2 x - 52).

Definition round_pos (x : Q) : Q :=
  (inject_Z (nearest_even (x / 2 ^ exponent x)) * 2 ^ exponent x)%Q.

Definition round (x : Q) : Q :=
  match Qnum x with
  | Z0 => 0%Q
  | Zpos _ => round_pos x
  | Zneg _ => (- round_pos (- x))%Q
  end.

(** The doubles: at most 53 bits at an exponent from -1074 on. *)
Definition representable (y : Q) : Prop :=
  exists k j : Z, (-1074 <= j)%Z /\ (Z.abs k <= 2 ^ 53)%Z /\ (y == inject_Z k * 2 ^ j)%Q.

(** [x + y], [x * y] and, for a [y] other than zero, [x / y] *)
Definition Number_add (x y : number) : number := round (round x + round y)%Q.
Definition Number_mul (x y : number) : number := round (round x * round y)%Q.
Definition Number_div (x y : number) : number := round (round x / round y)%Q.

(** The decimal digits of the fraction [r / d], at most [fuel] of them. *)
Fixpoint fraction_digits (fuel : nat) (r d : Z) : list ascii :=
  match fuel with
  | O => []
  | S fuel' =>
      if (r =? 0)%Z then []
      else ascii_of_nat (48 + Z.to_nat (r * 10 / d))
             :: fraction_digits fuel' ((r * 10) mod d)%Z d
  end.

(** A model of Number::toString: exact on the decimals with up to twenty
    fractional digits. *)
Definition Number_toString_model (q : number) : string :=
  let d := Zpos (Qden q) in
  let a := Z.abs (Qnum q) in
  (if (Qnum q <? 0)%Z then "-" else "")
  ++ NilZero.string_of_int (Z.to_int (a / d))
  ++ match fraction_digits 20 (a mod d)%Z d with
     | [] => ""
     | ds => "." ++ str ds
     end.

Definition msPerDay : Z := 86400000.

(** Day(t) and TimeWithinDay(t) *)
Definition Day (t : Z) : Z := (t / msPerDay)%Z.
Definition TimeWithinDay (t : Z) : Z := (t mod msPerDay)%Z.

Definition isLeapYear (y : Z) : bool :=
  (((y mod 4 =? 0) && negb (y mod 100 =? 0)) || (y mod 400 =? 0))%Z.

Definition DayFromYear (y : Z) : Z :=
  (365 * (y - 1970) + (y - 1969) / 4 - (y - 1901) / 100 + (y - 1601) / 400)%Z.

(** Days of the year before the first of month [mth] (1 to 12). *)
Definition daysBeforeMonth (y mth : Z) : Z :=
  (nth (Z.to_nat (mth - 1)) [0; 31; 59; 90; 120; 151; 181; 212; 243; 273; 304; 334] 0
   + (if isLeapYear y && (2 <? mth) then 1 else 0))%Z.

Definition DaysInMonth (y mth : Z) : Z :=
  (if mth =? 2 then (if isLeapYear y then 29 else 28)
   else if (mth =? 4) || (mth =? 6) || (mth =? 9) || (mth =? 11) then 30
   else 31)%Z.

(** MakeDay for a month from 1 to 12: the day number of the first of the
    month plus [dt - 1], whatever [dt] is. *)
Definition MakeDay (y mth dt : Z) : Z :=
  (DayFromYear y + daysBeforeMonth y mth + dt - 1)%Z.

Definition MakeDate (day time : Z) : Z := (day * msPerDay + time)%Z.

Definition digit (c : ascii) : Z := Z.of_nat (code c - 48).

(** A model of the host's date parser on the date-only form
    [YYYY-MM-DD], which denotes midnight UTC.  Hosts differ on a day of
    the month that the month does not have, such as February 30: with
    [rolls] the day runs over into the next month (March 2), without it
    the text is not a date.  Any other text is not a date here. *)
Definition Date_parse_model (rolls : bool) (s : string) : option Z :=
  match chars s with
  | [y1; y2; y3; y4; "-"%char; m1; m2; "-"%char; d1; d2] =>
      if forallb isDigit [y1; y2; y3; y4; m1; m2; d1; d2] then
        let y := (1000 * digit y1 + 100 * digit y2 + 10 * digit y3 + digit y4)%Z in
        let mth := (10 * digit m1 + digit m2)%Z in
        let d := (10 * digit d1 + digit d2)%Z in
        if ((1 <=? mth) && (mth <=? 12) && (1 <=? d) && (d <=? 31)
            && (rolls || (d <=? DaysInMonth y mth)))%Z
        then Some (MakeDate (MakeDay y mth d) 0)
        else None
      else None
  | _ => None
  end.

(** What the application takes from the platform.  [Date_now] is the
    time value of [new Date()], in milliseconds since the epoch;
    [Date_parse] gives the time value of [new Date(text)], [None] for an
    invalid date; [LocalTZA t isUTC] is the offset of local time. *)
Class Host : Type := {
  RegExp_new : string -> string -> completion RegExp;
  Number_toString : number -> string;
  Date_now : Z;
  Date_parse : string -> option Z;
  LocalTZA : Z -> bool -> Z
}.

(** A host with the model compiler and parser, a clock reading [now]
    and a fixed offset [tz] of local time from UTC. *)
Definition model_host (now tz : Z) (rolls : bool) : Host := {|
  RegExp_new := RegExp_new_model;
  Number_toString := Number_toString_model;
  Date_now := now;
  Date_parse := Date_parse_model rolls;
  LocalTZA := fun _ _ => tz
|}.

Section Dates.

Context {host : Host}.

Definition LocalTime (t : Z) : Z := (t + LocalTZA t true)%Z.
Definition UTC (t : Z) : Z := (t - LocalTZA t false)%Z.

(** [d.setHours(0, 0, 0, 0)]: midnight of the local day of [tv]. *)
Definition setHours0 (tv : Z) : Z :=
  UTC (MakeDate (Day (LocalTime tv)) 0).

(** [d.setDate(d.getDate() - n)]: the local time is moved back by [n]
    days, its time within the day kept.  (MakeDay of the year and month
    of [t] with the date [DateFromTime t - n] is [Day t - n].) *)
Definition setDateBack (n : Z) (tv : Z) : Z :=
  let t := LocalTime tv in
  UTC (MakeDate (Day t - n) (TimeWithinDay t)).

End Dates.

(** Comparisons of two time values, either of which may be [NaN]. *)
Definition nan_ltb (a b : option Z) : bool :=
  match a, b with
  | Some x, Some y => (x <? y)%Z
  | _, _ => false
  end.

Definition nan_leb (a b : option Z) : bool :=
  match a, b with
  | Some x, Some y => (x <=? y)%Z
  | _, _ => false
  end.

(* ================================================================= *)
(** ** Loosely typed values

    What [JSON.parse] can return, and [undefined] for a property that is
    not there.  An object is the list of its own properties in the order
    of the text; a property written twice holds the last value. *)

#[local] Unset Elimination Schemes.

Inductive value : Type :=
| VUndefined
| VNull
| VBool (b : bool)
| VNumber (n : number)
| VString (s : string)
| VArray (items : list value)
| VObject (props : list (string * value)).

#[local] Set Elimination Schemes.

Fixpoint own_property (name : string) (props : list (string * value)) : option value :=
  match props with
  | [] => None
  | (k, v) :: props' =>
      match own_property name props' with
      | Some v' => Some v'
      | None => if String.eqb k name then Some v else None
      end
  end.

(** [v.name] for a name that no prototype defines (the record fields
    read by the import validator are such names): reading a property of
    [null] or [undefined] throws, a primitive or an array has no such
    property. *)
Definition get (v : value) (name : string) : completion value :=
  match v with
  | VUndefined | VNull => Throw TypeError
  | VObject props =>
      match own_property name props with
      | Some x => Normal x
      | None => Normal VUndefined
      end
  | _ => Normal VUndefined
  end.

(** ToBoolean *)
Definition truthy (v : value) : bool :=
  match v with
  | VUndefined | VNull => false
  | VBool b => b
  | VNumber n => negb (Qeq_bool n 0%Q)
  | VString s => negb (String.eqb s "")
  | VArray _ | VObject _ => true
  end.

Inductive type_name : Type :=
| t_undefined | t_object | t_boolean | t_number | t_string.

(** The [typeof] operator *)
Definition typeof (v : value) : type_name :=
  match v with
  | VUndefined => t_undefined
  | VNull | VArray _ | VObject _ => t_object
  | VBool _ => t_boolean
  | VNumber _ => t_number
  | VString _ => t_string
  end.

Definition is_string (v : value) : bool :=
  match typeof v with t_string => true | _ => false end.

Definition is_number (v : value) : bool :=
  match typeof v with t_number => true | _ => false end.

Section Values.

Context {host : Host}.

(** ToString.  An array is the join of its elements with commas, where
    [null] and [undefined] count as empty; a plain object is
    [[object Object]], unless it has a property [toString] of its own,
    which is not a function: then the conversion throws. *)
Fixpoint ToString (v : value) : completion string :=
  match v with
  | VUndefined => Normal "undefined"
  | VNull => Normal "null"
  | VBool true => Normal "true"
  | VBool false => Normal "false"
  | VNumber n => Normal (Number_toString n)
  | VString s => Normal s
  | VArray items =>
      (fix join (l : list value) : completion string :=
         match l with
         | [] => Normal ""
         | x :: l' =>
             let! a := match x with
                       | VUndefined | VNull => Normal ""
                       | _ => ToString x
                       end in
             match l' with
             | [] => Normal a
             | _ => let! b := join l' in Normal (a ++ "," ++ b)%string
             end
         end) items
  | VObject props =>
      match own_property "toString" props with
      | Some _ => Throw TypeError
      | None => Normal "[object Object]"
      end
  end.

(** [R.test(v)] for a pattern without the global flag and any value. *)
Definition test_value (R : RegExp) (v : value) : completion bool :=
  let! s := ToString v in Normal (fst (test R s)).

End Values.

(** parseFloat: the longest decimal literal at the head of the text,
    after white space; [None] is [NaN]. *)
Fixpoint read_digits (acc : Z) (n : nat) (l : list ascii) : Z * nat * list ascii :=
  match l with
  | c :: l' => if isDigit c then read_digits (10 * acc + digit c)%Z (S n) l' else (acc, n, l)
  | [] => (acc, n, [])
  end.

Definition read_exponent (l : list ascii) : Z :=
  let after_e (l' : list ascii) : Z :=
    let '(sign, l'') :=
      match l' with
      | "+"%char :: t => (1%Z, t)
      | "-"%char :: t => ((-1)%Z, t)
      | _ => (1%Z, l')
      end in
    let '(e, n, _) := read_digits 0 0 l'' in
    if (n =? 0)%nat then 0%Z else (sign * e)%Z in
  match l with
  | "e"%char :: l' => after_e l'
  | "E"%char :: l' => after_e l'
  | _ => 0%Z
  end.

Definition parseFloat (s : string) : option number :=
  let l := trimStart (chars s) in
  let '(sign, l1) :=
    match l with
    | "+"%char :: t => (1%Z, t)
    | "-"%char :: t => ((-1)%Z, t)
    | _ => (1%Z, l)
    end in
  let '(ip, n1, l2) := read_digits 0 0 l1 in
  let '(fp, n2, l3) :=
    match l2 with
    | "."%char :: t => read_digits 0 0 t
    | _ => (0%Z, 0, l2)
    end in
  if (n1 + n2 =? 0)%nat then None
  else
    let e := read_exponent l3 in
    let mantissa := (sign * (ip * 10 ^ Z.of_nat n2 + fp))%Z in
    let scale := (e - Z.of_nat n2)%Z in
    Some (Qred (if (0 <=? scale)%Z
                then inject_Z (mantissa * 10 ^ scale)
                else Qmake mantissa (Z.to_pos (10 ^ (- scale))))).

(** [a <= b] and [a > b] when [a] may be [NaN] *)
Definition num_leb (a : option number) (b : number) : bool :=
  match a with
  | Some x => Qle_bool x b
  | None => false
  end.

Definition num_gtb (a : option number) (b : number) : bool :=
  match a with
  | Some x => negb (Qle_bool x b)
  | None => false
  end.

Definition string_of_nat (n : nat) : string := NilZero.string_of_uint (Nat.to_uint n).

(* ================================================================= *)
(** ** validators.js *)

(** The regular expression literals of the pattern catalogue: the text
    of each literal between its slashes, and the pattern it denotes. *)
Module patterns.

Definition description_text : string := "^\S(?:.*\S)?$".

Definition description : RegExp :=
  literal
    (Cat Bol
       (Cat (Cset true [CSpace])
          (Cat (Rep 0 (Some 1) true
                  (Cat (Rep 0 None true Any) (Cset true [CSpace])))
             Eol)))
    false.

Definition amount_text : string := "^(0|[1-9]\d*)(\.\d{1,2})?$".

Definition amount : RegExp :=
  literal
    (Cat Bol
       (Cat (Grp 1 (Alt (Lit "0")
                      (Cat (Cset false [CRange "1" "9"])
                         (Rep 0 None true (Cset false [CDigit])))))
          (Cat (Rep 0 (Some 1) true
                  (Grp 2 (Cat (Lit ".")
                            (Rep 1 (Some 2) true (Cset false [CDigit])))))
             Eol)))
    false.

Definition date_text : string := "^\d{4}-(0[1-9]|1[0-2])-(0[1-9]|[12]\d|3[01])$".

Definition date : RegExp :=
  literal
    (Cat Bol
       (Cat (Rep 4 (Some 4) true (Cset false [CDigit]))
          (Cat (Lit "-")
             (Cat (Grp 1 (Alt (Cat (Lit "0") (Cset false [CRange "1" "9"]))
                            (Cat (Lit "1") (Cset false [CRange "0" "2"]))))
                (Cat (Lit "-")
                   (Cat (Grp 2 (Alt (Cat (Lit "0") (Cset false [CRange "1" "9"]))
                                  (Alt (Cat (Cset false [COne "1"; COne "2"])
                                          (Cset false [CDigit]))
                                     (Cat (Lit "3")
                                        (Cset false [COne "0"; COne "1"])))))
                      Eol))))))
    false.

Definition category_text : string := "^[A-Za-z]+(?:[ -][A-Za-z]+)*$".

Definition category : RegExp :=
  literal
    (Cat Bol
       (Cat (Rep 1 None true (Cset false [CRange "A" "Z"; CRange "a" "z"]))
          (Cat (Rep 0 None true
                  (Cat (Cset false [COne " "; COne "-"])
                     (Rep 1 None true
                        (Cset false [CRange "A" "Z"; CRange "a" "z"]))))
             Eol)))
    false.

(** This one has the flag [i]. *)
Definition duplicateWords_text : string := "\b(\w+)\s+\1\b".

Definition duplicateWords : RegExp :=
  literal
    (Cat Wb
       (Cat (Grp 1 (Rep 1 None true (Cset false [CWord])))
          (Cat (Rep 1 None true (Cset false [CSpace]))
             (Cat (Ref 1) Wb))))
    true.

End patterns.

(** The result of a field validator. *)
Record result : Type := mkResult {
  valid : bool;
  message : string
}.

(** [!value || value.trim() === ''] for a string *)
Definition blank (value : string) : bool :=
  String.eqb value "" || String.eqb (trim value) "".

Definition validateDescription (value : string) : result :=
  if blank value then
    mkResult false "Description is required"
  else if negb (fst (test patterns.description value)) then
    mkResult false "Description cannot have leading/trailing spaces or double spaces"
  else if fst (test patterns.duplicateWords value) then
    mkResult false "Description contains duplicate words"
  else if (String.length value <? 3)%nat then
    mkResult false "Description must be at least 3 characters long"
  else if (100 <? String.length value)%nat then
    mkResult false "Description must be less than 100 characters"
  else
    mkResult true "".

Definition validateAmount (value : string) : result :=
  if blank value then
    mkResult false "Amount is required"
  else if negb (fst (test patterns.amount value)) then
    mkResult false "Amount must be a valid number with up to 2 decimal places"
  else
    let numValue := parseFloat value in
    if num_leb numValue 0%Q then
      mkResult false "Amount must be greater than 0"
    else if num_gtb numValue (99999999 # 100)%Q then
      mkResult false "Amount must be less than 1,000,000"
    else
      mkResult true "".

Definition validateCategory (value : string) : result :=
  if blank value then
    mkResult false "Category is required"
  else
    mkResult true "".

Section Validators.

Context {host : Host}.

Definition validateDate (value : string) : result :=
  if blank value then
    mkResult false "Date is required"
  else if negb (fst (test patterns.date value)) then
    mkResult false "Date must be in YYYY-MM-DD format"
  else
    let dateObj := Date_parse value in
    match dateObj with
    | None => mkResult false "Invalid date"
    | Some _ =>
        let today := setHours0 Date_now in
        if nan_ltb (Some today) dateObj then
          mkResult false "Date cannot be in the future"
        else
          mkResult true ""
    end.

(** The form data: four strings. *)
Record form : Type := mkForm {
  form_description : string;
  form_amount : string;
  form_category : string;
  form_date : string
}.

(** The [errors] object is the list of its entries. *)
Definition validateTransaction (data : form) : bool * list (string * string) :=
  let collect_error (field : string) (r : result) :=
    if valid r then [] else [(field, message r)] in
  let errors :=
    collect_error "description" (validateDescription (form_description data))
    ++ collect_error "amount" (validateAmount (form_amount data))
    ++ collect_error "date" (validateDate (form_date data))
    ++ collect_error "category" (validateCategory (form_category data)) in
  ((length errors =? 0)%nat, errors).

Definition record_message (i : nat) (what : string) : string :=
  "Record " ++ string_of_nat (i + 1) ++ ": " ++ what.

(** One turn of the loop of [validateImportData]: [None] when the
    record passes every check. *)
Definition check_record (i : nat) (record : value) : completion (option result) :=
  let! id := get record "id" in
  if negb (truthy id) || negb (is_string id) then
    Normal (Some (mkResult false (record_message i "Invalid or missing id")))
  else
  let! description := get record "description" in
  if negb (truthy description) || negb (is_string description) then
    Normal (Some (mkResult false (record_message i "Invalid or missing description")))
  else
  let! amount := get record "amount" in
  if match amount with
     | VNumber n => Qle_bool n 0%Q
     | _ => true
     end then
    Normal (Some (mkResult false (record_message i "Invalid or missing amount")))
  else
  let! category := get record "category" in
  if negb (truthy category) || negb (is_string category) then
    Normal (Some (mkResult false (record_message i "Invalid or missing category")))
  else
  let! date := get record "date" in
  let! shaped := if truthy date then test_value patterns.date date else Normal false in
  if negb shaped then
    Normal (Some (mkResult false (record_message i "Invalid or missing date")))
  else
  let! createdAt := get record "createdAt" in
  let! missing := if negb (truthy createdAt) then Normal true
                  else let! updatedAt := get record "updatedAt" in
                       Normal (negb (truthy updatedAt)) in
  if missing then
    Normal (Some (mkResult false (record_message i "Missing timestamps")))
  else
    Normal None.

(** The loop from index [i] over the remaining records. *)
Fixpoint check_records (i : nat) (records : list value) : completion result :=
  match records with
  | [] => Normal (mkResult true "Data is valid")
  | record :: rest =>
      let! failure := check_record i record in
      match failure with
      | Some r => Normal r
      | None => check_records (S i) rest
      end
  end.

Definition validateImportData (data : value) : completion result :=
  match data with
  | VArray records => check_records 0 records
  | _ => Normal (mkResult false "Import data must be an array")
  end.

End Validators.

(* ================================================================= *)
(** ** The transaction record *)

Record Transaction : Type := mkTransaction {
  id : string;
  description : string;
  amount : number;
  category : string;
  date : string;
  createdAt : string;
  updatedAt : string
}.

(* ================================================================= *)
(** ** search.js *)

(** What the serialisation of a text node writes for one character. *)
Definition escapeChar (c : ascii) : string :=
  if (code c =? 38)%nat then "&amp;"
  else if (code c =? 60)%nat then "&lt;"
  else if (code c =? 62)%nat then "&gt;"
  else if (code c =? 160)%nat then "&nbsp;"
  else String c "".

(** [escapeHtml]: the text becomes the content of a fresh element, whose
    serialisation is returned. *)
Definition escapeHtml (text : string) : string :=
  if String.eqb text "" then ""
  else String.concat "" (map escapeChar (chars text)).

(** The replacer of [highlight]. *)
Definition mark (matched_text : string) : string :=
  "<mark>" ++ escapeHtml matched_text ++ "</mark>".

(** [highlight(text, regex)].  The regular expression object is shared
    with the caller, so the function returns it with the [lastIndex] it
    is left with.  Nothing in the guarded block throws in this model. *)
Definition highlight (text : string) (regex : option RegExp) : string * option RegExp :=
  match regex with
  | None => (escapeHtml text, None)
  | Some R =>
      if String.eqb text "" then (escapeHtml text, Some R)
      else
        let escapedText := escapeHtml text in
        let (found, R1) := test R text in
        if negb found then (escapedText, Some R1)
        else
          let R2 := set_lastIndex R1 0 in
          let (marked, R3) := replace text R2 mark in
          (marked, Some R3)
  end.

Definition getSearchError (pattern : string) : string :=
  if String.eqb pattern "" then ""
  else "Invalid regex pattern: " ++ String (ascii_of_nat 34) pattern
       ++ String (ascii_of_nat 34) ". Please check your syntax.".

Section Search.

Context {host : Host}.

(** The default of the parameter [flags = 'i']. *)
Definition flags_or_default (flags : option string) : string :=
  match flags with
  | Some f => f
  | None => "i"
  end.

(** [compileRegex(input, flags)]: an empty input is no pattern, and so
    is one the constructor refuses. *)
Definition compileRegex (input : string) (flags : option string)
  : completion (option RegExp) :=
  try_catch
    (if negb (String.eqb input "")
     then let! R := RegExp_new input (flags_or_default flags) in Normal (Some R)
     else Normal None)
    (fun _ => Normal None).

(** The text a search is run against. *)
Definition searchableText (t : Transaction) : string :=
  description t ++ " " ++ category t ++ " " ++ Number_toString (amount t).

(** [transactions.filter(t => regex.test(searchableText))], the pattern
    object threaded through the calls of [test]. *)
Fixpoint filter_test (R : RegExp) (transactions : list Transaction)
  : list Transaction * RegExp :=
  match transactions with
  | [] => ([], R)
  | t :: rest =>
      let (keep, R1) := test R (searchableText t) in
      let (kept, R2) := filter_test R1 rest in
      (if keep then t :: kept else kept, R2)
  end.

Definition searchTransactions (transactions : list Transaction) (regex : option RegExp)
  : list Transaction * option RegExp :=
  match regex with
  | None => (transactions, None)
  | Some R =>
      let (kept, R') := filter_test R transactions in
      (kept, Some R')
  end.

(** [validatePattern]: the pattern is compiled without flags and the
    object dropped.  The diagnostic text of the host is not modelled. *)
Definition validatePattern (pattern : string) : bool :=
  if String.eqb pattern "" then true
  else
    match RegExp_new pattern "" with
    | Normal _ => true
    | Throw _ => false
    end.

End Search.

(* ================================================================= *)
(** ** state.js: the sorted view *)

Inductive sort_field : Type :=
| f_id | f_description | f_amount | f_category | f_date | f_createdAt | f_updatedAt.

Record State : Type := mkState {
  transactions : list Transaction;
  currentSort : sort_field * bool;
  currentSearch : option RegExp;
  editingId : option string;
  budgetCap : option number
}.

Definition Q_ltb (a b : number) : bool := negb (Qle_bool b a).

(** [a[field]] for a field that holds text. *)
Definition text_of (field : sort_field) (a : Transaction) : string :=
  match field with
  | f_id => id a
  | f_description => description a
  | f_category => category a
  | f_date => date a
  | f_createdAt => createdAt a
  | f_updatedAt => updatedAt a
  | f_amount => ""
  end.

(** [Array.prototype.sort(comparefn)]: the sort is stable.  An element
    goes before the first element after it that it does not follow. *)
Fixpoint insert {A : Type} (comparefn : A -> A -> Z) (x : A) (l : list A) : list A :=
  match l with
  | [] => [x]
  | y :: l' => if (comparefn x y <=? 0)%Z then x :: l else y :: insert comparefn x l'
  end.

Fixpoint sort {A : Type} (comparefn : A -> A -> Z) (l : list A) : list A :=
  match l with
  | [] => []
  | x :: l' => insert comparefn x (sort comparefn l')
  end.

Section SortedView.

Context {host : Host}.

(** [aVal < bVal] after the conversion that the field calls for: the
    amount as a number ([parseFloat] of a number gives it back), the
    date as a time value, any other field as lower-case text. *)
Definition field_ltb (field : sort_field) (a b : Transaction) : bool :=
  match field with
  | f_amount => Q_ltb (amount a) (amount b)
  | f_date => nan_ltb (Date_parse (date a)) (Date_parse (date b))
  | _ => str_ltb (chars (toLowerCase (text_of field a)))
                 (chars (toLowerCase (text_of field b)))
  end.

(** The comparison function handed to [sort]. *)
Definition compareFn (field : sort_field) (ascending : bool) (a b : Transaction) : Z :=
  if field_ltb field a b then (if ascending then -1 else 1)%Z
  else if field_ltb field b a then (if ascending then 1 else -1)%Z
  else 0%Z.

Definition getSortedTransactions (state : State) : list Transaction :=
  let sorted := transactions state in
  let (field, ascending) := currentSort state in
  sort (compareFn field ascending) sorted.

(** [setSort(field, ascending)] *)
Definition setSort (field : sort_field) (ascending : bool) (state : State) : State :=
  mkState (transactions state) (field, ascending) (currentSearch state)
          (editingId state) (budgetCap state).

End SortedView.

(* ================================================================= *)
(** ** state.js: statistics *)

(** What a property of [categoryTotals] can hold: a number, or a text
    that is not a number.  The latter is what [+] makes of an amount and
    a function or an object, which is what reading a name such as
    [constructor] off an object without that property gives. *)
Inductive tally : Type :=
| Num (n : number)
| Text.

(** An object: its own properties in the order of their creation. *)
Definition object : Type := list (string * tally).

(** The names every object inherits. *)
Definition Object_prototype_names : list string :=
  ["constructor"; "hasOwnProperty"; "isPrototypeOf"; "propertyIsEnumerable";
   "toLocaleString"; "toString"; "valueOf"; "__proto__";
   "__defineGetter__"; "__defineSetter__"; "__lookupGetter__"; "__lookupSetter__"].

Definition inherited (k : string) : bool :=
  existsb (String.eqb k) Object_prototype_names.

Fixpoint own (k : string) (o : object) : option tally :=
  match o with
  | [] => None
  | (k', v) :: o' => if String.eqb k k' then Some v else own k o'
  end.

(** [(o[k] || 0) + a] *)
Definition plus_amount (o : object) (k : string) (a : number) : tally :=
  match own k o with
  | Some (Num v) => Num (Number_add (if Qeq_bool v 0%Q then 0%Q else v) a)
  | Some Text => Text
  | None => if inherited k then Text else Num (Number_add 0%Q a)
  end.

Fixpoint overwrite (k : string) (v : tally) (o : object) : object :=
  match o with
  | [] => []
  | (k', v') :: o' =>
      if String.eqb k k' then (k', v) :: o' else (k', v') :: overwrite k v o'
  end.

(** [o[k] = v] for a number or a text [v]: a property of its own keeps
    its place, a new one goes last.  The name [__proto__] is an
    inherited accessor whose setter drops such a value. *)
Definition put (o : object) (k : string) (v : tally) : object :=
  if String.eqb k "__proto__" then o
  else match own k o with
       | Some _ => overwrite k v o
       | None => o ++ [(k, v)]
       end.

(** The array index a property name denotes, if it is one: a decimal
    numeral without leading zeros below [2^32 - 1]. *)
Definition array_index (k : string) : option Z :=
  match chars k with
  | [] => None
  | c :: l =>
      if forallb isDigit (c :: l)
         && (negb (code c =? 48)%nat || (length l =? 0)%nat)
         && (length l <? 10)%nat
      then
        let n := fst (fst (read_digits 0 0 (c :: l))) in
        if (n <? 2 ^ 32 - 1)%Z then Some n else None
      else None
  end.

Definition is_index (e : string * tally) : bool :=
  match array_index (fst e) with
  | Some _ => true
  | None => false
  end.

Definition index_value (e : string * tally) : Z :=
  match array_index (fst e) with
  | Some n => n
  | None => 0%Z
  end.

(** [Object.entries(o)]: the properties named by an array index come
    first, by ascending index; the others follow in order of creation. *)
Definition Object_entries (o : object) : list (string * tally) :=
  sort (fun a b => (index_value a - index_value b)%Z) (filter is_index o)
  ++ filter (fun e => negb (is_index e)) o.

Record Stats : Type := mkStats {
  total : nat;
  totalSpent : number;
  topCategory : string;
  last7Days : number;
  categoryBreakdown : list (string * tally * option number)
}.

(** The sum [reduce((sum, t) => sum + t.amount, 0)] *)
Definition sum_amounts (ts : list Transaction) : number :=
  fold_left (fun sum t => Number_add sum (amount t)) ts 0%Q.

(** The object built by the first [forEach]. *)
Definition categoryTotals (ts : list Transaction) : object :=
  fold_left (fun o t => put o (category t) (plus_amount o (category t) (amount t)))
            ts [].

(** [amount > topAmount]: a text is not a number and compares false. *)
Definition exceeds (amount : tally) (topAmount : number) : bool :=
  match amount with
  | Num a => Q_ltb topAmount a
  | Text => false
  end.

(** One turn of the second [forEach]: the pair of [topCategory] and
    [topAmount] after the entry [e]. *)
Definition top_step (top : string * number) (e : string * tally) : string * number :=
  match snd e with
  | Num a => if exceeds (snd e) (snd top) then (fst e, a) else top
  | Text => top
  end.

(** The second [forEach], from [topCategory = '-'] and [topAmount = 0]. *)
Definition top_entry (es : list (string * tally)) : string * number :=
  fold_left top_step es ("-", 0%Q).

(** [b.amount - a.amount] as a sign; the difference with a text is not a
    number, which [sort] takes for zero. *)
Definition by_amount_desc (a b : string * tally * option number) : Z :=
  match snd (fst a), snd (fst b) with
  | Num x, Num y => if Q_ltb x y then 1%Z else if Q_ltb y x then (-1)%Z else 0%Z
  | _, _ => 0%Z
  end.

Section Statistics.

Context {host : Host}.

Definition calculateStats (state : State) : Stats :=
  let ts := transactions state in
  let total := length ts in
  let totalSpent := sum_amounts ts in
  let totals := categoryTotals ts in
  let topCategory := fst (top_entry (Object_entries totals)) in
  let sevenDaysAgo := setDateBack 7 Date_now in
  let last7Days :=
    sum_amounts
      (filter (fun t => nan_leb (Some sevenDaysAgo) (Date_parse (date t))) ts) in
  let categoryBreakdown :=
    sort by_amount_desc
      (map (fun e : string * tally =>
              (fst e, snd e,
               if Q_ltb 0%Q totalSpent
               then match snd e with
                    | Num a => Some (Number_mul (Number_div a totalSpent) 100%Q)
                    | Text => None
                    end
               else Some 0%Q))
           (Object_entries totals)) in
  mkStats total totalSpent topCategory last7Days categoryBreakdown.

End Statistics.

(* ================================================================= *)
(** ** The behaviour the specification asks of [highlight]

    Escape every matched and every unmatched segment of the text, and
    wrap the matched ones.  This follows the words of the specification,
    to be compared with [highlight] above. *)

Fixpoint splice_escaped (input : list ascii) (next : nat) (rs : list match_result)
  : string :=
  match rs with
  | [] => escapeHtml (str (skipn next input))
  | r :: rs' =>
      if (next <=? index r)%nat
      then escapeHtml (str (slice input next (index r))) ++ mark (matched r)
           ++ splice_escaped input (stop r) rs'
      else splice_escaped input next rs'
  end.

Definition highlight_as_specified (text : string) (regex : option RegExp) : string :=
  match regex with
  | None => escapeHtml text
  | Some R =>
      let rs := if global R
                then fst (collect (String.length text + 2) (set_lastIndex R 0) text)
                else match fst (exec R text) with
                     | Some r => [r]
                     | None => []
                     end in
      splice_escaped (chars text) 0 rs
  end.

(** Does the text contain the character? *)
Definition contains_char (c : ascii) (s : string) : bool :=
  existsb (fun d => (code d =? code c)%nat) (chars s).


(* ================================================================= *)
(** ** The top category as the specification words it

    The sum of a category, the categories in the order in which the
    accumulation over the collection first meets them, and the first of
    them whose sum no other exceeds.  These follow the words of the
    specification, to be compared with [calculateStats]. *)

Definition category_sum (ts : list Transaction) (c : string) : number :=
  sum_amounts (filter (fun t => String.eqb (category t) c) ts).

Definition encountered (ts : list Transaction) : list string :=
  fold_left (fun seen t =>
               if existsb (String.eqb (category t)) seen then seen
               else seen ++ [category t])
            ts [].

Definition highest (ts : list Transaction) (c : string) : bool :=
  forallb (fun c' => Qle_bool (category_sum ts c') (category_sum ts c)) (encountered ts).

Definition first_encountered_top (ts : list Transaction) : option string :=
  find (highest ts) (encountered ts).






(* ================================================================= *)
(** ** The checks of the bulk import as the specification lists them

    A structured record with a non-empty string [id], a non-empty string
    [description], a numeric [amount] above zero, a non-empty string
    [category], a [date] of the date shape and both time stamps. *)

Definition nonempty_string (v : value) : bool :=
  match v with
  | VString s => negb (String.eqb s "")
  | _ => false
  end.

Definition positive_number (v : value) : bool :=
  match v with
  | VNumber n => Q_ltb 0%Q n
  | _ => false
  end.

(** The field of a record, [undefined] when it is not there. *)
Definition field_of (v : value) (name : string) : value :=
  match v with
  | VObject props =>
      match own_property name props with
      | Some x => x
      | None => VUndefined
      end
  | _ => VUndefined
  end.

Section ImportChecks.

Context {host : Host}.

Definition date_shaped (v : value) : bool :=
  truthy v && match test_value patterns.date v with
              | Normal b => b
              | Throw _ => false
              end.

Definition record_ok (v : value) : bool :=
  match v with
  | VObject _ =>
      nonempty_string (field_of v "id")
      && nonempty_string (field_of v "description")
      && positive_number (field_of v "amount")
      && nonempty_string (field_of v "category")
      && date_shaped (field_of v "date")
      && truthy (field_of v "createdAt")
      && truthy (field_of v "updatedAt")
  | _ => false
  end.

(** The inputs on which the validator returns: no element is [null] or
    [undefined], and no [date] is an object that cannot be converted to
    a string. *)
Definition readable (v : value) : bool :=
  match v with
  | VNull | VUndefined => false
  | _ => match ToString (field_of v "date") with
         | Normal _ => true
         | Throw _ => false
         end
  end.

End ImportChecks.

(* ================================================================= *)
(** ** Orders of the sorted view

    The notions in which the two directions of the sorted view are
    compared. *)

Section Preorder.

Context {A : Type}.
Variable leb : A -> A -> bool.

(** The comparison function of a preorder, and of its converse. *)
Definition up (a b : A) : Z := if leb a b then 0%Z else 1%Z.
Definition down (a b : A) : Z := if leb b a then 0%Z else 1%Z.

(** [a] may stand before [b]; [a] may stand after [b]. *)
Definition precedes (a b : A) : Prop := leb a b = true.
Definition follows (a b : A) : Prop := leb b a = true.

(** Neither is before the other. *)
Definition level (a b : A) : Prop := leb a b = true /\ leb b a = true.

(** How many elements of the list are at or after [x]. *)
Definition rank (x : A) (l : list A) : nat := length (filter (fun y => leb x y) l).

End Preorder.

Section FieldOrders.

Context {host : Host}.

(** The value of the field can be compared: a date has to be one. *)
Definition comparable (field : sort_field) (t : Transaction) : bool :=
  match field with
  | f_date => match Date_parse (date t) with Some _ => true | None => false end
  | _ => true
  end.

(** Neither record goes before the other in the field. *)
Definition tied (field : sort_field) (a b : Transaction) : Prop :=
  field_ltb field a b = false /\ field_ltb field b a = false.

(** The preorder of the field; what is not a date counts as earliest. *)
Definition key_leb (field : sort_field) (a b : Transaction) : bool :=
  match field with
  | f_amount => Qle_bool (amount a) (amount b)
  | f_date =>
      match Date_parse (date a), Date_parse (date b) with
      | Some x, Some y => (x <=? y)%Z
      | None, _ => true
      | Some _, None => false
      end
  | _ => negb (str_ltb (chars (toLowerCase (text_of field b)))
                       (chars (toLowerCase (text_of field a))))
  end.

End FieldOrders.

(* ================================================================= *)
(** ** storage.js and the mutations of state.js

    The store of the application, the key-value storage of the browser
    and what the listeners are told make up a world.  A mutation runs in
    a world and leaves a world, also when it throws: nothing it did
    before the throw is taken back. *)

(** What a call gives back: its result, or the error it threw. *)
Inductive attempt (A : Type) : Type :=
| Done (a : A)
| Raised (message : string).

Arguments Done {A} a.
Arguments Raised {A} message.

(** The part of the platform the store writes to: the text that
    [JSON.stringify] gives for a list of records, and whether
    [localStorage.setItem] takes a value under a key, given what the
    storage holds (it throws when it does not, as on a full quota). *)
Class Persistence : Type := {
  JSON_stringify : list Transaction -> string;
  storage_admits : list (string * string) -> string -> string -> bool
}.

Module STORAGE_KEYS.
Definition TRANSACTIONS : string := "financeApp:transactions".
Definition SETTINGS : string := "financeApp:settings".
Definition BUDGET_CAP : string := "financeApp:budgetCap".
End STORAGE_KEYS.

Fixpoint getItem (key : string) (items : list (string * string)) : option string :=
  match items with
  | [] => None
  | (k, v) :: items' => if String.eqb k key then Some v else getItem key items'
  end.

Fixpoint setItem (key value : string) (items : list (string * string))
  : list (string * string) :=
  match items with
  | [] => [(key, value)]
  | (k, v) :: items' =>
      if String.eqb k key then (k, value) :: items'
      else (k, v) :: setItem key value items'
  end.

Record World : Type := mkWorld {
  state : State;
  localStorage : list (string * string);
  heard : list State
}.

(** The store with another list of records. *)
Definition with_transactions (ts : list Transaction) (st : State) : State :=
  mkState ts (currentSort st) (currentSearch st) (editingId st) (budgetCap st).

(** [generateId]: the prefix, the clock in milliseconds and nine digits
    in base 36 that the host draws. *)
Definition generateId (timestamp : Z) (random : string) : string :=
  "txn_" ++ NilZero.string_of_int (Z.to_int timestamp) ++ "_" ++ random.

(** [array.findIndex(t => t.id === id)] *)
Fixpoint findIndex (wanted : string) (ts : list Transaction) : option nat :=
  match ts with
  | [] => None
  | t :: ts' =>
      if String.eqb (id t) wanted then Some 0
      else option_map S (findIndex wanted ts')
  end.

(** The list with the element at [index] replaced, as an assignment to
    the fields of that element leaves it. *)
Fixpoint replace_at {A : Type} (index : nat) (x : A) (l : list A) : list A :=
  match l, index with
  | [], _ => []
  | _ :: l', O => x :: l'
  | y :: l', S n => y :: replace_at n x l'
  end.

(** [array.splice(index, 1)] *)
Fixpoint splice_out {A : Type} (index : nat) (l : list A) : list A :=
  match l, index with
  | [], _ => []
  | _ :: l', O => l'
  | y :: l', S n => y :: splice_out n l'
  end.

(** The record as [JSON.parse] reads it back from the text that
    [JSON.stringify] writes for it. *)
Definition json_of_transaction (t : Transaction) : value :=
  VObject [("id", VString (id t)); ("description", VString (description t));
           ("amount", VNumber (amount t)); ("category", VString (category t));
           ("date", VString (date t)); ("createdAt", VString (createdAt t));
           ("updatedAt", VString (updatedAt t))].

Section Store.

Context {persistence : Persistence}.

(** [storage.saveTransactions(transactions)]: the write may fail, and
    then the error thrown is the module's own. *)
Definition saveTransactions (ts : list Transaction) (w : World) : attempt unit * World :=
  let text := JSON_stringify ts in
  if storage_admits (localStorage w) STORAGE_KEYS.TRANSACTIONS text
  then (Done tt,
        mkWorld (state w) (setItem STORAGE_KEYS.TRANSACTIONS text (localStorage w))
                (heard w))
  else (Raised "Failed to save transactions", w).

(** [notifyListeners()]: the listeners are called with the state. *)
Definition notifyListeners (w : World) : attempt unit * World :=
  (Done tt, mkWorld (state w) (localStorage w) (heard w ++ [state w])).

(** The two lines that end every mutation of the records: save the
    records of the state, then tell the listeners. *)
Definition save_and_notify {A : Type} (result : A) (w : World) : attempt A * World :=
  match saveTransactions (transactions (state w)) w with
  | (Raised message, w1) => (Raised message, w1)
  | (Done _, w1) =>
      let (_, w2) := notifyListeners w1 in
      (Done result, w2)
  end.

(** [addTransaction(data)].  [timestamp] and [random] are what
    [generateId] reads from the host, [now] is the text of
    [new Date().toISOString()].  The record type of this model holds an
    amount that is a number: the result is [None] when the amount of the
    form is not one (the form is validated before the call). *)
Definition addTransaction (timestamp : Z) (random now : string) (data : form) (w : World)
  : option (attempt Transaction * World) :=
  match parseFloat (form_amount data) with
  | None => None
  | Some parsed =>
      let transaction :=
        mkTransaction (generateId timestamp random) (trim (form_description data))
                      parsed (form_category data) (form_date data) now now in
      let pushed := with_transactions (transactions (state w) ++ [transaction]) (state w) in
      Some (save_and_notify transaction (mkWorld pushed (localStorage w) (heard w)))
  end.

(** [updateTransaction(id, data)]; [None] as for [addTransaction]. *)
Definition updateTransaction (wanted : string) (data : form) (now : string) (w : World)
  : option (attempt (option Transaction) * World) :=
  match findIndex wanted (transactions (state w)) with
  | None => Some (Done None, w)
  | Some index =>
      match nth_error (transactions (state w)) index, parseFloat (form_amount data) with
      | Some old, Some parsed =>
          let transaction :=
            mkTransaction (id old) (trim (form_description data)) parsed
                          (form_category data) (form_date data) (createdAt old) now in
          let updated :=
            with_transactions (replace_at index transaction (transactions (state w)))
                              (state w) in
          Some (save_and_notify (Some transaction)
                  (mkWorld updated (localStorage w) (heard w)))
      | _, _ => None
      end
  end.

(** [deleteTransaction(id)] *)
Definition deleteTransaction (wanted : string) (w : World) : attempt bool * World :=
  match findIndex wanted (transactions (state w)) with
  | None => (Done false, w)
  | Some index =>
      let removed :=
        with_transactions (splice_out index (transactions (state w))) (state w) in
      save_and_notify true (mkWorld removed (localStorage w) (heard w))
  end.

(** [getTransaction(id)]: [None] is [null]. *)
Definition getTransaction (wanted : string) (w : World) : option Transaction :=
  find (fun t => String.eqb (id t) wanted) (transactions (state w)).

(** [getTransactions()]: a copy of the list. *)
Definition getTransactions (w : World) : list Transaction := transactions (state w).

(** [importTransactions(transactions)] *)
Definition importTransactions (ts : list Transaction) (w : World) : attempt unit * World :=
  save_and_notify tt (mkWorld (with_transactions ts (state w)) (localStorage w) (heard w)).

(** [clearTransactions()] *)
Definition clearTransactions (w : World) : attempt unit * World :=
  save_and_notify tt (mkWorld (with_transactions [] (state w)) (localStorage w) (heard w)).

(** The mutations of the records, and a run of one with its result
    dropped. *)
Inductive mutation : Type :=
| Add (timestamp : Z) (random now : string) (data : form)
| Update (wanted : string) (data : form) (now : string)
| Delete (wanted : string)
| Import (ts : list Transaction)
| Clear.

Definition forget {A : Type} (r : attempt A * World) : attempt unit * World :=
  match r with
  | (Done _, w) => (Done tt, w)
  | (Raised message, w) => (Raised message, w)
  end.

Definition run (mu : mutation) (w : World) : option (attempt unit * World) :=
  match mu with
  | Add timestamp random now data =>
      option_map forget (addTransaction timestamp random now data w)
  | Update wanted data now => option_map forget (updateTransaction wanted data now w)
  | Delete wanted => Some (forget (deleteTransaction wanted w))
  | Import ts => Some (forget (importTransactions ts w))
  | Clear => Some (forget (clearTransactions w))
  end.

(** The records in the storage are those of the store. *)
Definition in_sync (w : World) : Prop :=
  getItem STORAGE_KEYS.TRANSACTIONS (localStorage w)
  = Some (JSON_stringify (transactions (state w))).

End Store.

(** A storage for the scenarios: it takes what fits in [quota]
    characters, and the text of a list of records is reduced to their
    ids. *)
Definition small_storage (quota : nat) : Persistence := {|
  JSON_stringify := fun ts => String.concat "," (map id ts);
  storage_admits := fun _ _ value => (String.length value <=? quota)%nat
|}.

(** A form the validators accept on the morning of 2025-06-15, and an
    empty world. *)
Definition lunch_form : form :=
  @mkForm "Lunch at cafeteria" "12.50" "Food" "2025-06-14".

Definition empty_world : World :=
  mkWorld (mkState [] (f_date, false) None None None) [] [].

(* ================================================================= *)
(** ** Scenarios

    The patterns, clocks and stores at which the properties below are
    evaluated. *)

(** The pattern [/script/i]. *)
Definition script_i : RegExp :=
  literal (Cat (Lit "s") (Cat (Lit "c") (Cat (Lit "r") (Cat (Lit "i") (Cat (Lit "p") (Lit "t"))))))
          true.

(** The clock reads 2025-06-15 10:00 in a zone two hours east of UTC,
    that is 08:00 UTC. *)
Definition morning_east (rolls : bool) : Host :=
  model_host 1749974400000 7200000 rolls.

(** The three records on 2025-06-15. *)
Definition june_15 : Transaction :=
  mkTransaction "txn_1" "Lunch at cafeteria" 10 "Food" "2025-06-15" "" "".
Definition june_12 : Transaction :=
  mkTransaction "txn_2" "Bus pass" 20 "Transport" "2025-06-12" "" "".
Definition june_5 : Transaction :=
  mkTransaction "txn_3" "Course reader" 30 "Books" "2025-06-05" "" "".

Definition store (ts : list Transaction) : State :=
  mkState ts (f_date, false) None None None.



(** Amounts in tenths: [Books] at 0.3, [Food] at 0.1 and 0.2. *)
Definition tenths : list Transaction :=
  [mkTransaction "txn_1" "Algebra textbook" (3 # 10) "Books" "2025-06-15" "" "";
   mkTransaction "txn_2" "Tea" (1 # 10) "Food" "2025-06-12" "" "";
   mkTransaction "txn_3" "Biscuit" (2 # 10) "Food" "2025-06-11" "" ""].

(** A store with a date that is none between two days of June. *)
Definition june_2 : Transaction :=
  mkTransaction "txn_1" "Lunch at cafeteria" 10 "Food" "2025-06-02" "" "".
Definition no_date : Transaction :=
  mkTransaction "txn_2" "Bus pass" 20 "Transport" "unreadable" "" "".
Definition june_1 : Transaction :=
  mkTransaction "txn_3" "Course reader" 30 "Books" "2025-06-01" "" "".

Definition unreadable_date : list Transaction := [june_2; no_date; june_1].

(** The tie of the specification: Food and Books at 50 each. *)
Definition food_books_tie : list Transaction :=
  [mkTransaction "txn_1" "Lunch at cafeteria" 20 "Food" "2025-06-15" "" "";
   mkTransaction "txn_2" "Algebra textbook" 50 "Books" "2025-06-12" "" "";
   mkTransaction "txn_3" "Dinner" 30 "Food" "2025-06-11" "" ""].

(* ================================================================= *)
(** ** Notions of the further properties *)

(** The loop of a quantifier, stated for any matcher [body] of the
    repeated pattern: the loop inside [m] is this one at the matcher of
    the pattern ([m_Rep] below). *)
Definition repeat_loop (body : mstate -> (mstate -> option mstate) -> option mstate)
           (gs : list nat) (greedy : bool) (k : mstate -> option mstate)
  : nat -> nat -> option nat -> mstate -> option mstate :=
  fix repeat (fuel min : nat) (max : option nat) (x : mstate) {struct fuel}
    : option mstate :=
    match fuel with
    | O => None
    | S fuel' =>
        match max with
        | Some O => k x
        | _ =>
            let d := fun y : mstate =>
              if (min =? 0)%nat && (endIndex y =? endIndex x)%nat then None
              else repeat fuel' (Nat.pred min) (option_map Nat.pred max) y in
            let xr := MState (endIndex x) (clear_caps gs (captures x)) in
            if negb (min =? 0)%nat then body xr d
            else if greedy then orelse (body xr d) (fun _ => k x)
            else orelse (k x) (fun _ => body xr d)
        end
    end.

(** The verdict of the validator of a field of the form. *)
Definition field_valid {host : Host} (data : form) (field : string) : bool :=
  if String.eqb field "description" then valid (validateDescription (form_description data))
  else if String.eqb field "amount" then valid (validateAmount (form_amount data))
  else if String.eqb field "date" then valid (validateDate (form_date data))
  else valid (validateCategory (form_category data)).

(** One list is the other with some elements left out. *)
Inductive subsequence {A : Type} : list A -> list A -> Prop :=
| sub_nil : subsequence [] []
| sub_keep (x : A) (l l' : list A) : subsequence l l' -> subsequence (x :: l) (x :: l')
| sub_drop (x : A) (l l' : list A) : subsequence l l' -> subsequence l (x :: l').

(** At one level, as a test. *)
Definition levelb {A : Type} (leb : A -> A -> bool) (x y : A) : bool :=
  leb x y && leb y x.

(** Neither record goes before the other in the field, as a test. *)
Definition tiedb {host : Host} (field : sort_field) (a b : Transaction) : bool :=
  negb (field_ltb field a b) && negb (field_ltb field b a).

(** The order the view is to have: in the ascending view no record
    goes before one that stands earlier, in the descending view none
    goes before one that stands later. *)
Definition in_order {host : Host} (field : sort_field) (ascending : bool) (a b : Transaction) : Prop :=
  if ascending then field_ltb field b a = false else field_ltb field a b = false.

(** A storage that takes every value, with the same texts. *)
Definition unlimited (p : Persistence) : Persistence := {|
  JSON_stringify := @JSON_stringify p;
  storage_admits := fun _ _ _ => true
|}.

(** The mutations that bring ids of their own, and what keeps these
    apart from the ids of the store. *)
Definition admissible {persistence : Persistence} (mu : mutation) (w : World) : Prop :=
  match mu with
  | Add timestamp random _ _ => getTransaction (generateId timestamp random) w = None
  | Import ts => NoDup (map id ts)
  | _ => True
  end.

(** The mutation finds nothing to change: an update or a removal under
    an id that no record has. *)
Definition finds_nothing (mu : mutation) (w : World) : bool :=
  match mu with
  | Update wanted _ _ | Delete wanted =>
      match getTransaction wanted w with
      | Some _ => false
      | None => true
      end
  | _ => false
  end.

(** The amount of the form of the mutation is a number. *)
Definition amount_read (mu : mutation) : Prop :=
  match mu with
  | Add _ _ _ data | Update _ data _ => parseFloat (form_amount data) <> None
  | _ => True
  end.

(** The world a run leaves. *)
Definition world_after (r : option (attempt unit * World)) : World :=
  match r with
  | Some (_, w') => w'
  | None => empty_world
  end.



(* ================================================================= *)
(** ** Scenarios of the further properties *)

(** The scenario of the store: the lunch of the form added at the clock
    of the morning, a store of three records, and the worlds that the
    mutations of the scenario leave. *)
Definition lunch : mutation :=
  Add 1749974400000 "k3j9x2m1q" "2025-06-15T08:00:00.000Z" lunch_form.

Definition three_records : World :=
  mkWorld (store [june_15; june_12; june_5]) [] [].

Definition lunch_record : Transaction :=
  mkTransaction "txn_1749974400000_k3j9x2m1q" "Lunch at cafeteria" (25 # 2) "Food"
                "2025-06-14" "2025-06-15T08:00:00.000Z" "2025-06-15T08:00:00.000Z".

Definition lunch_world : World :=
  mkWorld (store [lunch_record])
          [(STORAGE_KEYS.TRANSACTIONS, "txn_1749974400000_k3j9x2m1q")]
          [store [lunch_record]].

(** A record as the seed file of the application has them. *)
Definition seed_record : value :=
  VObject [("id", VString "txn_1"); ("description", VString "Lunch at cafeteria");
           ("amount", VNumber (25 # 2)); ("category", VString "Food");
           ("date", VString "2025-09-25");
           ("createdAt", VString "2025-09-25T12:00:00Z");
           ("updatedAt", VString "2025-09-25T12:00:00Z")].

(* ================================================================= *)
(** * Properties *)

(** ** The pattern catalogue *)

(** The patterns of the catalogue are what the compiler reads from the
    text of the literals. *)
Lemma patterns_read :
  read_pattern patterns.description_text = Some (source patterns.description)
  /\ read_pattern patterns.amount_text = Some (source patterns.amount)
  /\ read_pattern patterns.date_text = Some (source patterns.date)
  /\ read_pattern patterns.category_text = Some (source patterns.category)
  /\ read_pattern patterns.duplicateWords_text = Some (source patterns.duplicateWords).
Proof. repeat split; reflexivity. Qed.

(** A pattern without the global flag is left as it is by [test]. *)
Lemma test_not_global (R : RegExp) (S : string) :
  global R = false -> snd (test R S) = R.
Proof.
  intros Hg. unfold test, exec. rewrite Hg.
  destruct (scan _ _ _ _ _) as [[i y]|]; reflexivity.
Qed.

(** ** Search *)

(** [compileRegex] returns, whatever the constructor does. *)
Lemma compileRegex_returns (host : Host) (input : string) (flags : option string) :
  exists regex, compileRegex input flags = Normal regex.
Proof.
  unfold compileRegex.
  destruct (String.eqb input ""); simpl; [eauto|].
  destruct (RegExp_new input (flags_or_default flags)); simpl; eauto.
Qed.

(** C2: when the host refuses a pattern as malformed, [compileRegex]
    does not throw: it returns the no-pattern result, and
    [searchTransactions] with that result returns the list of records it
    was given. *)
Theorem compileRegex_malformed_is_no_pattern :
  forall (host : Host) (input : string) (flags : option string) (e : error)
         (ts : list Transaction),
    RegExp_new input (flags_or_default flags) = Throw e ->
    compileRegex input flags = Normal None
    /\ (let! regex := compileRegex input flags in
        Normal (fst (searchTransactions ts regex))) = Normal ts.
Proof.
  intros host input flags e ts Hthrow.
  assert (Hc : compileRegex input flags = Normal None).
  { unfold compileRegex.
    destruct (String.eqb input ""); simpl; [reflexivity|].
    rewrite Hthrow. reflexivity. }
  split; [exact Hc|]. rewrite Hc. reflexivity.
Qed.

(** The unbalanced group is refused by the model compiler. *)
Lemma compileRegex_malformed_witness :
  @RegExp_new (morning_east true) "(" "gi" = Throw SyntaxError
  /\ @compileRegex (morning_east true) "(" (Some "gi") = Normal None
  /\ (let! regex := @compileRegex (morning_east true) "(" (Some "gi") in
      Normal (fst (@searchTransactions (morning_east true) [june_15; june_12] regex)))
     = Normal [june_15; june_12].
Proof.
  split; [reflexivity|].
  apply (compileRegex_malformed_is_no_pattern (morning_east true) "(" (Some "gi")
           SyntaxError [june_15; june_12]).
  reflexivity.
Defined.

(** C10: the empty pattern string compiles to the no-pattern result,
    whatever the flags and the host, and searching with it returns the
    whole list of records. *)
Theorem compileRegex_empty_is_no_pattern :
  forall (host : Host) (flags : option string) (ts : list Transaction),
    compileRegex "" flags = Normal None
    /\ (let! regex := compileRegex "" flags in
        Normal (fst (searchTransactions ts regex))) = Normal ts.
Proof. intros host flags ts. split; reflexivity. Qed.

(** The text of [escapeHtml] has no angle bracket left. *)
Lemma escapeChar_safe (c : ascii) :
  contains_char "<" (escapeChar c) = false /\ contains_char ">" (escapeChar c) = false.
Proof.
  unfold escapeChar.
  destruct (code c =? 38)%nat eqn:E1; [split; reflexivity|].
  destruct (code c =? 60)%nat eqn:E2; [split; reflexivity|].
  destruct (code c =? 62)%nat eqn:E3; [split; reflexivity|].
  destruct (code c =? 160)%nat eqn:E4; [split; reflexivity|].
  unfold contains_char. simpl.
  change (code "<") with 60. change (code ">") with 62.
  rewrite E2, E3. split; reflexivity.
Qed.

(** Without a pattern the text is returned escaped and unmarked. *)
Lemma highlight_no_pattern (text : string) :
  highlight text None = (escapeHtml text, None).
Proof. reflexivity. Qed.

(** When the pattern does not match, the text is returned escaped and
    unmarked. *)
Lemma highlight_no_match (text : string) (R : RegExp) :
  fst (test R text) = false -> fst (highlight text (Some R)) = escapeHtml text.
Proof.
  intros H. unfold highlight.
  destruct (String.eqb text ""); [reflexivity|].
  destruct (test R text) as [found R1]. simpl in H. subst found. reflexivity.
Qed.

(** C1, at the example of the specification: [highlight] wraps the match
    but copies the text around it as it is, so both angle brackets of
    the source reach the output; escaping every segment gives another
    text, free of them outside the marker. *)
Theorem highlight_copies_unmatched_text_unescaped :
  RegExp_new_model "script" "i" = Normal script_i
  /\ fst (highlight "<script>" (Some script_i)) = "<<mark>script</mark>>"
  /\ highlight_as_specified "<script>" (Some script_i) = "&lt;<mark>script</mark>&gt;"
  /\ escapeHtml "<script>" = "&lt;script&gt;".
Proof. repeat split; reflexivity. Qed.

(** ** Field validators *)

(** The example of the specification for repeated words. *)
Lemma validateDescription_repeated_word :
  validateDescription "the the report"
  = mkResult false "Description contains duplicate words".
Proof. reflexivity. Qed.

(** Leading and trailing white space is refused. *)
Lemma validateDescription_outer_space :
  valid (validateDescription " Lunch") = false
  /\ valid (validateDescription "Lunch ") = false.
Proof. split; reflexivity. Qed.

(** C3, at two inputs: a description with two adjacent spaces inside is
    accepted.  The shape pattern asks for a first and a last character
    that are not white space and for nothing of what lies between. *)
Theorem validateDescription_accepts_internal_double_space :
  validateDescription "a  b" = mkResult true ""
  /\ validateDescription "Lunch  at cafeteria" = mkResult true ""
  /\ fst (test patterns.description "a  b") = true.
Proof. repeat split; reflexivity. Qed.

(** C6: the five amounts of the specification. *)
Theorem validateAmount_examples :
  validateAmount "12.5" = mkResult true ""
  /\ validateAmount "12.50" = mkResult true ""
  /\ validateAmount "12.505"
     = mkResult false "Amount must be a valid number with up to 2 decimal places"
  /\ validateAmount "0" = mkResult false "Amount must be greater than 0"
  /\ validateAmount "1000000" = mkResult false "Amount must be less than 1,000,000".
Proof. repeat split; reflexivity. Qed.

(** The largest amount is accepted. *)
Lemma validateAmount_cap :
  validateAmount "999999.99" = mkResult true "".
Proof. reflexivity. Qed.

(** C4, for the date of today: in a zone east of UTC the local day is
    2025-06-15, the text [2025-06-15] denotes that day, and it is refused
    as a date in the future.  The date is read as midnight UTC, which is
    two hours after the local midnight it is compared with. *)
Theorem validateDate_rejects_today_east_of_UTC :
  forall rolls : bool,
    Day (@LocalTime (morning_east rolls) (@Date_now (morning_east rolls))) = 20254%Z
    /\ @Date_parse (morning_east rolls) "2025-06-15" = Some (MakeDate 20254 0)
    /\ @validateDate (morning_east rolls) "2025-06-15"
       = mkResult false "Date cannot be in the future".
Proof. intros [|]; repeat split; reflexivity. Qed.

(** A day that the month does not have: refused by a host whose parser
    refuses it, accepted once past by a host whose parser lets the day
    run over into the next month. *)
Lemma validateDate_day_overflow :
  fst (test patterns.date "2025-02-30") = true
  /\ @validateDate (morning_east false) "2025-02-30" = mkResult false "Invalid date"
  /\ @validateDate (morning_east true) "2025-02-30" = mkResult true "".
Proof. repeat split; reflexivity. Qed.

Lemma MakeDate_0 (d : Z) : MakeDate d 0 = (d * msPerDay)%Z.
Proof. unfold MakeDate. lia. Qed.

(** A date after the local day of the clock is refused, wherever the
    zone lies, as long as its offset is less than a day. *)
Lemma validateDate_future_rejected (host : Host) (value : string) (d : Z) :
  (forall t b, - msPerDay < LocalTZA t b < msPerDay)%Z ->
  blank value = false ->
  fst (test patterns.date value) = true ->
  Date_parse value = Some (MakeDate d 0) ->
  (Day (LocalTime Date_now) < d)%Z ->
  validateDate value = mkResult false "Date cannot be in the future".
Proof.
  intros Htz Hb Hshape Hparse Hlater.
  unfold validateDate. rewrite Hb, Hshape, Hparse. simpl.
  replace (_ <? _)%Z with true; [reflexivity|].
  symmetry. apply Z.ltb_lt.
  unfold setHours0, UTC. rewrite !MakeDate_0.
  specialize (Htz (Day (LocalTime Date_now) * msPerDay)%Z false).
  unfold msPerDay in *. lia.
Qed.

(** The date of the local day itself is accepted exactly when local
    midnight is not before midnight UTC, that is west of UTC or on it. *)
Lemma validateDate_today (host : Host) (value : string) :
  blank value = false ->
  fst (test patterns.date value) = true ->
  Date_parse value = Some (MakeDate (Day (LocalTime Date_now)) 0) ->
  valid (validateDate value)
  = (LocalTZA (MakeDate (Day (LocalTime Date_now)) 0) false <=? 0)%Z.
Proof.
  intros Hb Hshape Hparse.
  unfold validateDate. rewrite Hb, Hshape, Hparse. simpl.
  unfold setHours0, UTC.
  set (m := MakeDate (Day (LocalTime Date_now)) 0).
  destruct (Z.ltb_spec (m - LocalTZA m false) m);
    destruct (Z.leb_spec (LocalTZA m false) 0); simpl; try reflexivity; lia.
Qed.

(** ** Import validation *)

(** C5, at a list with a [null] element: the validator reads a property
    of the element before any check, which throws; no result is
    returned.  On the lists it can read, the validator does as the
    specification lists ([validateImportData_readable] below). *)
Theorem validateImportData_throws_on_null_element :
  forall (host : Host) (rest : list value),
    validateImportData (VArray (VNull :: rest)) = Throw TypeError.
Proof. intros host rest. reflexivity. Qed.

(** On every other element the loop does what the specification lists:
    the record passes exactly when it meets the seven checks, and a
    failure names its position. *)
Lemma check_string_field (v : value) :
  negb (truthy v) || negb (is_string v) = negb (nonempty_string v).
Proof.
  destruct v; simpl; try reflexivity.
  - apply orb_true_r.
  - apply orb_true_r.
  - apply orb_false_r.
Qed.

Lemma check_record_readable (host : Host) (i : nat) (v : value) :
  readable v = true ->
  exists what,
    check_record i v
    = Normal (if record_ok v then None
              else Some (mkResult false (record_message i what))).
Proof.
  intros Hr.
  assert (Hget : forall name, get v name = Normal (field_of v name)).
  { intros name. destruct v; try reflexivity; try discriminate.
    simpl. destruct (own_property name props); reflexivity. }
  assert (Hdate : exists text, ToString (field_of v "date") = Normal text).
  { unfold readable in Hr.
    destruct v; try discriminate;
      (destruct (ToString _) as [text|]; [exists text; reflexivity | discriminate]). }
  destruct Hdate as [text Htext].
  assert (Hok : record_ok v
                = nonempty_string (field_of v "id")
                  && nonempty_string (field_of v "description")
                  && positive_number (field_of v "amount")
                  && nonempty_string (field_of v "category")
                  && date_shaped (field_of v "date")
                  && truthy (field_of v "createdAt")
                  && truthy (field_of v "updatedAt")).
  { destruct v; reflexivity. }
  rewrite Hok. unfold check_record, date_shaped, test_value.
  rewrite !Hget. cbn [bind]. rewrite Htext. cbn [bind].
  rewrite !check_string_field.
  assert (Hamount : match field_of v "amount" with
                    | VNumber n => Qle_bool n 0
                    | _ => true
                    end = negb (positive_number (field_of v "amount"))).
  { destruct (field_of v "amount"); try reflexivity.
    cbn [positive_number]. unfold Q_ltb. rewrite negb_involutive. reflexivity. }
  rewrite Hamount. clear Hok Hamount Hget Htext Hr.
  destruct (nonempty_string (field_of v "id")); cbn [negb andb bind];
    [|eexists; reflexivity].
  destruct (nonempty_string (field_of v "description")); cbn [negb andb bind];
    [|eexists; reflexivity].
  destruct (positive_number (field_of v "amount")); cbn [negb andb bind];
    [|eexists; reflexivity].
  destruct (nonempty_string (field_of v "category")); cbn [negb andb bind];
    [|eexists; reflexivity].
  destruct (truthy (field_of v "date")); cbn [negb andb bind];
    [|eexists; reflexivity].
  destruct (fst (test patterns.date text)); cbn [negb andb bind];
    [|eexists; reflexivity].
  destruct (truthy (field_of v "createdAt")); cbn [negb andb bind];
    [|eexists; reflexivity].
  exists "Missing timestamps".
  destruct (truthy (field_of v "updatedAt")); reflexivity.
Qed.

(** The validator on a list of such elements: it returns; the result is
    valid exactly when every element meets the checks; otherwise the
    message names the position, counted from one, of the first element
    that does not. *)
Lemma check_records_readable (host : Host) (records : list value) (i : nat) :
  forallb readable records = true ->
  exists r,
    check_records i records = Normal r
    /\ valid r = forallb record_ok records
    /\ (valid r = false ->
        exists n v what,
          nth_error records n = Some v
          /\ record_ok v = false
          /\ forallb record_ok (firstn n records) = true
          /\ message r = record_message (i + n) what).
Proof.
  revert i. induction records as [|v records IH]; intros i Hr; simpl.
  - eexists. split; [reflexivity|]. split; [reflexivity|]. discriminate.
  - simpl in Hr. apply andb_true_iff in Hr. destruct Hr as [Hv Hrest].
    destruct (check_record_readable host i v Hv) as [what Hcheck].
    rewrite Hcheck. simpl bind.
    destruct (record_ok v) eqn:Eok.
    + destruct (IH (S i) Hrest) as [r [Hrun [Hvalid Hfirst]]].
      exists r. split; [exact Hrun|]. split; [exact Hvalid|].
      intros Hinvalid. destruct (Hfirst Hinvalid) as [n [w [what' [Hn [Hw [Hpre Hmsg]]]]]].
      exists (S n), w, what'. simpl. rewrite Eok, Hpre.
      repeat split; try assumption.
      rewrite Hmsg. f_equal. lia.
    + eexists. split; [reflexivity|]. split; [reflexivity|].
      intros _. exists 0%nat, v, what. simpl.
      repeat split; try assumption. f_equal. lia.
Qed.

Lemma validateImportData_readable (host : Host) (records : list value) :
  forallb readable records = true ->
  exists r,
    validateImportData (VArray records) = Normal r
    /\ valid r = forallb record_ok records
    /\ (valid r = false ->
        exists n v what,
          nth_error records n = Some v
          /\ record_ok v = false
          /\ forallb record_ok (firstn n records) = true
          /\ message r = record_message n what).
Proof. intros Hr. exact (check_records_readable host records 0 Hr). Qed.

(** ** The arithmetic of doubles

    Rounding respects equality of rationals, is monotone, leaves a
    double as it is, and so leaves a whole number up to [2 ^ 53] as it
    is. *)

Section Rounding.

Local Open Scope Q_scope.

(** *** The nearest integer *)
Lemma nearest_even_comp (x y : Q) : x == y -> nearest_even x = nearest_even y.
Proof.
  intros H. unfold nearest_even. rewrite (Qfloor_comp _ _ H).
  rewrite (Qcompare_comp (x - inject_Z (Qfloor y)) (y - inject_Z (Qfloor y))
             ltac:(rewrite H; reflexivity) (1#2) (1#2) ltac:(reflexivity)).
  reflexivity.
Qed.

Lemma nearest_even_Z (n : Z) : nearest_even (inject_Z n) = n.
Proof.
  unfold nearest_even. rewrite Qfloor_Z.
  destruct (Qcompare_spec (inject_Z n - inject_Z n) (1 # 2)) as [H|H|H];
    [exfalso; lra | reflexivity | exfalso; lra].
Qed.

Lemma nearest_even_bounds (x : Q) :
  (Qfloor x <= nearest_even x <= Qfloor x + 1)%Z.
Proof.
  unfold nearest_even. destruct (Qcompare _ _); [destruct (Z.even _)| |]; lia.
Qed.

Lemma nearest_even_le (x y : Q) : x <= y -> (nearest_even x <= nearest_even y)%Z.
Proof.
  intros H. pose proof (Qfloor_resp_le _ _ H) as Hf.
  destruct (Z.eq_dec (Qfloor x) (Qfloor y)) as [E|E].
  - unfold nearest_even. rewrite E.
    destruct (Qcompare_spec (x - inject_Z (Qfloor y)) (1 # 2)) as [H1|H1|H1];
      destruct (Qcompare_spec (y - inject_Z (Qfloor y)) (1 # 2)) as [H2|H2|H2];
      try (destruct (Z.even (Qfloor y))); try lia; exfalso; lra.
  - pose proof (nearest_even_bounds x). pose proof (nearest_even_bounds y). lia.
Qed.

Lemma nearest_even_below (x : Q) (n : Z) : x <= inject_Z n -> (nearest_even x <= n)%Z.
Proof. intros H. rewrite <- (nearest_even_Z n). apply nearest_even_le. exact H. Qed.

Lemma nearest_even_above (x : Q) (n : Z) : inject_Z n <= x -> (n <= nearest_even x)%Z.
Proof. intros H. rewrite <- (nearest_even_Z n). apply nearest_even_le. exact H. Qed.

(** *** Powers of two and the binary logarithm *)
Lemma pow2_pos (e : Z) : 0 < 2 ^ e.
Proof. apply Qpower_0_lt. reflexivity. Qed.

Lemma pow2_succ (e : Z) : 2 ^ (e + 1) == 2 * 2 ^ e.
Proof. rewrite Qpower_plus by discriminate. rewrite Qpower_1_r. ring. Qed.

Lemma pow2_Z (n : Z) : (0 <= n)%Z -> inject_Z (2 ^ n) == 2 ^ n.
Proof. intros H. rewrite (Zpower_Qpower 2 n H). reflexivity. Qed.

Lemma pow2_le (n m : Z) : (n <= m)%Z -> 2 ^ n <= 2 ^ m.
Proof. intros H. apply Qpower_le_compat_l; [exact H | discriminate]. Qed.

Lemma pow2_lt (n m : Z) : (n < m)%Z -> 2 ^ n < 2 ^ m.
Proof. intros H. apply Qpower_lt_compat_l; [exact H | reflexivity]. Qed.

Lemma pow2_lt_inv (n m : Z) : 2 ^ n < 2 ^ m -> (n < m)%Z.
Proof. intros H. apply (Qpower_lt_compat_l_inv 2); [exact H | reflexivity]. Qed.

Lemma floor_log2_spec (x : Q) :
  0 < x -> 2 ^ floor_log2 x <= x /\ x < 2 ^ (floor_log2 x + 1).
Proof.
  intros Hx. destruct x as [p q].
  assert (Hp : (0 < p)%Z).
  { unfold Qlt in Hx. simpl in Hx. lia. }
  unfold floor_log2. cbn [Qnum Qden].
  set (a := Z.log2 p). set (b := Z.log2 (Z.pos q)).
  assert (Ha0 : (0 <= a)%Z) by apply Z.log2_nonneg.
  assert (Hb0 : (0 <= b)%Z) by apply Z.log2_nonneg.
  destruct (Z.log2_spec p Hp) as [Ha1 Ha2]. fold a in Ha1, Ha2.
  destruct (Z.log2_spec (Z.pos q) eq_refl) as [Hb1 Hb2]. fold b in Hb1, Hb2.
  assert (HA1 : 2 ^ a <= inject_Z p).
  { rewrite <- pow2_Z by exact Ha0. rewrite <- Zle_Qle. exact Ha1. }
  assert (HA2 : inject_Z p < 2 * 2 ^ a).
  { rewrite <- pow2_succ, <- pow2_Z by lia. rewrite <- Zlt_Qlt. exact Ha2. }
  assert (HB1 : 2 ^ b <= inject_Z (Z.pos q)).
  { rewrite <- pow2_Z by exact Hb0. rewrite <- Zle_Qle. exact Hb1. }
  assert (HB2 : inject_Z (Z.pos q) < 2 * 2 ^ b).
  { rewrite <- pow2_succ, <- pow2_Z by lia. rewrite <- Zlt_Qlt. exact Hb2. }
  assert (HX : (p # q) * inject_Z (Z.pos q) == inject_Z p).
  { rewrite (Qmake_Qdiv p q). field. discriminate. }
  assert (HD : 2 ^ (a - b) * 2 ^ b == 2 ^ a).
  { rewrite <- Qpower_plus by discriminate. replace (a - b + b)%Z with a by lia. reflexivity. }
  pose proof (pow2_pos a) as PA. pose proof (pow2_pos b) as PB.
  pose proof (pow2_pos (a - b)) as PD.
  set (X := p # q) in *. set (P := inject_Z p) in *. set (Qd := inject_Z (Z.pos q)) in *.
  set (A := 2 ^ a) in *. set (B := 2 ^ b) in *. set (D := 2 ^ (a - b)) in *.
  destruct (Qle_bool D X) eqn:E.
  - apply Qle_bool_iff in E. split; [exact E|].
    rewrite pow2_succ. fold D. nra.
  - assert (E' : X < D).
    { apply Qnot_le_lt. intros H. apply Qle_bool_iff in H. congruence. }
    split.
    + assert (H2 : 2 * 2 ^ (a - b - 1) == D).
      { rewrite <- pow2_succ. replace (a - b - 1 + 1)%Z with (a - b)%Z by lia. reflexivity. }
      pose proof (pow2_pos (a - b - 1)) as PD'.
      set (D' := 2 ^ (a - b - 1)) in *. nra.
    + replace (a - b - 1 + 1)%Z with (a - b)%Z by lia. exact E'.
Qed.

Lemma floor_log2_unique (x : Q) (n : Z) :
  0 < x -> 2 ^ n <= x -> x < 2 ^ (n + 1) -> floor_log2 x = n.
Proof.
  intros Hx H1 H2. destruct (floor_log2_spec x Hx) as [S1 S2].
  assert (L1 : (n < floor_log2 x + 1)%Z).
  { apply pow2_lt_inv. apply Qle_lt_trans with x; assumption. }
  assert (L2 : (floor_log2 x < n + 1)%Z).
  { apply pow2_lt_inv. apply Qle_lt_trans with x; assumption. }
  lia.
Qed.

Lemma floor_log2_comp (x y : Q) : 0 < x -> x == y -> floor_log2 x = floor_log2 y.
Proof.
  intros Hx H. assert (Hy : 0 < y) by (rewrite <- H; exact Hx).
  destruct (floor_log2_spec y Hy) as [S1 S2].
  apply floor_log2_unique; [exact Hx | rewrite H; exact S1 | rewrite H; exact S2].
Qed.

Lemma floor_log2_le (x y : Q) : 0 < x -> x <= y -> (floor_log2 x <= floor_log2 y)%Z.
Proof.
  intros Hx H. assert (Hy : 0 < y) by (apply Qlt_le_trans with x; assumption).
  destruct (floor_log2_spec x Hx) as [X1 X2]. destruct (floor_log2_spec y Hy) as [Y1 Y2].
  assert (L : (floor_log2 x < floor_log2 y + 1)%Z).
  { apply pow2_lt_inv. apply Qle_lt_trans with x; [exact X1|].
    apply Qle_lt_trans with y; assumption. }
  lia.
Qed.

Lemma exponent_le (x y : Q) : 0 < x -> x <= y -> (exponent x <= exponent y)%Z.
Proof. intros Hx H. unfold exponent. pose proof (floor_log2_le x y Hx H). lia. Qed.

Lemma exponent_comp (x y : Q) : 0 < x -> x == y -> exponent x = exponent y.
Proof. intros Hx H. unfold exponent. rewrite (floor_log2_comp x y Hx H). reflexivity. Qed.

Lemma pow2_split (n m : Z) : 2 ^ (n + m) == 2 ^ n * 2 ^ m.
Proof. apply Qpower_plus. discriminate. Qed.

Lemma div_pow2 (x : Q) (e : Z) : x / 2 ^ e * 2 ^ e == x.
Proof. field. pose proof (pow2_pos e). lra. Qed.

Lemma div_pow2_le (x y : Q) (e : Z) : x <= y -> x / 2 ^ e <= y / 2 ^ e.
Proof.
  intros H. unfold Qdiv. apply Qmult_le_compat_r; [exact H|].
  apply Qlt_le_weak, Qinv_lt_0_compat, pow2_pos.
Qed.

Lemma pow2_div (n e : Z) : 2 ^ n / 2 ^ e == 2 ^ (n - e).
Proof. rewrite Qpower_minus by discriminate. reflexivity. Qed.

(** *** The rounding of a positive number

    The scaled value stays within 53 bits. *)
Lemma scaled_bound (x : Q) : 0 < x -> x / 2 ^ exponent x < 2 ^ 53.
Proof.
  intros Hx. destruct (floor_log2_spec x Hx) as [_ S2].
  assert (H : x / 2 ^ exponent x < 2 ^ (floor_log2 x + 1) / 2 ^ exponent x).
  { unfold Qdiv. apply Qmult_lt_compat_r; [|exact S2].
    apply Qinv_lt_0_compat, pow2_pos. }
  apply Qlt_le_trans with (1 := H). rewrite pow2_div. apply pow2_le.
  unfold exponent. lia.
Qed.

Lemma round_pos_nonneg (x : Q) : 0 < x -> 0 <= round_pos x.
Proof.
  intros Hx. unfold round_pos.
  apply Qmult_le_0_compat; [|apply Qlt_le_weak, pow2_pos].
  change 0 with (inject_Z 0). rewrite <- Zle_Qle. apply nearest_even_above.
  change (inject_Z 0) with 0. apply Qlt_le_weak.
  apply Qlt_shift_div_l; [apply pow2_pos | lra].
Qed.

Lemma round_pos_representable (x : Q) : 0 < x -> representable (round_pos x).
Proof.
  intros Hx. exists (nearest_even (x / 2 ^ exponent x)), (exponent x).
  split; [unfold exponent; lia|]. split; [|reflexivity].
  assert (H0 : (0 <= nearest_even (x / 2 ^ exponent x))%Z).
  { apply nearest_even_above. change (inject_Z 0) with 0. apply Qlt_le_weak.
    apply Qlt_shift_div_l; [apply pow2_pos | lra]. }
  assert (H1 : (nearest_even (x / 2 ^ exponent x) <= 2 ^ 53)%Z).
  { apply nearest_even_below. rewrite pow2_Z by lia.
    apply Qlt_le_weak, scaled_bound, Hx. }
  lia.
Qed.

Lemma round_pos_comp (x y : Q) : 0 < x -> x == y -> round_pos x == round_pos y.
Proof.
  intros Hx H. unfold round_pos. rewrite (exponent_comp x y Hx H).
  rewrite (nearest_even_comp (x / 2 ^ exponent y) (y / 2 ^ exponent y));
    [reflexivity | rewrite H; reflexivity].
Qed.

Lemma round_pos_le (x y : Q) : 0 < x -> x <= y -> round_pos x <= round_pos y.
Proof.
  intros Hx H. assert (Hy : 0 < y) by (apply Qlt_le_trans with x; assumption).
  pose proof (exponent_le x y Hx H) as He.
  destruct (Z.eq_dec (exponent x) (exponent y)) as [E|E].
  - unfold round_pos. rewrite E.
    apply Qmult_le_compat_r; [|apply Qlt_le_weak, pow2_pos].
    rewrite <- Zle_Qle. apply nearest_even_le. apply div_pow2_le. exact H.
  - assert (Hex : (floor_log2 x - 52 <= exponent x)%Z) by (unfold exponent; lia).
    assert (Hey : exponent y = (floor_log2 y - 52)%Z) by (unfold exponent in *; lia).
    set (ex := exponent x) in *. set (ey := exponent y) in *.
    destruct (floor_log2_spec x Hx) as [_ X2]. destruct (floor_log2_spec y Hy) as [Y1 _].
    apply Qle_trans with (2 ^ (ey + 52)).
    + unfold round_pos. fold ex.
      assert (Hn : (nearest_even (x / 2 ^ ex) <= 2 ^ (ey + 52 - ex))%Z).
      { apply nearest_even_below. rewrite pow2_Z by lia. rewrite <- pow2_div.
        apply div_pow2_le. apply Qlt_le_weak. apply Qlt_le_trans with (1 := X2).
        apply pow2_le. lia. }
      rewrite Zle_Qle in Hn. rewrite pow2_Z in Hn by lia.
      apply Qle_trans with (2 ^ (ey + 52 - ex) * 2 ^ ex).
      * apply Qmult_le_compat_r; [exact Hn | apply Qlt_le_weak, pow2_pos].
      * rewrite <- pow2_split. replace (ey + 52 - ex + ex)%Z with (ey + 52)%Z by lia.
        apply Qle_refl.
    + unfold round_pos. fold ey.
      assert (Hn : (2 ^ 52 <= nearest_even (y / 2 ^ ey))%Z).
      { apply nearest_even_above. rewrite pow2_Z by lia.
        replace 52%Z with (ey + 52 - ey)%Z at 1 by lia. rewrite <- pow2_div.
        apply div_pow2_le. rewrite Hey. replace (floor_log2 y - 52 + 52)%Z
          with (floor_log2 y) by lia. exact Y1. }
      rewrite Zle_Qle in Hn. rewrite pow2_Z in Hn by lia.
      apply Qle_trans with (2 ^ 52 * 2 ^ ey).
      * rewrite <- pow2_split. replace (52 + ey)%Z with (ey + 52)%Z by lia. apply Qle_refl.
      * apply Qmult_le_compat_r; [exact Hn | apply Qlt_le_weak, pow2_pos].
Qed.

Lemma round_pos_fixed (y : Q) (k j : Z) :
  (-1074 <= j)%Z -> (0 < k <= 2 ^ 53)%Z -> y == inject_Z k * 2 ^ j ->
  round_pos y == y.
Proof.
  intros Hj Hk Yeq.
  assert (Hy : 0 < y).
  { rewrite Yeq. apply Qmult_lt_0_compat; [|apply pow2_pos].
    change 0 with (inject_Z 0). rewrite <- Zlt_Qlt. lia. }
  assert (Hle : y <= 2 ^ (j + 53)).
  { rewrite Yeq. rewrite (Z.add_comm j 53), pow2_split.
    apply Qmult_le_compat_r; [|apply Qlt_le_weak, pow2_pos].
    rewrite <- pow2_Z by lia. rewrite <- Zle_Qle. lia. }
  destruct (floor_log2_spec y Hy) as [S1 S2].
  assert (Hscaled : exists n : Z, y / 2 ^ exponent y == inject_Z n).
  { destruct (Z_le_gt_dec (exponent y) j) as [He|He].
    - exists (k * 2 ^ (j - exponent y))%Z.
      rewrite inject_Z_mult, pow2_Z by lia. rewrite <- pow2_div. rewrite Yeq at 1. field.
      pose proof (pow2_pos (exponent y)). lra.
    - assert (Hfl : (j + 53 <= floor_log2 y)%Z) by (unfold exponent in He; lia).
      assert (Hfl' : (floor_log2 y < j + 53 + 1)%Z).
      { apply pow2_lt_inv. apply Qle_lt_trans with y; [exact S1|].
        apply Qle_lt_trans with (1 := Hle). apply pow2_lt. lia. }
      assert (Hfl2 : floor_log2 y = (j + 53)%Z) by lia.
      assert (Heq : y == 2 ^ (j + 53)).
      { apply Qle_antisym; [exact Hle|]. rewrite <- Hfl2. exact S1. }
      exists (2 ^ 52)%Z. rewrite pow2_Z by lia. rewrite Heq at 1. rewrite pow2_div.
      replace (j + 53 - exponent y)%Z with 52%Z; [reflexivity|].
      unfold exponent. lia. }
  destruct Hscaled as [n Hn]. unfold round_pos.
  rewrite (nearest_even_comp _ _ Hn), nearest_even_Z, <- Hn. apply div_pow2.
Qed.

(** *** The rounding of a number of either sign *)
Lemma Qnum_pos (x : Q) (p : positive) : Qnum x = Zpos p -> 0 < x.
Proof. intros H. unfold Qlt. simpl. rewrite H. reflexivity. Qed.

Lemma Qnum_neg (x : Q) (p : positive) : Qnum x = Zneg p -> x < 0.
Proof. intros H. unfold Qlt. simpl. rewrite H. reflexivity. Qed.

Lemma Qnum_zero (x : Q) : Qnum x = 0%Z -> x == 0.
Proof. intros H. unfold Qeq. simpl. rewrite H. reflexivity. Qed.

Lemma round_of_pos (x : Q) : 0 < x -> round x = round_pos x.
Proof.
  intros H. unfold round. destruct (Qnum x) eqn:E; [| reflexivity |].
  - apply Qnum_zero in E. exfalso. lra.
  - apply Qnum_neg in E. exfalso. lra.
Qed.

Lemma round_of_neg (x : Q) : x < 0 -> round x = - round_pos (- x).
Proof.
  intros H. unfold round. destruct (Qnum x) eqn:E; [| | reflexivity].
  - apply Qnum_zero in E. exfalso. lra.
  - apply Qnum_pos in E. exfalso. lra.
Qed.

Lemma round_of_zero (x : Q) : x == 0 -> round x = 0.
Proof.
  intros H. unfold round. destruct (Qnum x) eqn:E; [reflexivity | |].
  - apply Qnum_pos in E. exfalso. lra.
  - apply Qnum_neg in E. exfalso. lra.
Qed.

Lemma Q_sign (x : Q) : {x < 0} + {x == 0} + {0 < x}.
Proof.
  destruct (Q_dec x 0) as [[H|H]|H]; [left; left | right | left; right]; assumption.
Qed.

#[global] Instance round_comp : Proper (Qeq ==> Qeq) round.
Proof.
  intros x y H. destruct (Q_sign x) as [[Hx|Hx]|Hx].
  - rewrite (round_of_neg x Hx), (round_of_neg y) by (rewrite <- H; exact Hx).
    apply Qopp_comp. apply round_pos_comp; [lra | rewrite H; reflexivity].
  - rewrite (round_of_zero x Hx), (round_of_zero y) by (rewrite <- H; exact Hx).
    reflexivity.
  - rewrite (round_of_pos x Hx), (round_of_pos y) by (rewrite <- H; exact Hx).
    apply round_pos_comp; assumption.
Qed.

Lemma round_le (x y : Q) : x <= y -> round x <= round y.
Proof.
  intros H.
  destruct (Q_sign x) as [[Hx|Hx]|Hx]; destruct (Q_sign y) as [[Hy|Hy]|Hy];
    try (exfalso; lra).
  - rewrite (round_of_neg x Hx), (round_of_neg y Hy).
    apply Qopp_le_compat. apply round_pos_le; lra.
  - rewrite (round_of_neg x Hx), (round_of_zero y Hy).
    pose proof (round_pos_nonneg (- x)). lra.
  - rewrite (round_of_neg x Hx), (round_of_pos y Hy).
    pose proof (round_pos_nonneg (- x)). pose proof (round_pos_nonneg y). lra.
  - rewrite (round_of_zero x Hx), (round_of_zero y Hy). apply Qle_refl.
  - rewrite (round_of_zero x Hx), (round_of_pos y Hy). apply round_pos_nonneg. exact Hy.
  - rewrite (round_of_pos x Hx), (round_of_pos y Hy). apply round_pos_le; assumption.
Qed.

Lemma round_fixed (y : Q) : representable y -> round y == y.
Proof.
  intros [k [j [Hj [Hk Hy]]]].
  destruct (Z.lt_trichotomy k 0) as [Hs|[Hs|Hs]].
  - assert (Hneg : y < 0).
    { rewrite Hy. pose proof (pow2_pos j).
      assert (inject_Z k < 0) by (change 0 with (inject_Z 0); rewrite <- Zlt_Qlt; exact Hs).
      nra. }
    rewrite (round_of_neg y Hneg).
    assert (Hy' : - y == inject_Z (- k) * 2 ^ j).
    { rewrite Hy, inject_Z_opp. ring. }
    rewrite (round_pos_fixed (- y) (- k) j Hj ltac:(lia) Hy'). ring.
  - subst k. assert (H0 : y == 0) by (rewrite Hy; ring).
    rewrite (round_of_zero y H0), H0. reflexivity.
  - assert (Hpos : 0 < y).
    { rewrite Hy. pose proof (pow2_pos j).
      assert (0 < inject_Z k) by (change 0 with (inject_Z 0); rewrite <- Zlt_Qlt; exact Hs).
      nra. }
    rewrite (round_of_pos y Hpos). apply (round_pos_fixed y k j Hj ltac:(lia) Hy).
Qed.

Lemma round_representable (x : Q) : representable (round x).
Proof.
  destruct (Q_sign x) as [[Hx|Hx]|Hx].
  - rewrite (round_of_neg x Hx).
    destruct (round_pos_representable (- x) ltac:(lra)) as [k [j [Hj [Hk Hy]]]].
    exists (- k)%Z, j. split; [exact Hj|]. split; [lia|].
    rewrite Hy, inject_Z_opp. ring.
  - rewrite (round_of_zero x Hx). exists 0%Z, 0%Z. repeat split; lia.
  - rewrite (round_of_pos x Hx). apply round_pos_representable. exact Hx.
Qed.

Lemma round_idempotent (x : Q) : round (round x) == round x.
Proof. apply round_fixed, round_representable. Qed.

Lemma round_whole (n : Z) : (Z.abs n <= 2 ^ 53)%Z -> round (inject_Z n) == inject_Z n.
Proof.
  intros H. apply round_fixed. exists n, 0%Z. repeat split; try lia.
  rewrite Qpower_0_r. ring.
Qed.

Lemma round_nonneg (x : Q) : 0 <= x -> 0 <= round x.
Proof.
  intros H. rewrite <- (round_whole 0) by (simpl; lia). apply round_le. exact H.
Qed.

#[global] Instance Number_add_comp : Proper (Qeq ==> Qeq ==> Qeq) Number_add.
Proof. intros x x' Hx y y' Hy. unfold Number_add. rewrite Hx, Hy. reflexivity. Qed.

Lemma Number_add_le (x x' y y' : Q) :
  x <= x' -> y <= y' -> Number_add x y <= Number_add x' y'.
Proof.
  intros Hx Hy. unfold Number_add. apply round_le.
  apply Qplus_le_compat; apply round_le; assumption.
Qed.

(** Whole numbers are added exactly, up to [2 ^ 53]. *)
Lemma Number_add_whole (x y : Q) (n m : Z) :
  x == inject_Z n -> y == inject_Z m ->
  (Z.abs n <= 2 ^ 53)%Z -> (Z.abs m <= 2 ^ 53)%Z -> (Z.abs (n + m) <= 2 ^ 53)%Z ->
  Number_add x y == inject_Z (n + m).
Proof.
  intros Hx Hy Hn Hm Hs. unfold Number_add.
  rewrite Hx, Hy, !round_whole, <- inject_Z_plus by assumption.
  apply round_whole. exact Hs.
Qed.

End Rounding.

(** ** Statistics: the last seven days *)

Lemma sum_amounts_snoc (ts : list Transaction) (t : Transaction) :
  sum_amounts (ts ++ [t]) = Number_add (sum_amounts ts) (amount t).
Proof. unfold sum_amounts. rewrite fold_left_app. reflexivity. Qed.

Lemma filter_perm {A : Type} (f : A -> bool) (l l' : list A) :
  Permutation l l' -> Permutation (filter f l) (filter f l').
Proof.
  induction 1 as [|x l l' _ IH|x y l|l l' l'' _ IH1 _ IH2]; simpl.
  - constructor.
  - destruct (f x); [constructor|]; exact IH.
  - destruct (f x), (f y); try apply Permutation_refl. constructor.
  - eapply Permutation_trans; eassumption.
Qed.




(** ** The sort of the host *)

(** *** The sort is a permutation, whatever the comparison function *)

Section SortPermutation.

Context {A : Type}.
Variable comparefn : A -> A -> Z.

Lemma insert_perm (x : A) (l : list A) : Permutation (insert comparefn x l) (x :: l).
Proof.
  induction l as [|y l IH]; simpl; [apply Permutation_refl|].
  destruct (comparefn x y <=? 0)%Z; [apply Permutation_refl|].
  apply perm_trans with (y :: x :: l); [constructor; exact IH | apply perm_swap].
Qed.

Lemma sort_perm (l : list A) : Permutation (sort comparefn l) l.
Proof.
  induction l as [|x l IH]; simpl; [constructor|].
  apply perm_trans with (x :: sort comparefn l); [apply insert_perm|].
  constructor. exact IH.
Qed.

(** Only the comparisons between elements of the list count. *)
Lemma insert_ext (comparefn' : A -> A -> Z) (x : A) (l : list A) :
  (forall y, In y l -> (comparefn x y <=? 0)%Z = (comparefn' x y <=? 0)%Z) ->
  insert comparefn x l = insert comparefn' x l.
Proof.
  induction l as [|y l IH]; intros H; simpl; [reflexivity|].
  rewrite (H y (or_introl eq_refl)).
  destruct (comparefn' x y <=? 0)%Z; [reflexivity|].
  f_equal. apply IH. intros z Hz. apply H. right. exact Hz.
Qed.

End SortPermutation.

Lemma sort_ext {A : Type} (comparefn comparefn' : A -> A -> Z) (l : list A) :
  (forall x y, In x l -> In y l ->
               (comparefn x y <=? 0)%Z = (comparefn' x y <=? 0)%Z) ->
  sort comparefn l = sort comparefn' l.
Proof.
  induction l as [|x l IH]; intros H; simpl; [reflexivity|].
  rewrite IH.
  - apply insert_ext. intros y Hy. apply H; [left; reflexivity|].
    right. apply (Permutation_in _ (sort_perm comparefn' l)). exact Hy.
  - intros a b Ha Hb. apply H; right; assumption.
Qed.

(** *** Sorting by a total preorder *)

Section TotalPreorder.

Context {A : Type}.
Variable leb : A -> A -> bool.
Hypothesis leb_total : forall a b, leb a b = true \/ leb b a = true.
Hypothesis leb_trans : forall a b c, leb a b = true -> leb b c = true -> leb a c = true.

Lemma leb_refl (a : A) : leb a a = true.
Proof. destruct (leb_total a a); assumption. Qed.

Lemma insert_up_sorted (x : A) (l : list A) :
  StronglySorted (precedes leb) l -> StronglySorted (precedes leb) (insert (up leb) x l).
Proof.
  induction 1 as [|y l Hs IH Hy]; simpl.
  - repeat constructor.
  - unfold up at 1. destruct (leb x y) eqn:E; simpl.
    + constructor; [constructor; assumption|].
      constructor; [exact E|].
      rewrite Forall_forall in *. intros z Hz. apply (leb_trans x y z E). apply Hy, Hz.
    + constructor; [exact IH|].
      apply (Permutation_Forall (Permutation_sym (insert_perm (up leb) x l))).
      constructor; [|exact Hy].
      destruct (leb_total x y) as [H|H]; [congruence | exact H].
Qed.

Lemma sort_up_sorted (l : list A) : StronglySorted (precedes leb) (sort (up leb) l).
Proof.
  induction l as [|x l IH]; simpl; [constructor | apply insert_up_sorted, IH].
Qed.

Lemma insert_down_sorted (x : A) (l : list A) :
  StronglySorted (follows leb) l -> StronglySorted (follows leb) (insert (down leb) x l).
Proof.
  induction 1 as [|y l Hs IH Hy]; simpl.
  - repeat constructor.
  - unfold down at 1. destruct (leb y x) eqn:E; simpl.
    + constructor; [constructor; assumption|].
      constructor; [exact E|].
      rewrite Forall_forall in *. intros z Hz. apply (leb_trans z y x); [|exact E].
      apply Hy, Hz.
    + constructor; [exact IH|].
      apply (Permutation_Forall (Permutation_sym (insert_perm (down leb) x l))).
      constructor; [|exact Hy].
      destruct (leb_total x y) as [H|H]; [exact H | congruence].
Qed.

Lemma sort_down_sorted (l : list A) : StronglySorted (follows leb) (sort (down leb) l).
Proof.
  induction l as [|x l IH]; simpl; [constructor | apply insert_down_sorted, IH].
Qed.

Lemma sorted_snoc (l : list A) (x : A) :
  StronglySorted (follows leb) l -> Forall (fun y => (follows leb) y x) l -> StronglySorted (follows leb) (l ++ [x]).
Proof.
  induction 1 as [|y l Hs IH Hy]; intros Hx; simpl.
  - repeat constructor.
  - inversion Hx as [|? ? Hyx Hlx]; subst.
    constructor; [apply IH; exact Hlx|].
    apply Forall_app. split; [exact Hy | constructor; [exact Hyx | constructor]].
Qed.

(** An ascending list read backwards is descending. *)
Lemma sorted_rev (l : list A) : StronglySorted (precedes leb) l -> StronglySorted (follows leb) (rev l).
Proof.
  induction 1 as [|y l Hs IH Hy]; simpl; [constructor|].
  apply sorted_snoc; [exact IH|].
  apply Forall_rev. exact Hy.
Qed.

Lemma rank_perm (x : A) (l l' : list A) :
  Permutation l l' -> rank leb x l = rank leb x l'.
Proof. intros H. apply Permutation_length, filter_perm, H. Qed.

(** Two descending lists with the same ranks agree place by place up to
    the order among elements at one level. *)
Lemma sorted_same_rank_level (l1 l2 : list A) :
  StronglySorted (follows leb) l1 -> StronglySorted (follows leb) l2 ->
  (forall x, rank leb x l1 = rank leb x l2) ->
  Forall2 (level leb) l1 l2.
Proof.
  intros H1. revert l2. induction H1 as [|a l1 Hs1 IH Ha]; intros l2 H2 Hrank.
  - destruct l2 as [|b l2]; [constructor|].
    specialize (Hrank b). unfold rank in Hrank. simpl in Hrank.
    rewrite leb_refl in Hrank. discriminate.
  - destruct l2 as [|b l2].
    { specialize (Hrank a). unfold rank in Hrank. simpl in Hrank.
      rewrite leb_refl in Hrank. discriminate. }
    inversion H2 as [|? ? Hs2 Hb]; subst.
    assert (Hab : leb a b = true).
    { (* [a] is at or after itself, so some element of the other list is
         at or after [a]; the head [b] is at or after all of them *)
      pose proof (Hrank a) as Hr. unfold rank in Hr. simpl in Hr.
      rewrite leb_refl in Hr. simpl in Hr.
      destruct (leb a b) eqn:E; [reflexivity|].
      destruct (filter (fun y => leb a y) l2) as [|z f] eqn:Ef; [discriminate|].
      assert (Hz : In z (filter (fun y => leb a y) l2)) by (rewrite Ef; left; reflexivity).
      apply filter_In in Hz. destruct Hz as [Hz1 Hz2].
      rewrite Forall_forall in Hb. specialize (Hb z Hz1).
      rewrite <- E. exact (leb_trans a z b Hz2 Hb). }
    assert (Hba : leb b a = true).
    { pose proof (Hrank b) as Hr. unfold rank in Hr. simpl in Hr.
      rewrite leb_refl in Hr. simpl in Hr.
      destruct (leb b a) eqn:E; [reflexivity|].
      destruct (filter (fun y => leb b y) l1) as [|z f] eqn:Ef; [discriminate|].
      assert (Hz : In z (filter (fun y => leb b y) l1)) by (rewrite Ef; left; reflexivity).
      apply filter_In in Hz. destruct Hz as [Hz1 Hz2].
      rewrite Forall_forall in Ha. specialize (Ha z Hz1).
      rewrite <- E. exact (leb_trans b z a Hz2 Ha). }
    constructor; [split; assumption|].
    apply IH; [exact Hs2|].
    intros x.
    assert (Hx : leb x a = leb x b).
    { destruct (leb x a) eqn:E1, (leb x b) eqn:E2; try reflexivity.
      - rewrite (leb_trans x a b E1 Hab) in E2. discriminate.
      - rewrite (leb_trans x b a E2 Hba) in E1. discriminate. }
    specialize (Hrank x). unfold rank in *. simpl in Hrank.
    rewrite Hx in Hrank. destruct (leb x b); simpl in Hrank; lia.
Qed.

(** Two descending arrangements of the same elements agree place by
    place up to the order among elements at one level: which sorted
    permutation a sort returns matters for ties only. *)
Lemma sorted_arrangements_level (l1 l2 : list A) :
  StronglySorted (follows leb) l1 -> StronglySorted (follows leb) l2 ->
  Permutation l1 l2 ->
  Forall2 (level leb) l1 l2.
Proof.
  intros H1 H2 Hperm. apply sorted_same_rank_level; [exact H1 | exact H2 |].
  intros x. apply rank_perm, Hperm.
Qed.

(** The ascending sort read backwards and the descending sort agree
    place by place up to the order among elements at one level. *)
Lemma sort_up_rev_down (l : list A) :
  Permutation (rev (sort (up leb) l)) (sort (down leb) l)
  /\ Forall2 (level leb) (rev (sort (up leb) l)) (sort (down leb) l).
Proof.
  assert (Hperm : Permutation (rev (sort (up leb) l)) (sort (down leb) l)).
  { apply perm_trans with l.
    - apply perm_trans with (sort (up leb) l);
        [apply Permutation_sym, Permutation_rev | apply sort_perm].
    - apply Permutation_sym, sort_perm. }
  split; [exact Hperm|].
  apply sorted_same_rank_level.
  - apply sorted_rev, sort_up_sorted.
  - apply sort_down_sorted.
  - intros x. apply rank_perm, Hperm.
Qed.

End TotalPreorder.

Lemma StronglySorted_impl_In {A : Type} (R R' : A -> A -> Prop) (l : list A) :
  (forall a b, In a l -> In b l -> R a b -> R' a b) ->
  StronglySorted R l -> StronglySorted R' l.
Proof.
  intros H Hs. induction Hs as [|a l Hs IH Ha]; constructor.
  - apply IH. intros x y Hx Hy. apply H; right; assumption.
  - rewrite Forall_forall in *. intros b Hb.
    apply H; [left; reflexivity | right; exact Hb | exact (Ha b Hb)].
Qed.




(** The entries of an object are its properties, in some order. *)
Lemma filter_split_perm {A : Type} (f : A -> bool) (l : list A) :
  Permutation (filter f l ++ filter (fun x => negb (f x)) l) l.
Proof.
  induction l as [|a l IH]; simpl; [constructor|].
  destruct (f a); simpl.
  - constructor. exact IH.
  - apply Permutation_sym, Permutation_cons_app, Permutation_sym. exact IH.
Qed.

Lemma Object_entries_perm (o : object) : Permutation (Object_entries o) o.
Proof.
  unfold Object_entries.
  apply Permutation_trans with (filter is_index o ++ filter (fun e => negb (is_index e)) o).
  - apply Permutation_app_tail. apply sort_perm.
  - apply filter_split_perm.
Qed.

(** ** Statistics: the top category *)



Lemma categoryTotals_snoc (ts : list Transaction) (t : Transaction) :
  categoryTotals (ts ++ [t])
  = put (categoryTotals ts) (category t)
        (plus_amount (categoryTotals ts) (category t) (amount t)).
Proof. unfold categoryTotals. rewrite fold_left_app. reflexivity. Qed.






(** *** The totals object as a finite map *)


Lemma map_fst_overwrite (c : string) (v : tally) (o : object) :
  map fst (overwrite c v o) = map fst o.
Proof.
  induction o as [|[k w] o IH]; simpl; [reflexivity|].
  destruct (String.eqb c k); simpl; [reflexivity | rewrite IH; reflexivity].
Qed.






Section PlainCategories.

Variable ts : list Transaction.
Hypothesis plain : forall t, In t ts -> inherited (category t) = false.


End PlainCategories.

(** *** The scan for the top entry *)


Lemma Q_ltb_lt (a b : Q) : Q_ltb a b = true <-> (a < b)%Q.
Proof.
  unfold Q_ltb. rewrite negb_true_iff. split.
  - intros H. apply Qnot_le_lt. intros Hle. apply Qle_bool_iff in Hle. congruence.
  - intros H. destruct (Qle_bool b a) eqn:E; [|reflexivity].
    apply Qle_bool_iff in E. exfalso. exact (Qlt_not_le _ _ H E).
Qed.

Lemma Q_ltb_ge (a b : Q) : Q_ltb a b = false <-> (b <= a)%Q.
Proof.
  unfold Q_ltb. rewrite negb_false_iff. apply Qle_bool_iff.
Qed.





Lemma forallb_false {A : Type} (f : A -> bool) (l : list A) :
  forallb f l = false -> exists x, In x l /\ f x = false.
Proof.
  induction l as [|y l IH]; simpl; [discriminate|].
  destruct (f y) eqn:E; simpl.
  - intros H. destruct (IH H) as [x [Hin Hx]]. exists x. split; [right|]; assumption.
  - intros _. exists y. split; [left; reflexivity | exact E].
Qed.








(** Without a category named by an index, the first encountered of the
    tied categories is reported: [Food] before [Books], at 50 each. *)
Lemma topCategory_tie_plain_example :
  first_encountered_top food_books_tie = Some "Food"
  /\ (category_sum food_books_tie "Food" == category_sum food_books_tie "Books")%Q
  /\ topCategory (@calculateStats (morning_east true) (store food_books_tie)) = "Food".
Proof. repeat split; vm_compute; reflexivity. Qed.

(** The sums are those of the doubles: 0.1 and 0.2 add up to more than
    0.3, so a category with these two amounts goes before one with the
    amount 0.3, which the exact sums would tie with it. *)
Lemma topCategory_rounded_sums_example :
  (category_sum tenths "Books" < category_sum tenths "Food")%Q
  /\ (3 # 10 == (1 # 10) + (2 # 10))%Q
  /\ first_encountered_top tenths = Some "Food"
  /\ topCategory (@calculateStats (morning_east true) (store tenths)) = "Food".
Proof. repeat split; vm_compute; reflexivity. Qed.

(** ** The sorted view *)

(** *** The order of each field *)

Lemma str_ltb_asym (a b : list ascii) : str_ltb a b = true -> str_ltb b a = false.
Proof.
  revert b. induction a as [|x a IH]; intros [|y b]; simpl; try congruence.
  destruct (Nat.ltb_spec (code x) (code y)), (Nat.ltb_spec (code y) (code x));
    try congruence; try lia.
  apply IH.
Qed.

Lemma str_geb_trans (a b c : list ascii) :
  str_ltb b a = false -> str_ltb c b = false -> str_ltb c a = false.
Proof.
  revert b c. induction a as [|x a IH]; intros [|y b] [|z c]; simpl;
    try congruence.
  destruct (Nat.ltb_spec (code y) (code x)), (Nat.ltb_spec (code x) (code y)),
           (Nat.ltb_spec (code z) (code y)), (Nat.ltb_spec (code y) (code z)),
           (Nat.ltb_spec (code z) (code x)), (Nat.ltb_spec (code x) (code z));
    try congruence; try lia.
  apply IH.
Qed.

Section FieldOrder.

Context {host : Host}.

Lemma key_leb_total (field : sort_field) (a b : Transaction) :
  key_leb field a b = true \/ key_leb field b a = true.
Proof.
  destruct field; cbn [key_leb field_ltb comparable text_of];
    try (destruct (str_ltb (chars (toLowerCase (_ b))) (chars (toLowerCase (_ a)))) eqn:E;
         [right; rewrite (str_ltb_asym _ _ E); reflexivity | left; reflexivity]).
  - destruct (Qlt_le_dec (amount b) (amount a)) as [H|H].
    + right. apply Qle_bool_iff, Qlt_le_weak, H.
    + left. apply Qle_bool_iff, H.
  - destruct (Date_parse (date a)) as [x|], (Date_parse (date b)) as [y|]; auto.
    destruct (Z.leb_spec x y); [left; reflexivity|].
    right. apply Z.leb_le. lia.
Qed.

Lemma key_leb_trans (field : sort_field) (a b c : Transaction) :
  key_leb field a b = true -> key_leb field b c = true -> key_leb field a c = true.
Proof.
  destruct field; cbn [key_leb field_ltb comparable text_of]; intros H1 H2;
    try (apply negb_true_iff in H1, H2; apply negb_true_iff;
         exact (str_geb_trans _ _ _ H1 H2)).
  - apply Qle_bool_iff in H1, H2. apply Qle_bool_iff.
    exact (Qle_trans _ _ _ H1 H2).
  - destruct (Date_parse (date a)) as [x|], (Date_parse (date b)) as [y|],
             (Date_parse (date c)) as [z|]; try congruence.
    apply Z.leb_le in H1, H2. apply Z.leb_le. lia.
Qed.

(** On values that can be compared, the preorder is "does not follow". *)
Lemma key_leb_ltb (field : sort_field) (a b : Transaction) :
  comparable field a = true -> comparable field b = true ->
  key_leb field a b = negb (field_ltb field b a).
Proof.
  destruct field; cbn [key_leb field_ltb comparable text_of]; try reflexivity.
  - intros _ _. unfold Q_ltb. rewrite negb_involutive. reflexivity.
  - destruct (Date_parse (date a)) as [x|], (Date_parse (date b)) as [y|];
      try discriminate.
    intros _ _. simpl. apply Z.leb_antisym.
Qed.

Lemma field_ltb_asym (field : sort_field) (a b : Transaction) :
  field_ltb field a b = true -> field_ltb field b a = false.
Proof.
  destruct field; cbn [key_leb field_ltb comparable text_of]; try apply str_ltb_asym.
  - intros H. apply Q_ltb_lt in H. apply Q_ltb_ge. apply Qlt_le_weak, H.
  - destruct (Date_parse (date a)) as [x|], (Date_parse (date b)) as [y|];
      simpl; try congruence.
    intros H. apply Z.ltb_lt in H. apply Z.ltb_ge. lia.
Qed.

(** The comparison functions of the two directions are those of the
    preorder and of its converse. *)
Lemma compareFn_up (field : sort_field) (a b : Transaction) :
  comparable field a = true -> comparable field b = true ->
  (compareFn field true a b <=? 0)%Z = (up (key_leb field) a b <=? 0)%Z.
Proof.
  intros Ha Hb. unfold compareFn, up. rewrite (key_leb_ltb field a b Ha Hb).
  destruct (field_ltb field a b) eqn:E.
  - rewrite (field_ltb_asym _ _ _ E). reflexivity.
  - destruct (field_ltb field b a); reflexivity.
Qed.

Lemma compareFn_down (field : sort_field) (a b : Transaction) :
  comparable field a = true -> comparable field b = true ->
  (compareFn field false a b <=? 0)%Z = (down (key_leb field) a b <=? 0)%Z.
Proof.
  intros Ha Hb. unfold compareFn, down. rewrite (key_leb_ltb field b a Hb Ha).
  destruct (field_ltb field a b) eqn:E; [reflexivity|].
  destruct (field_ltb field b a); reflexivity.
Qed.

Lemma level_tied (field : sort_field) (a b : Transaction) :
  comparable field a = true -> comparable field b = true ->
  level (key_leb field) a b -> tied field a b.
Proof.
  intros Ha Hb [H1 H2].
  rewrite (key_leb_ltb field a b Ha Hb) in H1.
  rewrite (key_leb_ltb field b a Hb Ha) in H2.
  apply negb_true_iff in H1, H2. split; assumption.
Qed.

Lemma tied_sym (field : sort_field) (a b : Transaction) :
  tied field a b -> tied field b a.
Proof. intros [H1 H2]. split; assumption. Qed.

(** Whatever is not a date is tied with every record. *)
Lemma incomparable_tied (field : sort_field) (a b : Transaction) :
  comparable field a = false -> tied field a b.
Proof.
  unfold tied.
  destruct field; cbn [field_ltb comparable]; try discriminate.
  destruct (Date_parse (date a)); [discriminate|].
  intros _. split; simpl; [reflexivity|].
  destruct (Date_parse (date b)); reflexivity.
Qed.

End FieldOrder.

(** *** The two directions of the sorted view *)

Lemma Forall2_impl_In {A : Type} (R R' : A -> A -> Prop) (l1 l2 : list A) :
  Forall2 R l1 l2 ->
  (forall x y, In x l1 -> In y l2 -> R x y -> R' x y) ->
  Forall2 R' l1 l2.
Proof.
  induction 1 as [|x y l1 l2 Hxy _ IH]; intros H; constructor.
  - apply H; [left; reflexivity | left; reflexivity | exact Hxy].
  - apply IH. intros a b Ha Hb. apply H; right; assumption.
Qed.

Lemma Forall2_eq_lists {A : Type} (l1 l2 : list A) : Forall2 eq l1 l2 -> l1 = l2.
Proof. induction 1; [reflexivity | subst; reflexivity]. Qed.

Section Views.

Context {host : Host}.
Variable field : sort_field.
Variable ts : list Transaction.

Let ascending_view : list Transaction := sort (compareFn field true) ts.
Let descending_view : list Transaction := sort (compareFn field false) ts.

Lemma view_In_asc (t : Transaction) : In t (rev ascending_view) -> In t ts.
Proof.
  intros H. apply in_rev in H.
  exact (Permutation_in _ (sort_perm _ ts) H).
Qed.

Lemma view_In_desc (t : Transaction) : In t descending_view -> In t ts.
Proof. exact (Permutation_in _ (sort_perm _ ts)). Qed.

(** With values that can all be compared, the descending view is the
    ascending one read backwards, up to the order of tied records. *)
Lemma views_tied :
  Forall (fun t => comparable field t = true) ts ->
  Permutation (rev ascending_view) descending_view
  /\ Forall2 (tied field) (rev ascending_view) descending_view.
Proof.
  intros Hcmp. rewrite Forall_forall in Hcmp.
  assert (Hup : ascending_view = sort (up (key_leb field)) ts).
  { apply sort_ext. intros x y Hx Hy. apply compareFn_up; apply Hcmp; assumption. }
  assert (Hdown : descending_view = sort (down (key_leb field)) ts).
  { apply sort_ext. intros x y Hx Hy. apply compareFn_down; apply Hcmp; assumption. }
  destruct (sort_up_rev_down (key_leb field) (key_leb_total field) (key_leb_trans field) ts)
    as [Hperm Hlevel].
  rewrite <- Hup, <- Hdown in Hperm, Hlevel.
  split; [exact Hperm|].
  apply (Forall2_impl_In _ _ _ _ Hlevel).
  intros x y Hx Hy. apply level_tied; apply Hcmp.
  - apply view_In_asc, Hx.
  - apply view_In_desc, Hy.
Qed.

(** With values that are distinct two by two, the descending view is the
    ascending one read backwards. *)
Lemma views_reverse :
  ForallOrdPairs (fun a b => ~ tied field a b) ts ->
  rev ascending_view = descending_view.
Proof.
  intros Hdistinct.
  destruct (forallb (comparable field) ts) eqn:Hall.
  - rewrite forallb_forall in Hall.
    destruct views_tied as [_ Htied]; [apply Forall_forall; exact Hall|].
    apply Forall2_eq_lists. apply (Forall2_impl_In _ _ _ _ Htied).
    intros x y Hx Hy Hxy.
    destruct (ForallOrdPairs_In Hdistinct x y (view_In_asc x Hx) (view_In_desc y Hy))
      as [Heq|[Hn|Hn]]; [exact Heq | contradiction | ].
    exfalso. apply Hn, tied_sym, Hxy.
  - destruct (forallb_false _ _ Hall) as [t [Ht Hbad]].
    subst ascending_view descending_view.
    destruct ts as [|a [|b l]]; [reflexivity | reflexivity | exfalso].
    inversion Hdistinct as [|? ? Ha _]; subst.
    rewrite Forall_forall in Ha.
    destruct (comparable field a) eqn:Ea.
    + destruct Ht as [<-|Ht]; [congruence|].
      apply (Ha t Ht). apply tied_sym. apply incomparable_tied. exact Hbad.
    + apply (Ha b (or_introl eq_refl)). apply incomparable_tied. exact Ea.
Qed.

End Views.

(** C9, amended: for every collection and every field, both views hold
    the records of the store, each as often as the store; the ascending
    view read backwards is the descending view when the values of the
    field are distinct two by two (no record tied with another under the
    comparison of the field: amounts as numbers, dates as times, other
    fields as lower-case text); and when every value can be compared
    (every date is a date), the two agree place by place up to the order
    of tied records. *)
Theorem sorted_views_reverse_comparable :
  forall (host : Host) (state : State) (field : sort_field),
    Permutation (getSortedTransactions (setSort field true state)) (transactions state)
    /\ Permutation (getSortedTransactions (setSort field false state)) (transactions state)
    /\ (ForallOrdPairs (fun a b => ~ tied field a b) (transactions state) ->
        rev (getSortedTransactions (setSort field true state))
        = getSortedTransactions (setSort field false state))
    /\ (Forall (fun t => comparable field t = true) (transactions state) ->
        Forall2 (tied field)
                (rev (getSortedTransactions (setSort field true state)))
                (getSortedTransactions (setSort field false state))).
Proof.
  intros host state field.
  split; [apply sort_perm|]. split; [apply sort_perm|]. split.
  - apply views_reverse.
  - intros Hcmp. apply views_tied. exact Hcmp.
Qed.

Lemma sorted_views_reverse_comparable_witness :
  (rev (@getSortedTransactions (morning_east true)
          (setSort f_amount true (store [june_5; june_15; june_12])))
   = @getSortedTransactions (morning_east true)
       (setSort f_amount false (store [june_5; june_15; june_12])))
  /\ Forall2 (@tied (morning_east true) f_category)
       (rev (@getSortedTransactions (morning_east true)
               (setSort f_category true (store food_books_tie))))
       (@getSortedTransactions (morning_east true)
          (setSort f_category false (store food_books_tie))).
Proof.
  split.
  - apply (proj1 (proj2 (proj2 (sorted_views_reverse_comparable (morning_east true)
                                  (store [june_5; june_15; june_12]) f_amount)))).
    simpl. repeat constructor; intros [H1 H2]; discriminate.
  - apply (proj2 (proj2 (proj2 (sorted_views_reverse_comparable (morning_east true)
                                  (store food_books_tie) f_category)))).
    simpl. repeat constructor.
Defined.

(** C9, as stated, fails on a collection with a date that is none: such
    a record compares as equal with every other, and then the two views
    differ in the order of two records that are not tied.  On the second
    of June, an unreadable date and the first of June, both views keep
    the order of the store, so that the ascending view read backwards has
    the first of June before the second, and the descending view after
    it. *)
Lemma sorted_views_invalid_date_counterexample :
  map id (rev (@getSortedTransactions (morning_east true)
                 (setSort f_date true (store unreadable_date))))
  = ["txn_3"; "txn_2"; "txn_1"]
  /\ map id (@getSortedTransactions (morning_east true)
               (setSort f_date false (store unreadable_date)))
     = ["txn_1"; "txn_2"; "txn_3"]
  /\ @field_ltb (morning_east true) f_date june_1 june_2 = true
  /\ ~ Forall2 (@tied (morning_east true) f_date)
         (rev (@getSortedTransactions (morning_east true)
                 (setSort f_date true (store unreadable_date))))
         (@getSortedTransactions (morning_east true)
            (setSort f_date false (store unreadable_date))).
Proof.
  split; [reflexivity|]. split; [reflexivity|]. split; [reflexivity|].
  intros H. inversion H as [|x y l l' [Hxy _] _]; subst. discriminate Hxy.
Qed.

(** The text of a field is compared in lower case, accented capitals
    included: a capital E with an acute accent (201) and the small one
    (233) are tied. *)
Lemma accented_capitals_tied :
  toLowerCase (String (ascii_of_nat 201) "cole") = String (ascii_of_nat 233) "cole"
  /\ forall (host : Host) (a b : Transaction),
       description a = String (ascii_of_nat 201) "cole" ->
       description b = String (ascii_of_nat 233) "cole" ->
       tied f_description a b.
Proof.
  split; [reflexivity|].
  intros host a b Ha Hb. unfold tied. cbn [field_ltb text_of]. rewrite Ha, Hb.
  split; reflexivity.
Qed.

(** With ties the two orders do differ: both directions keep tied
    records in the order of the store, so the ascending view read
    backwards has them the other way round. *)
Lemma sorted_views_tie_example :
  map id (rev (@getSortedTransactions (morning_east true)
                 (setSort f_category true (store food_books_tie))))
  = ["txn_3"; "txn_1"; "txn_2"]
  /\ map id (@getSortedTransactions (morning_east true)
               (setSort f_category false (store food_books_tie)))
     = ["txn_1"; "txn_3"; "txn_2"].
Proof. split; reflexivity. Qed.

(* ================================================================= *)
(** * Further properties of the validators *)

(** ** What a match tells *)

Section MatchFacts.

Variable input : list ascii.
Variable ic : bool.

(** One turn of the loop. *)
Lemma repeat_loop_step
      (body : mstate -> (mstate -> option mstate) -> option mstate)
      (gs : list nat) (greedy : bool) (k : mstate -> option mstate)
      (fuel min : nat) (max : option nat) (x : mstate) :
  repeat_loop body gs greedy k (S fuel) min max x
  = match max with
    | Some O => k x
    | _ =>
        let d := fun y : mstate =>
          if (min =? 0)%nat && (endIndex y =? endIndex x)%nat then None
          else repeat_loop body gs greedy k fuel (Nat.pred min) (option_map Nat.pred max) y in
        let xr := MState (endIndex x) (clear_caps gs (captures x)) in
        if negb (min =? 0)%nat then body xr d
        else if greedy then orelse (body xr d) (fun _ => k x)
        else orelse (k x) (fun _ => body xr d)
    end.
Proof. reflexivity. Qed.

Lemma m_Rep (min : nat) (max : option nat) (greedy : bool) (r : regex)
      (x : mstate) (k : mstate -> option mstate) :
  m input ic (Rep min max greedy r) x k
  = repeat_loop (m input ic r) (groups r) greedy k (min + length input + 2) min max x.
Proof. reflexivity. Qed.

(** A loop that succeeds has called the continuation, if its body calls
    the one it is given. *)
Lemma repeat_loop_continues
      (body : mstate -> (mstate -> option mstate) -> option mstate)
      (gs : list nat) (greedy : bool) (k : mstate -> option mstate) (z : mstate) :
  (forall x d, body x d = Some z -> exists y, d y = Some z) ->
  forall fuel min max x,
    repeat_loop body gs greedy k fuel min max x = Some z -> exists y, k y = Some z.
Proof.
  intros Hbody. induction fuel as [|fuel IH]; intros min max x H; [discriminate|].
  assert (Hd : forall xr,
             body xr (fun y => if (min =? 0)%nat && (endIndex y =? endIndex x)%nat
                               then None
                               else repeat_loop body gs greedy k fuel (Nat.pred min)
                                                (option_map Nat.pred max) y) = Some z ->
             exists y, k y = Some z).
  { intros xr Hm. destruct (Hbody _ _ Hm) as [y Hy].
    destruct ((min =? 0)%nat && (endIndex y =? endIndex x)%nat); [discriminate|].
    exact (IH _ _ _ Hy). }
  rewrite repeat_loop_step in H. cbv zeta in H.
  assert (Hrun : (exists y, k y = Some z)
                 \/ (if negb (min =? 0)%nat
                     then body (MState (endIndex x) (clear_caps gs (captures x)))
                            (fun y => if (min =? 0)%nat && (endIndex y =? endIndex x)%nat
                                      then None
                                      else repeat_loop body gs greedy k fuel (Nat.pred min)
                                                       (option_map Nat.pred max) y)
                     else if greedy
                          then orelse
                                 (body (MState (endIndex x) (clear_caps gs (captures x)))
                                    (fun y => if (min =? 0)%nat
                                                 && (endIndex y =? endIndex x)%nat
                                              then None
                                              else repeat_loop body gs greedy k fuel
                                                     (Nat.pred min)
                                                     (option_map Nat.pred max) y))
                                 (fun _ => k x)
                          else orelse (k x)
                                 (fun _ =>
                                    body (MState (endIndex x) (clear_caps gs (captures x)))
                                      (fun y => if (min =? 0)%nat
                                                   && (endIndex y =? endIndex x)%nat
                                                then None
                                                else repeat_loop body gs greedy k fuel
                                                       (Nat.pred min)
                                                       (option_map Nat.pred max) y)))
                    = Some z).
  { destruct max as [[|n]|]; [left; eauto | right; exact H | right; exact H]. }
  destruct Hrun as [Hk|Hrun]; [exact Hk|].
  destruct (negb (min =? 0)%nat); [exact (Hd _ Hrun)|].
  destruct greedy; unfold orelse in Hrun.
  - destruct (body _ _) eqn:E.
    + injection Hrun as <-. exact (Hd _ E).
    + eauto.
  - destruct (k x) eqn:E.
    + injection Hrun as <-. eauto.
    + exact (Hd _ Hrun).
Qed.

(** A matcher that succeeds has called its continuation. *)
Lemma m_continues (r : regex) :
  forall (x : mstate) (k : mstate -> option mstate) (z : mstate),
    m input ic r x k = Some z -> exists y, k y = Some z.
Proof.
  induction r as [| c | | neg cs | r1 IH1 r2 IH2 | r1 IH1 r2 IH2
                 | min max greedy r' IH | i r' IH | i | neg r' IH | | | | ];
    intros x k z H.
  - simpl in H. eauto.
  - simpl in H. unfold step_char in H.
    destruct (char_at input (endIndex x)); [|discriminate].
    destruct (char_eqb ic c a); [eauto | discriminate].
  - simpl in H. unfold step_char in H.
    destruct (char_at input (endIndex x)); [|discriminate].
    destruct (negb (isLineTerminator a)); [eauto | discriminate].
  - simpl in H. unfold step_char in H.
    destruct (char_at input (endIndex x)); [|discriminate].
    destruct (in_cset ic neg cs a); [eauto | discriminate].
  - simpl in H. destruct (IH1 _ _ _ H) as [y Hy]. exact (IH2 _ _ _ Hy).
  - simpl in H. unfold orelse in H. destruct (m input ic r1 x k) eqn:E.
    + injection H as <-. exact (IH1 _ _ _ E).
    + exact (IH2 _ _ _ H).
  - rewrite m_Rep in H.
    apply (repeat_loop_continues _ _ _ _ _ (fun x d => IH x d z) _ _ _ _ H).
  - simpl in H. destruct (IH _ _ _ H) as [y Hy]. eauto.
  - simpl in H. destruct (lookup_cap i (captures x)) as [[s e]|]; [|eauto].
    destruct (matches_at input ic (slice input s e) (endIndex x)); [eauto | discriminate].
  - simpl in H. destruct (m input ic r' x (fun y => Some y)) as [y|]; destruct neg;
      try discriminate; eauto.
  - simpl in H. destruct (endIndex x =? 0)%nat; [eauto | discriminate].
  - simpl in H. destruct (endIndex x =? length input)%nat; [eauto | discriminate].
  - simpl in H. destruct (at_boundary input (endIndex x)); [eauto | discriminate].
  - simpl in H. destruct (at_boundary input (endIndex x)); [discriminate | eauto].
Qed.

Lemma scan_match (r : regex) (fuel i j : nat) (y : mstate) :
  scan input ic r fuel i = Some (j, y) -> match_at input ic r j = Some y.
Proof.
  revert i. induction fuel as [|fuel IH]; intros i H; simpl in H; [discriminate|].
  destruct (match_at input ic r i) eqn:E.
  - injection H as <- <-. exact E.
  - exact (IH _ H).
Qed.

End MatchFacts.

(** A successful [test] is a match of the pattern at some index. *)
Lemma test_match (R : RegExp) (S : string) :
  fst (test R S) = true ->
  exists j y, match_at (chars S) (ignoreCase R) (source R) j = Some y.
Proof.
  unfold test, exec. intros H.
  destruct (scan _ _ _ _ _) as [[j y]|] eqn:E; [|discriminate].
  exists j, y. exact (scan_match _ _ _ _ _ _ _ E).
Qed.

Lemma nth_error_last {A : Type} (l : list A) (n : nat) (c d : A) :
  nth_error l n = Some c -> S n = length l -> last l d = c.
Proof.
  revert n. induction l as [|a l IH]; intros n Hn Hlen; [discriminate|].
  destruct n as [|n]; simpl in *.
  - injection Hn as <-. destruct l; [reflexivity | discriminate].
  - destruct l as [|b l]; [destruct n; discriminate|].
    apply (IH n Hn). simpl in *. lia.
Qed.

(** ** The description *)

(** A text of the shape of a description begins and ends with a
    character that is not white space. *)
Lemma description_shape_ends (value : string) :
  fst (test patterns.description value) = true ->
  exists c n c2,
    nth_error (chars value) 0 = Some c /\ isWhiteSpace c = false
    /\ nth_error (chars value) n = Some c2 /\ S n = length (chars value)
    /\ isWhiteSpace c2 = false.
Proof.
  intros H. destruct (test_match _ _ H) as [j [y Hm]]. clear H.
  unfold match_at in Hm. simpl source in Hm. simpl ignoreCase in Hm.
  remember (chars value) as input eqn:Einput. clear Einput.
  change (m input false (Cat Bol ?r) ?x ?k)
    with (m input false Bol x (fun y => m input false r y k)) in Hm.
  change (m input false Bol ?x ?k)
    with (if (endIndex x =? 0)%nat then k x else None) in Hm.
  simpl endIndex in Hm.
  destruct (j =? 0)%nat eqn:Ej; [|discriminate].
  apply Nat.eqb_eq in Ej. subst j.
  change (m input false (Cat ?a ?r) ?x ?k)
    with (m input false a x (fun y => m input false r y k)) in Hm.
  change (m input false (Cset ?n ?cs) ?x ?k)
    with (step_char input (in_cset false n cs) x k) in Hm.
  unfold step_char, char_at in Hm. simpl endIndex in Hm.
  destruct (nth_error input 0) as [c|] eqn:E0; [|discriminate].
  destruct (in_cset false true [CSpace] c) eqn:Ec; [|discriminate].
  assert (Hc : isWhiteSpace c = false).
  { unfold in_cset in Ec. simpl in Ec. rewrite orb_false_r in Ec.
    apply negb_true_iff in Ec. exact Ec. }
  clear Ec. exists c.
  change (m input false (Cat ?a ?r) ?x ?k)
    with (m input false a x (fun y => m input false r y k)) in Hm.
  rewrite m_Rep in Hm.
  replace (0 + length input + 2)%nat with (S (S (length input))) in Hm by lia.
  rewrite repeat_loop_step in Hm. cbv zeta in Hm.
  change (negb (0 =? 0)%nat) with false in Hm. cbv iota in Hm.
  unfold orelse in Hm at 1.
  assert (Hend : forall y', m input false Eol y' (fun y0 => Some y0) = Some y ->
                            endIndex y' = length input).
  { intros y' Hy'. simpl in Hy'.
    destruct (endIndex y' =? length input)%nat eqn:E; [|discriminate].
    apply Nat.eqb_eq. exact E. }
  match type of Hm with
  | match ?body with _ => _ end = _ => destruct body as [z|] eqn:Ebody
  end.
  - injection Hm as ->.
    change (m input false (Cat ?a ?r) ?x ?k)
      with (m input false a x (fun y => m input false r y k)) in Ebody.
    destruct (m_continues _ _ _ _ _ _ Ebody) as [y1 Hy1].
    change (m input false (Cset ?n ?cs) ?x ?k)
      with (step_char input (in_cset false n cs) x k) in Hy1.
    unfold step_char, char_at in Hy1.
    destruct (nth_error input (endIndex y1)) as [c2|] eqn:Enth; [|discriminate].
    destruct (in_cset false true [CSpace] c2) eqn:Ec2; [|discriminate].
    simpl endIndex in Hy1.
    destruct ((0 =? 0)%nat && (S (endIndex y1) =? 1)%nat); [discriminate|].
    rewrite repeat_loop_step in Hy1. simpl option_map in Hy1. cbv iota in Hy1.
    apply Hend in Hy1. simpl in Hy1.
    exists (endIndex y1), c2. repeat split; try assumption.
    unfold in_cset in Ec2. simpl in Ec2. rewrite orb_false_r in Ec2.
    apply negb_true_iff in Ec2. exact Ec2.
  - apply Hend in Hm. simpl in Hm.
    exists 0%nat, c. repeat split; assumption.
Qed.

(** X1: a description that is accepted has from 3 to 100 characters,
    begins and ends with a character that is not white space, and has
    no word repeated at once. *)
Theorem validateDescription_accepted :
  forall value : string,
    valid (validateDescription value) = true ->
    3 <= String.length value <= 100
    /\ (exists c n c2,
          nth_error (chars value) 0 = Some c /\ isWhiteSpace c = false
          /\ nth_error (chars value) n = Some c2 /\ S n = length (chars value)
          /\ isWhiteSpace c2 = false)
    /\ fst (test patterns.duplicateWords value) = false.
Proof.
  intros value. unfold validateDescription.
  destruct (blank value); [discriminate|].
  destruct (fst (test patterns.description value)) eqn:Eshape; [|discriminate].
  destruct (fst (test patterns.duplicateWords value)); [discriminate|].
  simpl negb. cbv iota.
  destruct (Nat.ltb_spec (String.length value) 3); [discriminate|].
  destruct (Nat.ltb_spec 100 (String.length value)); [discriminate|].
  intros _. split; [lia|]. split; [|reflexivity].
  apply description_shape_ends. exact Eshape.
Qed.

Lemma validateDescription_accepted_witness :
  3 <= String.length "Lunch at cafeteria" <= 100
  /\ (exists c n c2,
        nth_error (chars "Lunch at cafeteria") 0 = Some c /\ isWhiteSpace c = false
        /\ nth_error (chars "Lunch at cafeteria") n = Some c2
        /\ S n = length (chars "Lunch at cafeteria")
        /\ isWhiteSpace c2 = false)
  /\ fst (test patterns.duplicateWords "Lunch at cafeteria") = false.
Proof.
  apply (validateDescription_accepted "Lunch at cafeteria"). reflexivity.
Defined.

(** ** The amount *)

Lemma read_digits_count (l : list ascii) :
  forall (acc : Z) (n : nat), n <= snd (fst (read_digits acc n l)).
Proof.
  induction l as [|c l IH]; intros acc n; simpl; [lia|].
  destruct (isDigit c); [|simpl; lia].
  apply Nat.le_trans with (S n); [lia | apply IH].
Qed.

(** A text that begins with a digit is read as a number. *)
Lemma parseFloat_digit_first (value : string) (c : ascii) (l : list ascii) :
  chars value = c :: l -> isDigit c = true -> exists q, parseFloat value = Some q.
Proof.
  intros Hchars Hd. unfold parseFloat. rewrite Hchars.
  assert (Hw : isWhiteSpace c = false).
  { unfold isDigit, isWhiteSpace, between in *.
    apply andb_true_iff in Hd. destruct Hd as [H1 H2].
    apply Nat.leb_le in H1, H2.
    destruct (Nat.leb_spec 9 (code c)), (Nat.leb_spec (code c) 13),
             (Nat.eqb_spec (code c) 32), (Nat.eqb_spec (code c) 160);
      simpl; try reflexivity; lia. }
  simpl trimStart. rewrite Hw.
  assert (Hsign : (match c :: l with
                   | "+"%char :: t => (1%Z, t)
                   | "-"%char :: t => ((-1)%Z, t)
                   | _ => (1%Z, c :: l)
                   end) = (1%Z, c :: l)).
  { destruct c as [b0 b1 b2 b3 b4 b5 b6 b7].
    destruct b0, b1, b2, b3, b4, b5, b6, b7; try discriminate Hd; reflexivity. }
  rewrite Hsign. simpl read_digits. rewrite Hd.
  match goal with
  | |- context [read_digits ?a 1 l] =>
      pose proof (read_digits_count l a 1) as Hcount;
      destruct (read_digits a 1 l) as [[ip n1] l2]
  end.
  simpl in Hcount.
  destruct (match l2 with
            | "."%char :: t => read_digits 0 0 t
            | _ => (0%Z, 0, l2)
            end) as [[fp n2] l3].
  destruct n1 as [|n1]; [lia|]. simpl. eexists. reflexivity.
Qed.

(** A text of the shape of an amount begins with a digit. *)
Lemma amount_shape_digit (value : string) :
  fst (test patterns.amount value) = true ->
  exists c l, chars value = c :: l /\ isDigit c = true.
Proof.
  intros H. destruct (test_match _ _ H) as [j [y Hm]]. clear H.
  unfold match_at in Hm. simpl source in Hm. simpl ignoreCase in Hm.
  remember (chars value) as input eqn:Einput. clear Einput.
  change (m input false (Cat Bol ?r) ?x ?k)
    with (m input false Bol x (fun y => m input false r y k)) in Hm.
  change (m input false Bol ?x ?k)
    with (if (endIndex x =? 0)%nat then k x else None) in Hm.
  simpl endIndex in Hm.
  destruct (j =? 0)%nat eqn:Ej; [|discriminate].
  apply Nat.eqb_eq in Ej. subst j.
  change (m input false (Cat (Grp 1 (Alt ?a (Cat ?b ?r1))) ?r) ?x ?k)
    with (orelse (m input false a x
                    (fun y1 => (fun y => m input false r y k)
                                 (MState (endIndex y1)
                                    ((1, (endIndex x, endIndex y1)) :: captures y1))))
                 (fun _ => m input false b x
                    (fun y0 => m input false r1 y0
                       (fun y1 => (fun y => m input false r y k)
                                    (MState (endIndex y1)
                                       ((1, (endIndex x, endIndex y1)) :: captures y1))))))
    in Hm.
  unfold orelse in Hm.
  assert (Hfirst : exists c, nth_error input 0 = Some c /\ isDigit c = true).
  { match type of Hm with
    | match ?first with _ => _ end = _ => destruct first as [z|] eqn:E
    end.
    - change (m input false (Lit ?a) ?x ?k)
        with (step_char input (char_eqb false a) x k) in E.
      unfold step_char, char_at in E. simpl endIndex in E.
      destruct (nth_error input 0) as [c|]; [|discriminate].
      destruct (char_eqb false "0" c) eqn:Ec; [|discriminate].
      exists c. split; [reflexivity|].
      unfold char_eqb, canon in Ec. apply Nat.eqb_eq in Ec.
      unfold isDigit, between. rewrite <- Ec. reflexivity.
    - change (m input false (Cset ?n ?cs) ?x ?k)
        with (step_char input (in_cset false n cs) x k) in Hm.
      unfold step_char, char_at in Hm. simpl endIndex in Hm.
      destruct (nth_error input 0) as [c|]; [|discriminate].
      destruct (in_cset false false [CRange "1" "9"] c) eqn:Ec; [|discriminate].
      exists c. split; [reflexivity|].
      unfold in_cset in Ec. simpl in Ec. rewrite !orb_false_r in Ec.
      unfold isDigit, between in *. change (code "1") with 49 in Ec.
      change (code "9") with 57 in Ec.
      apply andb_true_iff in Ec. destruct Ec as [H1 H2].
      apply Nat.leb_le in H1. rewrite H2, andb_true_r. apply Nat.leb_le. lia. }
  destruct Hfirst as [c [Hc Hd]].
  destruct input as [|c' l]; [discriminate|]. injection Hc as ->.
  exists c, l. split; [reflexivity | exact Hd].
Qed.

(** The checks that follow the shape in [validateAmount] bound the
    number read. *)
Lemma accepted_amount_parsed (value : string) :
  valid (validateAmount value) = true ->
  exists q, parseFloat value = Some q /\ (0 < q)%Q /\ (q <= 99999999 # 100)%Q.
Proof.
  unfold validateAmount.
  destruct (blank value); [discriminate|].
  destruct (fst (test patterns.amount value)) eqn:Eshape; [|discriminate].
  simpl negb. cbv iota.
  destruct (amount_shape_digit value Eshape) as [c [l [Hchars Hd]]].
  destruct (parseFloat_digit_first value c l Hchars Hd) as [q Hq].
  rewrite Hq. unfold num_leb, num_gtb.
  destruct (Qle_bool q 0) eqn:E0; [discriminate|].
  destruct (Qle_bool q (99999999 # 100)) eqn:E1; simpl; [|discriminate].
  intros _. exists q. split; [reflexivity|]. split.
  - apply Qnot_le_lt. intros Hle. apply Qle_bool_iff in Hle. congruence.
  - apply Qle_bool_iff. exact E1.
Qed.

(** X2: an amount that is accepted is read as a number above zero and
    at most 999999.99. *)
Theorem validateAmount_accepted :
  forall value : string,
    valid (validateAmount value) = true ->
    exists q, parseFloat value = Some q /\ (0 < q)%Q /\ (q <= 99999999 # 100)%Q.
Proof. exact accepted_amount_parsed. Qed.

Lemma validateAmount_accepted_witness :
  exists q, parseFloat "12.50" = Some q /\ (0 < q)%Q /\ (q <= 99999999 # 100)%Q.
Proof. apply (validateAmount_accepted "12.50"). reflexivity. Defined.

(** ** Required fields *)

Lemma trimStart_nil (l : list ascii) :
  trimStart l = [] <-> forallb isWhiteSpace l = true.
Proof.
  induction l as [|c l IH]; simpl; [tauto|].
  destruct (isWhiteSpace c); simpl; [exact IH|].
  split; discriminate.
Qed.

(** What [trimStart] leaves is a final part of the text, so what is all
    white space stays so. *)
Lemma trimStart_suffix (l : list ascii) : exists p, l = p ++ trimStart l.
Proof.
  induction l as [|c l [p IH]]; simpl; [exists []; reflexivity|].
  destruct (isWhiteSpace c).
  - exists (c :: p). simpl. rewrite <- IH. reflexivity.
  - exists []. reflexivity.
Qed.

Lemma str_nil (l : list ascii) : String.eqb (str l) "" = true <-> l = [].
Proof. destruct l; simpl; split; congruence. Qed.

(** [trim] leaves nothing exactly of a text of white space. *)
Lemma trim_empty (value : string) :
  String.eqb (trim value) "" = forallb isWhiteSpace (chars value).
Proof.
  unfold trim. set (l := chars value).
  destruct (forallb isWhiteSpace l) eqn:E.
  - apply trimStart_nil in E. rewrite E. reflexivity.
  - destruct (String.eqb _ "") eqn:E'; [|reflexivity].
    apply str_nil in E'.
    assert (Hr : trimStart (rev (trimStart l)) = []).
    { rewrite <- (rev_involutive (trimStart (rev (trimStart l)))), E'. reflexivity. }
    apply trimStart_nil in Hr. rewrite forallb_forall in Hr.
    destruct (trimStart l) as [|c t] eqn:Et.
    + apply trimStart_nil in Et. congruence.
    + assert (Hc : isWhiteSpace c = true).
      { apply Hr. apply in_rev. rewrite rev_involutive. left. reflexivity. }
      simpl in Et. clear - Et Hc. exfalso.
      induction l as [|a l IH]; simpl in Et; [discriminate|].
      destruct (isWhiteSpace a) eqn:Ea; [exact (IH Et)|].
      injection Et as -> _. congruence.
Qed.

Lemma blank_all_white (value : string) :
  blank value = forallb isWhiteSpace (chars value).
Proof.
  unfold blank. rewrite trim_empty.
  destruct (String.eqb value "") eqn:E; [|reflexivity].
  apply String.eqb_eq in E. subst. reflexivity.
Qed.

(** X3: a category is accepted exactly when it has a character that is
    not white space; otherwise the message asks for it. *)
Theorem validateCategory_accepted :
  forall value : string,
    valid (validateCategory value)
    = existsb (fun c => negb (isWhiteSpace c)) (chars value)
    /\ (valid (validateCategory value) = false ->
        message (validateCategory value) = "Category is required").
Proof.
  intros value. unfold validateCategory. rewrite blank_all_white.
  assert (H : forall l, forallb isWhiteSpace l
                        = negb (existsb (fun c => negb (isWhiteSpace c)) l)).
  { induction l as [|c l IH]; [reflexivity|]. simpl. rewrite IH.
    destruct (isWhiteSpace c); reflexivity. }
  rewrite H. destruct (existsb _ _); simpl; split; congruence.
Qed.

(** ** The whole form *)

(** X4: the form is valid exactly when the four fields are; every field
    is checked whatever the others give, and the errors name the
    failing fields, in the order description, amount, date, category. *)
Theorem validateTransaction_all_fields :
  forall (host : Host) (data : form),
    fst (validateTransaction data)
    = valid (validateDescription (form_description data))
      && valid (validateAmount (form_amount data))
      && valid (validateDate (form_date data))
      && valid (validateCategory (form_category data))
    /\ map fst (snd (validateTransaction data))
       = filter (fun field => negb (field_valid data field))
                ["description"; "amount"; "date"; "category"].
Proof.
  intros host data. unfold validateTransaction, field_valid. simpl filter.
  destruct (valid (validateDescription (form_description data)));
    destruct (valid (validateAmount (form_amount data)));
    destruct (valid (validateDate (form_date data)));
    destruct (valid (validateCategory (form_category data)));
    split; reflexivity.
Qed.

(** ** The date *)

(** X5: a date that is accepted has the date shape, is a date for the
    host, and is not after the midnight that began the local day of the
    clock. *)
Theorem validateDate_accepted :
  forall (host : Host) (value : string),
    valid (validateDate value) = true ->
    fst (test patterns.date value) = true
    /\ exists tv, Date_parse value = Some tv /\ (tv <= setHours0 Date_now)%Z.
Proof.
  intros host value. unfold validateDate.
  destruct (blank value); [discriminate|].
  destruct (fst (test patterns.date value)); [|discriminate].
  simpl negb. cbv iota.
  destruct (Date_parse value) as [tv|]; [|discriminate].
  simpl nan_ltb. destruct (Z.ltb_spec (setHours0 Date_now) tv); [discriminate|].
  intros _. split; [reflexivity|]. exists tv. split; [reflexivity | assumption].
Qed.

Lemma validateDate_accepted_witness :
  fst (test patterns.date "2025-06-14") = true
  /\ exists tv, @Date_parse (morning_east true) "2025-06-14" = Some tv
                /\ (tv <= @setHours0 (morning_east true) (@Date_now (morning_east true)))%Z.
Proof. apply (validateDate_accepted (morning_east true) "2025-06-14"). reflexivity. Defined.

(** X6: a date that the host reads as a day after the local day of the
    clock is refused as a date in the future, wherever the zone lies, as
    long as its offset is less than a day. *)
Theorem validateDate_later_day_refused :
  forall (host : Host) (value : string) (d : Z),
    (forall t b, - msPerDay < LocalTZA t b < msPerDay)%Z ->
    blank value = false ->
    fst (test patterns.date value) = true ->
    Date_parse value = Some (MakeDate d 0) ->
    (Day (LocalTime Date_now) < d)%Z ->
    validateDate value = mkResult false "Date cannot be in the future".
Proof. exact validateDate_future_rejected. Qed.

Lemma validateDate_later_day_refused_witness :
  @validateDate (morning_east true) "2025-06-16"
  = mkResult false "Date cannot be in the future".
Proof.
  apply (validateDate_later_day_refused (morning_east true) "2025-06-16" 20255).
  - intros t b. simpl. unfold msPerDay. lia.
  - reflexivity.
  - reflexivity.
  - reflexivity.
  - vm_compute. reflexivity.
Defined.

(** X7: the date of the local day of the clock is accepted exactly when
    local midnight is not before midnight UTC, that is in a zone on UTC
    or west of it. *)
Theorem validateDate_local_day_by_zone :
  forall (host : Host) (value : string),
    blank value = false ->
    fst (test patterns.date value) = true ->
    Date_parse value = Some (MakeDate (Day (LocalTime Date_now)) 0) ->
    valid (validateDate value)
    = (LocalTZA (MakeDate (Day (LocalTime Date_now)) 0) false <=? 0)%Z.
Proof. exact validateDate_today. Qed.

Lemma validateDate_local_day_by_zone_witness :
  valid (@validateDate (model_host 1749974400000 (-18000000) true) "2025-06-15")
  = (@LocalTZA (model_host 1749974400000 (-18000000) true)
       (MakeDate (Day (@LocalTime (model_host 1749974400000 (-18000000) true)
                         (@Date_now (model_host 1749974400000 (-18000000) true)))) 0)
       false <=? 0)%Z.
Proof.
  apply (validateDate_local_day_by_zone
           (model_host 1749974400000 (-18000000) true) "2025-06-15").
  - reflexivity.
  - reflexivity.
  - reflexivity.
Defined.

(** X8: on a list without [null] or [undefined] elements, whose dates
    can be converted to text, the import validator returns; the result
    is valid exactly when every element meets the seven checks, and
    otherwise the message names the position, counted from one, of the
    first element that does not. *)
Theorem validateImportData_first_failure :
  forall (host : Host) (records : list value),
    forallb readable records = true ->
    exists r,
      validateImportData (VArray records) = Normal r
      /\ valid r = forallb record_ok records
      /\ (valid r = false ->
          exists n v what,
            nth_error records n = Some v
            /\ record_ok v = false
            /\ forallb record_ok (firstn n records) = true
            /\ message r = record_message n what).
Proof. exact validateImportData_readable. Qed.

Lemma validateImportData_first_failure_witness :
  exists r,
    @validateImportData (morning_east true) (VArray [seed_record; VString "x"]) = Normal r
    /\ valid r = forallb (@record_ok (morning_east true)) [seed_record; VString "x"]
    /\ (valid r = false ->
        exists n v what,
          nth_error [seed_record; VString "x"] n = Some v
          /\ @record_ok (morning_east true) v = false
          /\ forallb (@record_ok (morning_east true))
                     (firstn n [seed_record; VString "x"]) = true
          /\ message r = record_message n what).
Proof.
  apply (validateImportData_first_failure (morning_east true)
           [seed_record; VString "x"]).
  reflexivity.
Defined.

(* ================================================================= *)
(** * Further properties of the search *)

Lemma chars_append (a b : string) : chars (a ++ b)%string = chars a ++ chars b.
Proof.
  induction a as [|c a IH]; simpl; [reflexivity|].
  unfold chars in *. simpl. rewrite IH. reflexivity.
Qed.

Lemma contains_char_append (c : ascii) (a b : string) :
  contains_char c (a ++ b)%string = contains_char c a || contains_char c b.
Proof. unfold contains_char. rewrite chars_append. apply existsb_app. Qed.

Lemma contains_char_concat (c : ascii) (l : list string) :
  contains_char c (String.concat "" l) = existsb (contains_char c) l.
Proof.
  induction l as [|a l IH]; [reflexivity|].
  destruct l as [|b l].
  - simpl. rewrite orb_false_r. reflexivity.
  - change (String.concat "" (a :: b :: l)) with (a ++ "" ++ String.concat "" (b :: l))%string.
    rewrite !contains_char_append, IH.
    change (contains_char c "") with false. simpl. reflexivity.
Qed.

Lemma escapeHtml_brackets (text : string) :
  contains_char "<" (escapeHtml text) = false
  /\ contains_char ">" (escapeHtml text) = false.
Proof.
  unfold escapeHtml.
  destruct (String.eqb text ""); [split; reflexivity|].
  rewrite !contains_char_concat.
  induction (chars text) as [|c l [IH1 IH2]]; [split; reflexivity|].
  simpl. rewrite IH1, IH2.
  destruct (escapeChar_safe c) as [H1 H2]. rewrite H1, H2. split; reflexivity.
Qed.

(** X9: the text that [escapeHtml] returns has no angle bracket, whatever
    it is given. *)
Theorem escapeHtml_no_angle_bracket :
  forall text : string,
    contains_char "<" (escapeHtml text) = false
    /\ contains_char ">" (escapeHtml text) = false.
Proof. exact escapeHtml_brackets. Qed.

(** X10: without a pattern, or with a pattern that does not match, the
    text is returned escaped and unmarked, so free of angle brackets. *)
Theorem highlight_unmatched_is_escaped :
  forall (text : string) (regex : option RegExp),
    match regex with
    | None => True
    | Some R => fst (test R text) = false
    end ->
    fst (highlight text regex) = escapeHtml text
    /\ contains_char "<" (fst (highlight text regex)) = false
    /\ contains_char ">" (fst (highlight text regex)) = false.
Proof.
  intros text regex H.
  assert (Heq : fst (highlight text regex) = escapeHtml text).
  { destruct regex as [R|]; [apply highlight_no_match; exact H | reflexivity]. }
  rewrite Heq. split; [reflexivity | apply escapeHtml_brackets].
Qed.

Lemma highlight_unmatched_witness :
  fst (highlight "<b>Lunch</b>" (Some script_i)) = escapeHtml "<b>Lunch</b>"
  /\ contains_char "<" (fst (highlight "<b>Lunch</b>" (Some script_i))) = false
  /\ contains_char ">" (fst (highlight "<b>Lunch</b>" (Some script_i))) = false.
Proof.
  apply (highlight_unmatched_is_escaped "<b>Lunch</b>" (Some script_i)). reflexivity.
Defined.

(** [test] changes nothing of the pattern but [lastIndex]. *)
Lemma test_same_pattern (R : RegExp) (S : string) :
  source (snd (test R S)) = source R
  /\ ignoreCase (snd (test R S)) = ignoreCase R
  /\ global (snd (test R S)) = global R.
Proof.
  unfold test, exec.
  destruct (scan _ _ _ _ _) as [[i y]|]; destruct (global R) eqn:E;
    simpl; rewrite ?E; repeat split; reflexivity.
Qed.

Section SearchFacts.

Context {host : Host}.

Lemma filter_test_kept (ts : list Transaction) :
  forall R : RegExp,
    subsequence (fst (filter_test R ts)) ts
    /\ (forall t, In t (fst (filter_test R ts)) ->
          exists j y, match_at (chars (searchableText t)) (ignoreCase R) (source R) j
                      = Some y).
Proof.
  induction ts as [|t ts IH]; intros R; simpl.
  - split; [constructor | intros t []].
  - destruct (test R (searchableText t)) as [keep R1] eqn:Etest.
    destruct (test_same_pattern R (searchableText t)) as [Hs [Hi _]].
    rewrite Etest in Hs, Hi. simpl in Hs, Hi.
    destruct (IH R1) as [Hsub Hmatch].
    destruct (filter_test R1 ts) as [kept R2]. simpl in *.
    rewrite Hs, Hi in Hmatch.
    destruct keep; simpl.
    + split; [constructor; exact Hsub|].
      intros t' [<-|Hin]; [|exact (Hmatch t' Hin)].
      apply test_match. rewrite Etest. reflexivity.
    + split; [constructor; exact Hsub | exact Hmatch].
Qed.

(** X11: whatever the pattern and its flags, the records a search
    returns are records of the list it was given, in their order, and
    the text of each has a match of the pattern. *)
Theorem searchTransactions_kept :
  forall (ts : list Transaction) (regex : option RegExp),
    subsequence (fst (searchTransactions ts regex)) ts
    /\ (forall R t, regex = Some R -> In t (fst (searchTransactions ts regex)) ->
          exists j y, match_at (chars (searchableText t)) (ignoreCase R) (source R) j
                      = Some y).
Proof.
  intros ts [R|]; simpl.
  - destruct (filter_test_kept ts R) as [Hsub Hmatch].
    destruct (filter_test R ts) as [kept R']. simpl in *.
    split; [exact Hsub|]. intros R0 t [= <-]. apply Hmatch.
  - split; [|discriminate]. induction ts; constructor; assumption.
Qed.

Lemma filter_test_not_global (R : RegExp) (ts : list Transaction) :
  global R = false ->
  filter_test R ts
  = (filter (fun t => fst (test R (searchableText t))) ts, R).
Proof.
  intros Hg. induction ts as [|t ts IH]; simpl; [reflexivity|].
  pose proof (test_not_global R (searchableText t) Hg) as Hsame.
  destruct (test R (searchableText t)) as [keep R1]. simpl in Hsame. subst R1.
  rewrite IH. simpl. destruct keep; reflexivity.
Qed.

(** X12: with a pattern that has no global flag, the search is the
    filter of the records whose text the pattern matches, each record
    judged on its own, and the pattern object is left as it was. *)
Theorem searchTransactions_not_global :
  forall (ts : list Transaction) (R : RegExp),
    global R = false ->
    searchTransactions ts (Some R)
    = (filter (fun t => fst (test R (searchableText t))) ts, Some R).
Proof.
  intros ts R Hg. unfold searchTransactions.
  rewrite (filter_test_not_global R ts Hg). reflexivity.
Qed.

End SearchFacts.

Lemma searchTransactions_not_global_witness :
  @searchTransactions (morning_east true) [june_15; june_12; june_5] (Some script_i)
  = (filter (fun t => fst (test script_i (@searchableText (morning_east true) t)))
            [june_15; june_12; june_5], Some script_i).
Proof.
  apply (@searchTransactions_not_global (morning_east true)
           [june_15; june_12; june_5] script_i).
  reflexivity.
Defined.

(* ================================================================= *)
(** * Further properties of the sorted view *)

(** X13: the sorted view holds the records of the store, each as often
    as the store does, whatever the field, the direction and the
    values. *)
Theorem getSortedTransactions_permutation :
  forall (host : Host) (state : State),
    Permutation (getSortedTransactions state) (transactions state).
Proof.
  intros host state. unfold getSortedTransactions.
  destruct (currentSort state) as [field ascending]. apply sort_perm.
Qed.

Section StableSort.

Context {A : Type}.
Variable leb : A -> A -> bool.
Hypothesis leb_total : forall a b, leb a b = true \/ leb b a = true.
Hypothesis leb_trans : forall a b c, leb a b = true -> leb b c = true -> leb a c = true.

Lemma insert_up_level (x a : A) (s : list A) :
  filter (levelb leb x) (insert (up leb) a s)
  = if levelb leb x a then a :: filter (levelb leb x) s else filter (levelb leb x) s.
Proof.
  induction s as [|y s IH]; simpl; [reflexivity|].
  unfold up at 1. destruct (leb a y) eqn:Eay; simpl; [reflexivity|].
  rewrite IH. destruct (levelb leb x a) eqn:Exa; [|reflexivity].
  replace (levelb leb x y) with false; [reflexivity|].
  symmetry. unfold levelb in *. apply andb_true_iff in Exa. destruct Exa as [Hxa Hax].
  destruct (leb x y) eqn:Exy; [|reflexivity].
  rewrite (leb_trans a x y Hax Exy) in Eay. discriminate.
Qed.

Lemma insert_down_level (x a : A) (s : list A) :
  filter (levelb leb x) (insert (down leb) a s)
  = if levelb leb x a then a :: filter (levelb leb x) s else filter (levelb leb x) s.
Proof.
  induction s as [|y s IH]; simpl; [reflexivity|].
  unfold down at 1. destruct (leb y a) eqn:Eya; simpl; [reflexivity|].
  rewrite IH. destruct (levelb leb x a) eqn:Exa; [|reflexivity].
  replace (levelb leb x y) with false; [reflexivity|].
  symmetry. unfold levelb in *. apply andb_true_iff in Exa. destruct Exa as [Hxa Hax].
  destruct (leb y x) eqn:Eyx; [|apply andb_false_r].
  rewrite (leb_trans y x a Eyx Hxa) in Eya. discriminate.
Qed.

(** Both sorts keep the elements of one level in the order they had. *)
Lemma sort_level (x : A) (l : list A) :
  filter (levelb leb x) (sort (up leb) l) = filter (levelb leb x) l
  /\ filter (levelb leb x) (sort (down leb) l) = filter (levelb leb x) l.
Proof.
  induction l as [|a l [IHu IHd]]; simpl; [split; reflexivity|].
  rewrite insert_up_level, insert_down_level, IHu, IHd.
  destruct (levelb leb x a); split; reflexivity.
Qed.

End StableSort.

Section ViewOrder.

Context {host : Host}.

Lemma sorted_view_as_preorder (field : sort_field) (ascending : bool)
      (ts : list Transaction) :
  Forall (fun t => comparable field t = true) ts ->
  sort (compareFn field ascending) ts
  = sort (if ascending then up (key_leb field) else down (key_leb field)) ts.
Proof.
  intros Hcmp. rewrite Forall_forall in Hcmp.
  apply sort_ext. intros x y Hx Hy.
  destruct ascending; [apply compareFn_up | apply compareFn_down]; apply Hcmp; assumption.
Qed.

(** X14: when every value of the field can be compared, the view is in
    the order of its direction. *)
Theorem getSortedTransactions_sorted :
  forall (state : State) (field : sort_field) (ascending : bool),
    currentSort state = (field, ascending) ->
    Forall (fun t => comparable field t = true) (transactions state) ->
    StronglySorted (in_order field ascending) (getSortedTransactions state).
Proof.
  intros state field ascending Hsort Hcmp.
  unfold getSortedTransactions. rewrite Hsort.
  rewrite (sorted_view_as_preorder _ _ _ Hcmp).
  rewrite Forall_forall in Hcmp.
  assert (Hin : forall cmp a, In a (sort cmp (transactions state)) ->
                              comparable field a = true).
  { intros cmp a Ha. apply Hcmp. exact (Permutation_in _ (sort_perm cmp _) Ha). }
  destruct ascending.
  - apply (StronglySorted_impl_In (precedes (key_leb field))).
    + intros a b Ha Hb Hab. unfold precedes in Hab. unfold in_order.
      rewrite (key_leb_ltb field a b (Hin _ a Ha) (Hin _ b Hb)) in Hab.
      apply negb_true_iff. exact Hab.
    + apply sort_up_sorted; [apply key_leb_total | apply key_leb_trans].
  - apply (StronglySorted_impl_In (follows (key_leb field))).
    + intros a b Ha Hb Hab. unfold follows in Hab. unfold in_order.
      rewrite (key_leb_ltb field b a (Hin _ b Hb) (Hin _ a Ha)) in Hab.
      apply negb_true_iff. exact Hab.
    + apply sort_down_sorted; [apply key_leb_total | apply key_leb_trans].
Qed.

(** X15: the sort is stable in both directions: the records tied with
    a given record stand in the view in the order they have in the
    store. *)
Theorem getSortedTransactions_stable :
  forall (state : State) (field : sort_field) (ascending : bool) (x : Transaction),
    currentSort state = (field, ascending) ->
    Forall (fun t => comparable field t = true) (transactions state) ->
    comparable field x = true ->
    filter (tiedb field x) (getSortedTransactions state)
    = filter (tiedb field x) (transactions state).
Proof.
  intros state field ascending x Hsort Hcmp Hx.
  unfold getSortedTransactions. rewrite Hsort.
  rewrite (sorted_view_as_preorder _ _ _ Hcmp).
  rewrite Forall_forall in Hcmp.
  assert (Hlevel : forall l, (forall t, In t l -> comparable field t = true) ->
                             filter (tiedb field x) l
                             = filter (levelb (key_leb field) x) l).
  { intros l Hl. apply filter_ext_in. intros t Ht. unfold tiedb, levelb.
    rewrite (key_leb_ltb field x t Hx (Hl t Ht)).
    rewrite (key_leb_ltb field t x (Hl t Ht) Hx). apply andb_comm. }
  rewrite (Hlevel (transactions state) Hcmp).
  rewrite Hlevel.
  2:{ intros t Ht. apply Hcmp. exact (Permutation_in _ (sort_perm _ _) Ht). }
  destruct (sort_level (key_leb field) (key_leb_trans field) x (transactions state))
    as [Hu Hd].
  destruct ascending; assumption.
Qed.

End ViewOrder.

Lemma getSortedTransactions_sorted_witness :
  StronglySorted (@in_order (morning_east true) f_category true)
    (@getSortedTransactions (morning_east true) (setSort f_category true (store food_books_tie))).
Proof.
  apply (@getSortedTransactions_sorted (morning_east true)
           (setSort f_category true (store food_books_tie)) f_category true).
  - reflexivity.
  - simpl. repeat constructor.
Defined.

Lemma getSortedTransactions_stable_witness :
  filter (@tiedb (morning_east true) f_category june_15)
    (@getSortedTransactions (morning_east true)
       (setSort f_category false (store food_books_tie)))
  = filter (@tiedb (morning_east true) f_category june_15)
      (transactions (setSort f_category false (store food_books_tie))).
Proof.
  apply (@getSortedTransactions_stable (morning_east true)
           (setSort f_category false (store food_books_tie)) f_category false june_15).
  - reflexivity.
  - simpl. repeat constructor.
  - reflexivity.
Defined.

(* ================================================================= *)
(** * Further properties of the store *)

Lemma getItem_setItem (key value : string) (items : list (string * string)) :
  getItem key (setItem key value items) = Some value.
Proof.
  induction items as [|[k v] items IH]; simpl.
  - rewrite String.eqb_refl. reflexivity.
  - destruct (String.eqb k key) eqn:E; simpl; rewrite E; [reflexivity | exact IH].
Qed.

Lemma find_app {A : Type} (f : A -> bool) (l1 l2 : list A) :
  find f (l1 ++ l2) = match find f l1 with
                      | Some x => Some x
                      | None => find f l2
                      end.
Proof.
  induction l1 as [|a l1 IH]; simpl; [reflexivity|].
  destruct (f a); [reflexivity | exact IH].
Qed.

Lemma find_none_not_first {A : Type} (f : A -> bool) (l : list A) :
  (forall x, In x l -> f x = false) -> find f l = None.
Proof.
  induction l as [|a l IH]; intros H; simpl; [reflexivity|].
  rewrite (H a (or_introl eq_refl)). apply IH. intros x Hx. apply H. right. exact Hx.
Qed.

(** The index that [findIndex] gives is that of the first record with
    the id. *)
Lemma findIndex_split (wanted : string) (ts : list Transaction) (index : nat) :
  findIndex wanted ts = Some index ->
  exists l1 t l2,
    ts = l1 ++ t :: l2 /\ length l1 = index /\ id t = wanted
    /\ (forall x, In x l1 -> String.eqb (id x) wanted = false).
Proof.
  revert index. induction ts as [|a ts IH]; intros index H; simpl in H; [discriminate|].
  destruct (String.eqb (id a) wanted) eqn:E.
  - injection H as <-. exists [], a, ts. apply String.eqb_eq in E.
    repeat split; try assumption. intros x [].
  - destruct (findIndex wanted ts) as [n|]; [|discriminate].
    injection H as <-. destruct (IH n eq_refl) as [l1 [t [l2 [-> [Hlen [Hid Hbefore]]]]]].
    exists (a :: l1), t, l2. simpl. repeat split; try congruence.
    intros x [<-|Hx]; [exact E | exact (Hbefore x Hx)].
Qed.

Lemma findIndex_none (wanted : string) (ts : list Transaction) :
  findIndex wanted ts = None <-> find (fun t => String.eqb (id t) wanted) ts = None.
Proof.
  induction ts as [|a ts IH]; simpl; [tauto|].
  destruct (String.eqb (id a) wanted); [split; discriminate|].
  destruct (findIndex wanted ts); simpl; split; intros H;
    try discriminate; try (apply IH; exact H); try reflexivity.
  apply IH in H. discriminate.
Qed.

Lemma splice_out_app {A : Type} (l1 l2 : list A) (x : A) :
  splice_out (length l1) (l1 ++ x :: l2) = l1 ++ l2.
Proof. induction l1 as [|a l1 IH]; simpl; [reflexivity | rewrite IH; reflexivity]. Qed.

Lemma replace_at_app {A : Type} (l1 l2 : list A) (x y : A) :
  replace_at (length l1) y (l1 ++ x :: l2) = l1 ++ y :: l2.
Proof. induction l1 as [|a l1 IH]; simpl; [reflexivity | rewrite IH; reflexivity]. Qed.

Lemma nth_error_middle {A : Type} (l1 l2 : list A) (x : A) :
  nth_error (l1 ++ x :: l2) (length l1) = Some x.
Proof. induction l1 as [|a l1 IH]; simpl; [reflexivity | exact IH]. Qed.

Section StoreFacts.

Context {persistence : Persistence}.

Lemma save_and_notify_done {A : Type} (result a : A) (w w' : World) :
  save_and_notify result w = (Done a, w') ->
  a = result /\ state w' = state w /\ in_sync w' /\ heard w' = heard w ++ [state w].
Proof.
  unfold save_and_notify, saveTransactions, notifyListeners, in_sync.
  destruct (storage_admits _ _ _); [|discriminate].
  intros [= <- <-]. simpl. rewrite getItem_setItem. repeat split; reflexivity.
Qed.

Lemma save_and_notify_state {A : Type} (result : A) (w : World) :
  state (snd (save_and_notify result w)) = state w.
Proof.
  unfold save_and_notify, saveTransactions, notifyListeners.
  destruct (storage_admits _ _ _); reflexivity.
Qed.

(** The two closing lines of a mutation, by what the storage says to
    the text of the records. *)
Lemma save_and_notify_outcome {A : Type} (result : A) (w : World) :
  save_and_notify result w
  = if storage_admits (localStorage w) STORAGE_KEYS.TRANSACTIONS
                      (JSON_stringify (transactions (state w)))
    then (Done result,
          mkWorld (state w)
                  (setItem STORAGE_KEYS.TRANSACTIONS
                           (JSON_stringify (transactions (state w))) (localStorage w))
                  (heard w ++ [state w]))
    else (Raised "Failed to save transactions", w).
Proof.
  unfold save_and_notify, saveTransactions, notifyListeners.
  destruct (storage_admits _ _ _); reflexivity.
Qed.

(** A record is found under an id exactly when [findIndex] gives its
    place. *)
Lemma findIndex_found (wanted : string) (ts : list Transaction) (index : nat) :
  findIndex wanted ts = Some index ->
  exists l1 t l2,
    ts = l1 ++ t :: l2 /\ length l1 = index /\ id t = wanted
    /\ (forall x, In x l1 -> String.eqb (id x) wanted = false)
    /\ find (fun x => String.eqb (id x) wanted) ts = Some t.
Proof.
  intros H. destruct (findIndex_split _ _ _ H) as [l1 [t [l2 [Hts [Hlen [Hid Hbefore]]]]]].
  exists l1, t, l2. repeat split; try assumption.
  rewrite Hts, find_app, (find_none_not_first _ l1 Hbefore). simpl.
  rewrite Hid, String.eqb_refl. reflexivity.
Qed.

Lemma forget_world {A : Type} (r : attempt A * World) : snd (forget r) = snd r.
Proof. destruct r as [[a|message] w]; reflexivity. Qed.

(** The records after a run are those the mutation put into the store,
    whether the save went through or not. *)
Lemma run_records (mu : mutation) (w : World) (out : attempt unit) (w' : World) :
  run mu w = Some (out, w') ->
  w' = w
  \/ match mu with
     | Add timestamp random now data =>
         exists parsed,
           parseFloat (form_amount data) = Some parsed
           /\ getTransactions w'
              = getTransactions w
                ++ [mkTransaction (generateId timestamp random)
                                  (trim (form_description data)) parsed
                                  (form_category data) (form_date data) now now]
     | Update wanted data now =>
         exists l1 old l2 parsed,
           getTransactions w = l1 ++ old :: l2
           /\ id old = wanted
           /\ (forall x, In x l1 -> String.eqb (id x) wanted = false)
           /\ parseFloat (form_amount data) = Some parsed
           /\ getTransactions w'
              = l1 ++ mkTransaction (id old) (trim (form_description data)) parsed
                                    (form_category data) (form_date data)
                                    (createdAt old) now :: l2
     | Delete wanted =>
         exists l1 old l2,
           getTransactions w = l1 ++ old :: l2
           /\ id old = wanted
           /\ (forall x, In x l1 -> String.eqb (id x) wanted = false)
           /\ getTransactions w' = l1 ++ l2
     | Import ts => getTransactions w' = ts
     | Clear => getTransactions w' = []
     end.
Proof.
  unfold getTransactions.
  destruct mu as [timestamp random now data | wanted data now | wanted | ts |]; simpl.
  - unfold addTransaction. destruct (parseFloat (form_amount data)) as [parsed|];
      [|discriminate].
    simpl. intros H. injection H as H. right. exists parsed. split; [reflexivity|].
    apply (f_equal snd) in H. simpl in H. rewrite forget_world in H.
    rewrite <- H, save_and_notify_state. reflexivity.
  - unfold updateTransaction.
    destruct (findIndex wanted (transactions (state w))) as [index|] eqn:Eindex.
    + destruct (findIndex_split _ _ _ Eindex) as [l1 [old [l2 [Hts [Hlen [Hid Hbefore]]]]]].
      rewrite Hts, <- Hlen, nth_error_middle.
      destruct (parseFloat (form_amount data)) as [parsed|]; [|discriminate].
      cbv iota. rewrite replace_at_app. simpl. intros H. injection H as H. right. exists l1, old, l2, parsed.
      repeat split; try assumption.
      apply (f_equal snd) in H. simpl in H. rewrite forget_world in H.
      rewrite <- H, save_and_notify_state. reflexivity.
    + simpl. intros [= _ <-]. left. reflexivity.
  - unfold deleteTransaction.
    destruct (findIndex wanted (transactions (state w))) as [index|] eqn:Eindex.
    + destruct (findIndex_split _ _ _ Eindex) as [l1 [old [l2 [Hts [Hlen [Hid Hbefore]]]]]].
      rewrite Hts, <- Hlen, splice_out_app.
      intros H. injection H as H. right. exists l1, old, l2.
      repeat split; try assumption.
      apply (f_equal snd) in H. simpl in H. rewrite forget_world in H.
      rewrite <- H, save_and_notify_state. reflexivity.
    + simpl. intros [= _ <-]. left. reflexivity.
  - intros H. injection H as H. right.
    apply (f_equal snd) in H. simpl in H. unfold importTransactions in H.
    rewrite forget_world in H. rewrite <- H, save_and_notify_state. reflexivity.
  - intros H. injection H as H. right.
    apply (f_equal snd) in H. simpl in H. unfold clearTransactions in H.
    rewrite forget_world in H. rewrite <- H, save_and_notify_state. reflexivity.
Qed.

(** The outcome of the two closing lines, with the result dropped. *)
Lemma closing_lines {A : Type} (result : A) (st : State) (w : World) :
  exists out w',
    forget (save_and_notify result (mkWorld st (localStorage w) (heard w))) = (out, w')
    /\ state w' = st
    /\ (storage_admits (localStorage w) STORAGE_KEYS.TRANSACTIONS
          (JSON_stringify (transactions (state w'))) = true ->
        out = Done tt)
    /\ (out = Done tt ->
        localStorage w'
        = setItem STORAGE_KEYS.TRANSACTIONS (JSON_stringify (transactions (state w')))
                  (localStorage w)
        /\ in_sync w'
        /\ heard w' = heard w ++ [state w'])
    /\ (storage_admits (localStorage w) STORAGE_KEYS.TRANSACTIONS
          (JSON_stringify (transactions (state w'))) = false ->
        out = Raised "Failed to save transactions"
        /\ localStorage w' = localStorage w
        /\ heard w' = heard w).
Proof.
  rewrite save_and_notify_outcome. cbn [state localStorage heard].
  destruct (storage_admits (localStorage w) STORAGE_KEYS.TRANSACTIONS
              (JSON_stringify (transactions st))) eqn:E; cbn [forget].
  - eexists. eexists. split; [reflexivity|]. cbn [state localStorage heard].
    rewrite E. split; [reflexivity|]. split; [reflexivity|]. split; [|discriminate].
    intros _. split; [reflexivity|]. split; [|reflexivity].
    unfold in_sync. cbn [state localStorage]. apply getItem_setItem.
  - eexists. eexists. split; [reflexivity|]. cbn [state localStorage heard].
    rewrite E. split; [reflexivity|]. split; [discriminate|]. split; [discriminate|].
    intros _. repeat split.
Qed.

(** What a run is, mutation by mutation: nothing when nothing is found,
    and else the closing lines on the store with its new records. *)
Lemma run_shape (mu : mutation) (w : World) :
  amount_read mu ->
  (finds_nothing mu w = true /\ run mu w = Some (Done tt, w))
  \/ (finds_nothing mu w = false
      /\ exists st,
           run mu w
           = Some (forget (save_and_notify tt (mkWorld st (localStorage w) (heard w))))).
Proof.
  assert (Hforget : forall (A : Type) (result : A) (w0 : World),
             forget (save_and_notify result w0) = forget (save_and_notify tt w0)).
  { intros A result w0. rewrite !save_and_notify_outcome.
    destruct (storage_admits _ _ _); reflexivity. }
  destruct mu as [timestamp random now data | wanted data now | wanted | ts |];
    intros Hread; unfold run, finds_nothing, getTransaction.
  - right. split; [reflexivity|]. unfold addTransaction.
    simpl in Hread. destruct (parseFloat (form_amount data)) as [parsed|]; [|congruence].
    cbn [option_map]. eexists. rewrite Hforget. reflexivity.
  - unfold updateTransaction.
    destruct (findIndex wanted (transactions (state w))) as [index|] eqn:Eindex.
    + right. destruct (findIndex_found _ _ _ Eindex)
        as [l1 [old [l2 [Hts [Hlen [Hid [Hbefore Hfind]]]]]]].
      rewrite Hfind. split; [reflexivity|].
      rewrite Hts, <- Hlen, nth_error_middle.
      simpl in Hread. destruct (parseFloat (form_amount data)) as [parsed|]; [|congruence].
      cbn [option_map]. eexists. rewrite Hforget. reflexivity.
    + left. apply findIndex_none in Eindex. rewrite Eindex. split; reflexivity.
  - unfold deleteTransaction.
    destruct (findIndex wanted (transactions (state w))) as [index|] eqn:Eindex.
    + right. destruct (findIndex_found _ _ _ Eindex)
        as [l1 [old [l2 [Hts [Hlen [Hid [Hbefore Hfind]]]]]]].
      rewrite Hfind. split; [reflexivity|].
      eexists. rewrite Hforget. reflexivity.
    + left. apply findIndex_none in Eindex. rewrite Eindex. split; reflexivity.
  - right. split; [reflexivity|]. unfold importTransactions. eexists. reflexivity.
  - right. split; [reflexivity|]. unfold clearTransactions. eexists. reflexivity.
Qed.

End StoreFacts.

(** Whatever the storage, a mutation puts the same records into the
    store. *)
Lemma run_same_state (p1 p2 : Persistence) (mu : mutation) (w : World)
      (o1 o2 : attempt unit) (v1 v2 : World) :
  @run p1 mu w = Some (o1, v1) -> @run p2 mu w = Some (o2, v2) ->
  state v1 = state v2.
Proof.
  intros H1 H2.
  destruct mu as [timestamp random now data | wanted data now | wanted | ts |];
    unfold run in H1, H2.
  - unfold addTransaction in H1, H2.
    destruct (parseFloat (form_amount data)); [|discriminate].
    cbn [option_map] in H1, H2. injection H1 as H1. injection H2 as H2.
    apply (f_equal (fun r => state (snd r))) in H1, H2.
    rewrite forget_world, (@save_and_notify_state p1) in H1.
    rewrite forget_world, (@save_and_notify_state p2) in H2. simpl in H1, H2. congruence.
  - unfold updateTransaction in H1, H2.
    destruct (findIndex wanted (transactions (state w))) as [index|] eqn:Eindex.
    + destruct (nth_error (transactions (state w)) index); [|discriminate].
      destruct (parseFloat (form_amount data)); [|discriminate].
      cbn [option_map] in H1, H2. injection H1 as H1. injection H2 as H2.
      apply (f_equal (fun r => state (snd r))) in H1, H2.
      rewrite forget_world, (@save_and_notify_state p1) in H1.
    rewrite forget_world, (@save_and_notify_state p2) in H2. simpl in H1, H2. congruence.
    + simpl in H1, H2. congruence.
  - unfold deleteTransaction in H1, H2.
    destruct (findIndex wanted (transactions (state w))) as [index|] eqn:Eindex.
    + injection H1 as H1. injection H2 as H2.
      apply (f_equal (fun r => state (snd r))) in H1, H2.
      rewrite forget_world, (@save_and_notify_state p1) in H1.
    rewrite forget_world, (@save_and_notify_state p2) in H2. simpl in H1, H2. congruence.
    + simpl in H1, H2. congruence.
  - unfold importTransactions in H1, H2. injection H1 as H1. injection H2 as H2.
    apply (f_equal (fun r => state (snd r))) in H1, H2.
    rewrite forget_world, (@save_and_notify_state p1) in H1.
    rewrite forget_world, (@save_and_notify_state p2) in H2. simpl in H1, H2. congruence.
  - unfold clearTransactions in H1, H2. injection H1 as H1. injection H2 as H2.
    apply (f_equal (fun r => state (snd r))) in H1, H2.
    rewrite forget_world, (@save_and_notify_state p1) in H1.
    rewrite forget_world, (@save_and_notify_state p2) in H2. simpl in H1, H2. congruence.
Qed.


Lemma find_id_absent (wanted : string) (ts : list Transaction) :
  find (fun t => String.eqb (id t) wanted) ts = None <-> ~ In wanted (map id ts).
Proof.
  induction ts as [|a ts IH]; simpl; [tauto|].
  destruct (String.eqb_spec (id a) wanted) as [E|E].
  - split; [discriminate | intros H; exfalso; apply H; left; exact E].
  - rewrite IH. tauto.
Qed.


Section StoreProperties.

Context {persistence : Persistence}.


(** X17: when the storage refuses the text of the records that a
    mutation leaves, the mutation throws the error of the storage
    module; the storage and the listeners see nothing, and the store
    keeps the change all the same: it is the store that the same
    mutation leaves when the write goes through. *)
Theorem failed_save_keeps_the_change :
  forall (mu : mutation) (w : World) (out : attempt unit) (w' : World),
    run mu w = Some (out, w') ->
    finds_nothing mu w = false ->
    storage_admits (localStorage w) STORAGE_KEYS.TRANSACTIONS
      (JSON_stringify (transactions (state w'))) = false ->
    out = Raised "Failed to save transactions"
    /\ localStorage w' = localStorage w
    /\ heard w' = heard w
    /\ exists w'', @run (unlimited persistence) mu w = Some (Done tt, w'')
                   /\ state w'' = state w'.
Proof.
  intros mu w out w' Hrun Hfound Hrefused.
  assert (Hread : amount_read mu).
  { destruct mu as [timestamp random now data | wanted data now | wanted | ts |];
      simpl; try exact I.
    - unfold run, addTransaction in Hrun.
      destruct (parseFloat (form_amount data)); [discriminate | discriminate Hrun].
    - unfold run, updateTransaction in Hrun. unfold finds_nothing, getTransaction in Hfound.
      destruct (findIndex wanted (transactions (state w))) as [index|] eqn:Eindex.
      + destruct (nth_error (transactions (state w)) index); [|discriminate Hrun].
        destruct (parseFloat (form_amount data)); [discriminate | discriminate Hrun].
      + apply findIndex_none in Eindex. rewrite Eindex in Hfound. discriminate. }
  destruct (run_shape mu w Hread) as [[Hnothing _] | [_ [st Hshape]]]; [congruence|].
  destruct (closing_lines tt st w) as [out0 [w0 [Hclose [Hstate [_ [_ Hfail]]]]]].
  rewrite Hshape, Hclose in Hrun. injection Hrun as <- <-.
  destruct (Hfail Hrefused) as [Hout [Hstorage Hheard]].
  split; [exact Hout|]. split; [exact Hstorage|]. split; [exact Hheard|].
  (* the same mutation on a storage with room *)
  destruct (@run_shape (unlimited persistence) mu w Hread)
    as [[Hnothing _] | [_ [st' Hshape']]]; [congruence|].
  destruct (@closing_lines (unlimited persistence) unit tt st' w)
    as [out1 [w1 [Hclose1 [_ [Hadmit1 _]]]]].
  exists w1. rewrite Hshape', Hclose1, (Hadmit1 eq_refl). split; [reflexivity|].
  apply (run_same_state (unlimited persistence) persistence mu w out1 out0).
  - rewrite Hshape', Hclose1. reflexivity.
  - rewrite Hshape, Hclose. reflexivity.
Qed.

(** X18: the record that [addTransaction] returns is the last of the
    store and carries the generated id.  [getTransaction] finds it under
    that id when no record of the store had the id; when one had, that
    older record is found and the new one is not.  The other ids find
    what they found. *)
Theorem addTransaction_then_getTransaction :
  forall (timestamp : Z) (random now : string) (data : form) (w : World)
         (t : Transaction) (w' : World),
    addTransaction timestamp random now data w = Some (Done t, w') ->
    id t = generateId timestamp random
    /\ getTransactions w' = getTransactions w ++ [t]
    /\ getTransaction (id t) w'
       = Some (match getTransaction (id t) w with
               | Some old => old
               | None => t
               end)
    /\ forall other, other <> id t -> getTransaction other w' = getTransaction other w.
Proof.
  intros timestamp random now data w t w'. unfold addTransaction.
  destruct (parseFloat (form_amount data)) as [parsed|]; [|discriminate].
  intros H. injection H as H. apply save_and_notify_done in H.
  destruct H as [-> [Hstate _]]. simpl in Hstate.
  unfold getTransaction, getTransactions. rewrite Hstate.
  cbn [transactions with_transactions id].
  split; [reflexivity|]. split; [reflexivity|]. split.
  - rewrite find_app. cbn [find id]. rewrite String.eqb_refl.
    destruct (find _ (transactions (state w))); reflexivity.
  - intros other Hother. rewrite find_app. cbn [find id].
    replace (String.eqb (generateId timestamp random) other) with false
      by (symmetry; apply String.eqb_neq; congruence).
    destruct (find _ (transactions (state w))); reflexivity.
Qed.

(** X19: the ids of the store stay distinct under every mutation, as
    long as a generated id is not one of the store and an imported list
    has distinct ids of its own; whether the save goes through or not. *)
Theorem mutations_keep_ids_distinct :
  forall (mu : mutation) (w : World) (out : attempt unit) (w' : World),
    NoDup (map id (getTransactions w)) ->
    admissible mu w ->
    run mu w = Some (out, w') ->
    NoDup (map id (getTransactions w')).
Proof.
  intros mu w out w' Hdistinct Hadm Hrun.
  destruct (run_records mu w out w' Hrun) as [-> | Hrecords]; [exact Hdistinct|].
  destruct mu as [timestamp random now data | wanted data now | wanted | ts |].
  - destruct Hrecords as [parsed [_ ->]]. rewrite map_app. simpl.
    simpl in Hadm. unfold getTransaction in Hadm. apply find_id_absent in Hadm.
    apply NoDup_rev in Hdistinct. rewrite <- (rev_involutive (_ ++ _)).
    apply NoDup_rev. rewrite rev_app_distr. simpl. constructor; [|exact Hdistinct].
    rewrite <- in_rev. exact Hadm.
  - destruct Hrecords as [l1 [old [l2 [parsed [Hts [_ [_ [_ ->]]]]]]]].
    rewrite Hts in Hdistinct. rewrite map_app in *. exact Hdistinct.
  - destruct Hrecords as [l1 [old [l2 [Hts [_ [_ ->]]]]]].
    rewrite Hts in Hdistinct. rewrite map_app in *. simpl in Hdistinct.
    exact (NoDup_remove_1 _ _ _ Hdistinct).
  - rewrite Hrecords. exact Hadm.
  - rewrite Hrecords. constructor.
Qed.

(** X20: in a store with distinct ids, [deleteTransaction] leaves no
    record under the id and leaves every other id what it found. *)
Theorem deleteTransaction_removes :
  forall (wanted : string) (w : World) (out : attempt bool) (w' : World),
    NoDup (map id (getTransactions w)) ->
    deleteTransaction wanted w = (out, w') ->
    getTransaction wanted w' = None
    /\ forall other, other <> wanted -> getTransaction other w' = getTransaction other w.
Proof.
  intros wanted w out w' Hdistinct Hdelete.
  assert (Hrun : run (Delete wanted) w = Some (fst (forget (out, w')), w')).
  { simpl. rewrite Hdelete. destruct out; reflexivity. }
  destruct (run_records _ _ _ _ Hrun) as [-> | [l1 [old [l2 [Hts [Hid [Hbefore Hafter]]]]]]].
  - split; [|reflexivity].
    unfold deleteTransaction in Hdelete. unfold getTransaction.
    destruct (findIndex wanted (transactions (state w))) eqn:Eindex.
    + exfalso. destruct (findIndex_split _ _ _ Eindex) as [k1 [t [k2 [Hts [Hlen _]]]]].
      apply (f_equal (fun r => length (transactions (state (snd r))))) in Hdelete.
      rewrite save_and_notify_state in Hdelete. simpl in Hdelete.
      rewrite Hts, <- Hlen, splice_out_app, !length_app in Hdelete. simpl in Hdelete. lia.
    + apply findIndex_none. exact Eindex.
  - unfold getTransaction, getTransactions in *. rewrite Hts, Hafter. split.
    + rewrite find_app, (find_none_not_first _ l1 Hbefore).
      apply find_id_absent. rewrite Hts, map_app in Hdistinct. simpl in Hdistinct.
      apply NoDup_remove_2 in Hdistinct. rewrite Hid in Hdistinct.
      intros Hin. apply Hdistinct. apply in_or_app. right. exact Hin.
    + intros other Hother. rewrite !find_app. simpl.
      replace (String.eqb (id old) other) with false
        by (symmetry; apply String.eqb_neq; congruence).
      reflexivity.
Qed.


(** X22: under an id that no record has, [updateTransaction] returns
    [null] and [deleteTransaction] returns [false]; neither writes to
    the storage nor calls a listener, and the amount of the form is not
    even read. *)
Theorem unknown_id_changes_nothing :
  forall (wanted : string) (data : form) (now : string) (w : World),
    getTransaction wanted w = None ->
    updateTransaction wanted data now w = Some (Done None, w)
    /\ deleteTransaction wanted w = (Done false, w).
Proof.
  intros wanted data now w H. unfold getTransaction in H.
  apply findIndex_none in H. unfold updateTransaction, deleteTransaction.
  rewrite H. split; reflexivity.
Qed.

End StoreProperties.


Lemma failed_save_keeps_the_change_witness :
  @Raised unit "Failed to save transactions" = Raised "Failed to save transactions"
  /\ localStorage (world_after (@run (small_storage 5) lunch empty_world))
     = localStorage empty_world
  /\ heard (world_after (@run (small_storage 5) lunch empty_world)) = heard empty_world
  /\ exists w'',
       @run (unlimited (small_storage 5)) lunch empty_world = Some (Done tt, w'')
       /\ state w'' = state (world_after (@run (small_storage 5) lunch empty_world)).
Proof.
  apply (@failed_save_keeps_the_change (small_storage 5) lunch empty_world
           (Raised "Failed to save transactions")
           (world_after (@run (small_storage 5) lunch empty_world))).
  - vm_compute. reflexivity.
  - reflexivity.
  - vm_compute. reflexivity.
Defined.

Lemma addTransaction_then_getTransaction_witness :
  id lunch_record = generateId 1749974400000 "k3j9x2m1q"
  /\ getTransactions lunch_world = getTransactions empty_world ++ [lunch_record]
  /\ getTransaction (id lunch_record) lunch_world
     = Some (match getTransaction (id lunch_record) empty_world with
             | Some old => old
             | None => lunch_record
             end)
  /\ forall other, other <> id lunch_record ->
                   getTransaction other lunch_world = getTransaction other empty_world.
Proof.
  apply (@addTransaction_then_getTransaction (small_storage 100)
           1749974400000 "k3j9x2m1q" "2025-06-15T08:00:00.000Z" lunch_form empty_world
           lunch_record lunch_world).
  vm_compute. reflexivity.
Defined.

Ltac distinct_ids :=
  simpl; repeat constructor; simpl; intros H;
  repeat (destruct H as [H|H]; [discriminate H|]); exact H.

Lemma mutations_keep_ids_distinct_witness :
  NoDup (map id (getTransactions
                   (world_after (@run (small_storage 100) lunch three_records)))).
Proof.
  apply (@mutations_keep_ids_distinct (small_storage 100) lunch three_records (Done tt)).
  - distinct_ids.
  - reflexivity.
  - vm_compute. reflexivity.
Defined.

Lemma deleteTransaction_removes_witness :
  getTransaction "txn_2"
    (snd (@deleteTransaction (small_storage 100) "txn_2" three_records)) = None
  /\ forall other, other <> "txn_2" ->
       getTransaction other
         (snd (@deleteTransaction (small_storage 100) "txn_2" three_records))
       = getTransaction other three_records.
Proof.
  apply (@deleteTransaction_removes (small_storage 100) "txn_2" three_records (Done true)).
  - distinct_ids.
  - vm_compute. reflexivity.
Defined.


Lemma unknown_id_changes_nothing_witness :
  @updateTransaction (small_storage 100) "txn_9" lunch_form "2025-06-16T09:00:00.000Z"
    three_records = Some (Done None, three_records)
  /\ @deleteTransaction (small_storage 100) "txn_9" three_records
     = (Done false, three_records).
Proof.
  apply (@unknown_id_changes_nothing (small_storage 100) "txn_9" lunch_form
           "2025-06-16T09:00:00.000Z" three_records).
  reflexivity.
Defined.

(* ================================================================= *)
(** * From the form to the import *)

Lemma json_fields (t : Transaction) :
  field_of (json_of_transaction t) "id" = VString (id t)
  /\ field_of (json_of_transaction t) "description" = VString (description t)
  /\ field_of (json_of_transaction t) "amount" = VNumber (amount t)
  /\ field_of (json_of_transaction t) "category" = VString (category t)
  /\ field_of (json_of_transaction t) "date" = VString (date t)
  /\ field_of (json_of_transaction t) "createdAt" = VString (createdAt t)
  /\ field_of (json_of_transaction t) "updatedAt" = VString (updatedAt t).
Proof. repeat split; reflexivity. Qed.

Lemma not_blank (value : string) :
  blank value = false -> String.eqb value "" = false /\ String.eqb (trim value) "" = false.
Proof. unfold blank. intros H. apply orb_false_iff in H. exact H. Qed.

(** X23: a form that [validateTransaction] accepts can be added, and the
    record made of it passes the checks of the import once written out
    and read back. *)
Theorem accepted_form_is_importable :
  forall (host : Host) (persistence : Persistence) (data : form)
         (timestamp : Z) (random now : string) (w : World),
    fst (validateTransaction data) = true ->
    now <> "" ->
    exists out w' t,
      addTransaction timestamp random now data w = Some (out, w')
      /\ getTransactions w' = getTransactions w ++ [t]
      /\ record_ok (json_of_transaction t) = true
      /\ validateImportData (VArray [json_of_transaction t])
         = Normal (mkResult true "Data is valid").
Proof.
  intros host persistence data timestamp random now w Hvalid Hnow.
  assert (Hfields : valid (validateDescription (form_description data)) = true
                    /\ valid (validateAmount (form_amount data)) = true
                    /\ valid (validateDate (form_date data)) = true
                    /\ valid (validateCategory (form_category data)) = true).
  { unfold validateTransaction in Hvalid.
    destruct (valid (validateDescription (form_description data)));
      destruct (valid (validateAmount (form_amount data)));
      destruct (valid (validateDate (form_date data)));
      destruct (valid (validateCategory (form_category data)));
      try discriminate Hvalid; repeat split. }
  destruct Hfields as [Hdescription [Hamount [Hdate Hcategory]]].
  destruct (accepted_amount_parsed _ Hamount) as [parsed [Hparsed [Hpositive _]]].
  assert (Htrimmed : String.eqb (trim (form_description data)) "" = false).
  { unfold validateDescription in Hdescription.
    destruct (blank (form_description data)) eqn:E; [discriminate|].
    apply not_blank in E. apply E. }
  assert (Hnamed : String.eqb (form_category data) "" = false).
  { unfold validateCategory in Hcategory.
    destruct (blank (form_category data)) eqn:E; [discriminate|].
    apply not_blank in E. apply E. }
  assert (Hshaped : String.eqb (form_date data) "" = false
                    /\ fst (test patterns.date (form_date data)) = true).
  { unfold validateDate in Hdate.
    destruct (blank (form_date data)) eqn:E; [discriminate|].
    apply not_blank in E.
    destruct (fst (test patterns.date (form_date data))); [|discriminate].
    split; [apply E | reflexivity]. }
  destruct Hshaped as [Hdated Hshaped].
  assert (Hstamped : String.eqb now "" = false).
  { apply String.eqb_neq. exact Hnow. }
  set (t := mkTransaction (generateId timestamp random) (trim (form_description data))
                          parsed (form_category data) (form_date data) now now).
  assert (Hok : record_ok (json_of_transaction t) = true).
  { destruct (json_fields t) as [F1 [F2 [F3 [F4 [F5 [F6 F7]]]]]].
    change (record_ok (json_of_transaction t))
      with (nonempty_string (field_of (json_of_transaction t) "id")
            && nonempty_string (field_of (json_of_transaction t) "description")
            && positive_number (field_of (json_of_transaction t) "amount")
            && nonempty_string (field_of (json_of_transaction t) "category")
            && date_shaped (field_of (json_of_transaction t) "date")
            && truthy (field_of (json_of_transaction t) "createdAt")
            && truthy (field_of (json_of_transaction t) "updatedAt")).
    rewrite F1, F2, F3, F4, F5, F6, F7. unfold date_shaped, test_value.
    cbn [nonempty_string positive_number truthy ToString bind id description amount
         category date createdAt updatedAt t].
    rewrite Htrimmed, Hnamed, Hdated, Hshaped, Hstamped.
    replace (Q_ltb 0 parsed) with true by (symmetry; apply Q_ltb_lt; exact Hpositive).
    reflexivity. }
  assert (Hadd : exists out w',
             addTransaction timestamp random now data w = Some (out, w')
             /\ getTransactions w' = getTransactions w ++ [t]).
  { unfold addTransaction. rewrite Hparsed. fold t.
    destruct (save_and_notify t _) as [out w'] eqn:Esave.
    exists out, w'. split; [reflexivity|].
    apply (f_equal (fun r => state (snd r))) in Esave.
    rewrite save_and_notify_state in Esave. simpl in Esave.
    unfold getTransactions. rewrite <- Esave. reflexivity. }
  destruct Hadd as [out [w' [Hadd Hlist]]].
  exists out, w', t. split; [exact Hadd|]. split; [exact Hlist|]. split; [exact Hok|].
  assert (Hreadable : forallb readable [json_of_transaction t] = true) by reflexivity.
  destruct (check_records_readable host [json_of_transaction t] 0 Hreadable)
    as [r [Hrun [Hr _]]].
  unfold validateImportData. rewrite Hrun. f_equal.
  cbn [check_records] in Hrun.
  destruct (check_record_readable host 0 (json_of_transaction t) eq_refl) as [what Hcheck].
  rewrite Hcheck, Hok in Hrun. cbn [bind] in Hrun. congruence.
Qed.

Lemma accepted_form_is_importable_witness :
  exists out w' t,
    @addTransaction (small_storage 100) 1749974400000 "k3j9x2m1q"
      "2025-06-15T08:00:00.000Z" lunch_form empty_world = Some (out, w')
    /\ getTransactions w' = getTransactions empty_world ++ [t]
    /\ @record_ok (morning_east true) (json_of_transaction t) = true
    /\ @validateImportData (morning_east true) (VArray [json_of_transaction t])
       = Normal (mkResult true "Data is valid").
Proof.
  apply (accepted_form_is_importable (morning_east true) (small_storage 100) lunch_form
           1749974400000 "k3j9x2m1q" "2025-06-15T08:00:00.000Z" empty_world).
  - vm_compute. reflexivity.
  - discriminate.
Defined.

(* ================================================================= *)
(** * Further properties of the statistics *)

(** A sum is a double. *)
Lemma sum_amounts_fixed (ts : list Transaction) :
  (round (sum_amounts ts) == sum_amounts ts)%Q.
Proof.
  induction ts as [|t ts _] using rev_ind; [reflexivity|].
  rewrite sum_amounts_snoc. unfold Number_add. apply round_idempotent.
Qed.

Lemma sum_amounts_filter_bounds (f : Transaction -> bool) (ts : list Transaction) :
  (forall t, In t ts -> (0 <= amount t)%Q) ->
  (0 <= sum_amounts (filter f ts))%Q
  /\ (sum_amounts (filter f ts) <= sum_amounts ts)%Q.
Proof.
  induction ts as [|t ts IH] using rev_ind; intros Hpos.
  - simpl. change (sum_amounts []) with 0%Q. split; apply Qle_refl.
  - assert (Ht : (0 <= amount t)%Q).
    { apply Hpos. apply in_or_app. right. left. reflexivity. }
    destruct IH as [IH0 IH1].
    { intros t' Ht'. apply Hpos. apply in_or_app. left. exact Ht'. }
    rewrite filter_app, sum_amounts_snoc. simpl. destruct (f t).
    + rewrite sum_amounts_snoc. split.
      * unfold Number_add. apply round_nonneg.
        pose proof (round_nonneg _ IH0). pose proof (round_nonneg _ Ht). lra.
      * apply Number_add_le; [exact IH1 | apply Qle_refl].
    + rewrite app_nil_r. split; [exact IH0|].
      apply Qle_trans with (1 := IH1).
      rewrite <- (sum_amounts_fixed ts) at 1. rewrite <- (round_idempotent (sum_amounts ts)).
      unfold Number_add. apply round_le.
      pose proof (round_nonneg _ Ht). lra.
Qed.

(** X24: when no amount is negative, the sum of the last seven days is
    not negative and not more than the total spent. *)
Theorem last7Days_within_totalSpent :
  forall (host : Host) (state : State),
    (forall t, In t (transactions state) -> (0 <= amount t)%Q) ->
    (0 <= last7Days (calculateStats state))%Q
    /\ (last7Days (calculateStats state) <= totalSpent (calculateStats state))%Q.
Proof.
  intros host state Hpos. unfold calculateStats. cbn [last7Days totalSpent].
  apply sum_amounts_filter_bounds. exact Hpos.
Qed.

Lemma last7Days_within_totalSpent_witness :
  (0 <= last7Days (@calculateStats (morning_east true) (store [june_15; june_12; june_5])))%Q
  /\ (last7Days (@calculateStats (morning_east true) (store [june_15; june_12; june_5]))
      <= totalSpent (@calculateStats (morning_east true) (store [june_15; june_12; june_5])))%Q.
Proof.
  apply (last7Days_within_totalSpent (morning_east true) (store [june_15; june_12; june_5])).
  intros t Hin. simpl in Hin.
  destruct Hin as [<-|[<-|[<-|[]]]]; discriminate.
Defined.

Lemma keys_put (o : object) (c k : string) (v : tally) :
  In k (map fst (put o c v)) -> k = c \/ In k (map fst o).
Proof.
  unfold put. destruct (String.eqb c "__proto__"); [right; assumption|].
  destruct (own c o).
  - rewrite map_fst_overwrite. right. assumption.
  - rewrite map_app. intros H. apply in_app_or in H.
    destruct H as [H|[H|[]]]; [right; exact H | left; symmetry; exact H].
Qed.

Lemma keys_categoryTotals (ts : list Transaction) (k : string) :
  In k (map fst (categoryTotals ts)) -> In k (map category ts).
Proof.
  induction ts as [|t ts IH] using rev_ind; [intros []|].
  rewrite categoryTotals_snoc, map_app. intros H. apply keys_put in H.
  apply in_or_app. destruct H as [->|H]; [right; left; reflexivity | left; exact (IH H)].
Qed.

Lemma top_step_key (es : list (string * tally)) (top : string * number) :
  fst (fold_left top_step es top) = fst top
  \/ In (fst (fold_left top_step es top)) (map fst es).
Proof.
  revert top. induction es as [|e es IH]; intros top; simpl; [left; reflexivity|].
  destruct (IH (top_step top e)) as [H|H]; [|right; right; exact H].
  rewrite H. unfold top_step. destruct (snd e); [|left; reflexivity].
  destruct (exceeds _ _); [right; left; reflexivity | left; reflexivity].
Qed.

(** X25: the top category is the dash the scan begins with, or the
    category of a record of the store. *)
Theorem topCategory_names_a_record :
  forall (host : Host) (state : State),
    topCategory (calculateStats state) = "-"
    \/ In (topCategory (calculateStats state)) (map category (transactions state)).
Proof.
  intros host state. unfold calculateStats. cbn [topCategory].
  destruct (top_step_key (Object_entries (categoryTotals (transactions state))) ("-", 0%Q))
    as [H|H]; [left; exact H | right].
  apply keys_categoryTotals.
  apply (Permutation_in _ (Permutation_map fst (Object_entries_perm _))). exact H.
Qed.






(** The rows are those of the doubles: with 0.3 for [Books] and 0.1 and
    0.2 for [Food], the total is 0.6000000000000001, [Food] stands first
    with a share of 50, and the share of [Books] is
    49.999999999999986. *)
Lemma categoryBreakdown_rounded_example :
  map (fun row : string * tally * option number => fst (fst row))
      (categoryBreakdown (@calculateStats (morning_east true) (store tenths)))
  = ["Food"; "Books"]
  /\ (totalSpent (@calculateStats (morning_east true) (store tenths))
      == round (6000000000000001 # 10000000000000000))%Q
  /\ exists food books : number,
       map snd (categoryBreakdown (@calculateStats (morning_east true) (store tenths)))
       = [Some food; Some books]
       /\ (food == 50)%Q
       /\ (books == round (49999999999999986 # 1000000000000000))%Q.
Proof.
  split; [vm_compute; reflexivity|]. split; [vm_compute; reflexivity|].
  eexists. eexists. split; [vm_compute; reflexivity|].
  split; vm_compute; reflexivity.
Qed.
